(** * CredVault: credential lifecycle and verification URLs

    A shallow embedding of [client/lib/auth.ts] and of the seed data and
    the URL utilities (the two modules of [client/lib/seed-data.ts]), with
    the properties the specification states about them and further
    properties of the code.

    Conventions.
    - A JavaScript string is the list of its UTF-16 code units ([Z] values
      in [0, 0xFFFF]); [length] is then JavaScript's [.length].
    - [localStorage] is a record with one slot per key the code uses.  A
      slot is missing, holds the value [JSON.parse] gives back, or holds
      text [JSON.parse] rejects.
    - A function that can [throw] returns a [completion]; a function that
      also reads or writes [localStorage] runs in the monad [Js].
    - [Date.now()], [Math.random()] and [new Date().toISOString()] are read
      from an [Oracle] passed by the caller; [String.prototype.toLowerCase]
      is a member of the class [StringPrototype]. *)

From Stdlib Require Import ZArith String Ascii List Bool Lia.
From stdpp Require Import base tactics option list.
Import ListNotations.

Local Open Scope Z_scope.

(* ===================================================================== *)
(** ** JavaScript strings *)
(* ===================================================================== *)

Abbreviation jsstring := (list Z).

(** Code unit of an ASCII character, and the string of an ASCII literal. *)
Definition chr (c : ascii) : Z := Z.of_N (N_of_ascii c).

Definition str (s : string) : jsstring := map chr (list_ascii_of_string s).

(** [WhiteSpace] and [LineTerminator] of ECMAScript: what [trim] strips and
    what [\s] matches. *)
Definition isWhiteSpace (u : Z) : bool :=
  ((9 <=? u) && (u <=? 13)) || (u =? 0x20) || (u =? 0xA0) || (u =? 0x1680)
  || ((0x2000 <=? u) && (u <=? 0x200A)) || (u =? 0x2028) || (u =? 0x2029)
  || (u =? 0x202F) || (u =? 0x205F) || (u =? 0x3000) || (u =? 0xFEFF).

Fixpoint trimStart (s : jsstring) : jsstring :=
  match s with
  | [] => []
  | u :: t => if isWhiteSpace u then trimStart t else s
  end.

Fixpoint trimEnd (s : jsstring) : jsstring :=
  match s with
  | [] => []
  | u :: t =>
      match trimEnd t with
      | [] => if isWhiteSpace u then [] else [u]
      | t' => u :: t'
      end
  end.

(** [s.trim()] *)
Definition trim (s : jsstring) : jsstring := trimEnd (trimStart s).

(** [s.startsWith(p)] *)
Fixpoint startsWith (s p : jsstring) : bool :=
  match p, s with
  | [], _ => true
  | _ :: _, [] => false
  | a :: p', b :: s' => (a =? b) && startsWith s' p'
  end.

(** [s.includes(p)] *)
Fixpoint includes (s p : jsstring) : bool :=
  startsWith s p || match s with [] => false | _ :: t => includes t p end.

(** [ToIntegerOrInfinity(x)] clamped to [0, len], as [substring] does with
    each of its arguments. *)
Definition clamp_index (len x : Z) : Z := Z.min (Z.max x 0) len.

(** [s.substring(from, to)] with integer arguments: both are clamped and
    swapped when out of order. *)
Definition substring (s : jsstring) (from to : Z) : jsstring :=
  let len := Z.of_nat (length s) in
  let a := clamp_index len from in
  let b := clamp_index len to in
  let lo := Z.min a b in
  let hi := Z.max a b in
  take (Z.to_nat (hi - lo)) (drop (Z.to_nat lo) s).

(* ===================================================================== *)
(** ** Regular expressions

    The three patterns of the source are anchored at both ends and use only
    characters, classes, concatenation and bounded or unbounded repetition;
    [regex_test] decides a whole-string match with Brzozowski
    derivatives. *)
(* ===================================================================== *)

Inductive regex : Type :=
| Never
| Epsilon
| Class (f : Z -> bool)
| Cat (r1 r2 : regex)
| Or (r1 r2 : regex)
| Star (r : regex).

Definition Chr (c : ascii) : regex := Class (Z.eqb (chr c)).

(** [r+] *)
Definition Plus (r : regex) : regex := Cat r (Star r).

(** [r{0,n}] *)
Fixpoint AtMost (n : nat) (r : regex) : regex :=
  match n with
  | O => Epsilon
  | S k => Or Epsilon (Cat r (AtMost k r))
  end.

(** [r{n}] followed by [rest] *)
Fixpoint Times (n : nat) (r rest : regex) : regex :=
  match n with
  | O => rest
  | S k => Cat r (Times k r rest)
  end.

(** [r{lo,hi}] *)
Definition Between (lo hi : nat) (r : regex) : regex :=
  Times lo r (AtMost (hi - lo) r).

Fixpoint nullable (r : regex) : bool :=
  match r with
  | Never => false
  | Epsilon => true
  | Class _ => false
  | Cat r1 r2 => nullable r1 && nullable r2
  | Or r1 r2 => nullable r1 || nullable r2
  | Star _ => true
  end.

Definition mkCat (r1 r2 : regex) : regex :=
  match r1, r2 with
  | Never, _ => Never
  | _, Never => Never
  | Epsilon, _ => r2
  | _, _ => Cat r1 r2
  end.

Definition mkOr (r1 r2 : regex) : regex :=
  match r1, r2 with
  | Never, _ => r2
  | _, Never => r1
  | _, _ => Or r1 r2
  end.

Fixpoint deriv (u : Z) (r : regex) : regex :=
  match r with
  | Never => Never
  | Epsilon => Never
  | Class f => if f u then Epsilon else Never
  | Cat r1 r2 =>
      mkOr (mkCat (deriv u r1) r2) (if nullable r1 then deriv u r2 else Never)
  | Or r1 r2 => mkOr (deriv u r1) (deriv u r2)
  | Star r1 => mkCat (deriv u r1) (Star r1)
  end.

(** [/^r$/.test(s)] *)
Definition regex_test (r : regex) (s : jsstring) : bool :=
  nullable (fold_left (fun r u => deriv u r) s r).

(* ===================================================================== *)
(** ** Validators ([auth.ts] and the URL utilities) *)
(* ===================================================================== *)

(** [[^\s@]] *)
Definition notSpaceNorAt (u : Z) : bool :=
  negb (isWhiteSpace u || (u =? chr "@")).

(** [[a-fA-F0-9]] *)
Definition hexDigit (u : Z) : bool :=
  ((chr "a" <=? u) && (u <=? chr "f"))
  || ((chr "A" <=? u) && (u <=? chr "F"))
  || ((chr "0" <=? u) && (u <=? chr "9")).

(** [[a-zA-Z0-9_-]] *)
Definition nameChar (u : Z) : bool :=
  ((chr "a" <=? u) && (u <=? chr "z"))
  || ((chr "A" <=? u) && (u <=? chr "Z"))
  || ((chr "0" <=? u) && (u <=? chr "9"))
  || (u =? chr "_") || (u =? chr "-").

(** [/^[^\s@]+@[^\s@]+\.[^\s@]+$/] *)
Definition emailRegex : regex :=
  Cat (Plus (Class notSpaceNorAt))
      (Cat (Chr "@")
           (Cat (Plus (Class notSpaceNorAt))
                (Cat (Chr ".") (Plus (Class notSpaceNorAt))))).

(** [/^0x[a-fA-F0-9]{1,64}$/] *)
Definition hexAddressRegex : regex :=
  Cat (Chr "0") (Cat (Chr "x") (Between 1 64 (Class hexDigit))).

(** [/^[a-zA-Z0-9_-]+\.apt$/] *)
Definition namedAddressRegex : regex :=
  Cat (Plus (Class nameChar))
      (Cat (Chr ".") (Cat (Chr "a") (Cat (Chr "p") (Chr "t")))).

(** [auth.ts], [isValidEmail] *)
Definition isValidEmail (email : jsstring) : bool :=
  regex_test emailRegex email.

(** [auth.ts], [isValidWallet].  [!address] holds of the empty string only;
    the [typeof] test never fails on a string. *)
Definition isValidWallet (address : jsstring) : bool :=
  match address with
  | [] => false
  | _ =>
      let trimmed := trim address in
      if startsWith trimmed (str "0x") then
        regex_test hexAddressRegex trimmed
      else if includes trimmed (str ".apt") then
        regex_test namedAddressRegex trimmed
      else
        (6 <=? Z.of_nat (length trimmed))
        && (Z.of_nat (length trimmed) <=? 100)
  end.

(** URL utilities, [isValidWalletAddress] *)
Definition isValidWalletAddress (address : jsstring) : bool :=
  match address with
  | [] => false
  | _ =>
      let trimmed := trim address in
      if startsWith trimmed (str "0x") then
        regex_test hexAddressRegex trimmed
      else if includes trimmed (str ".apt") then
        regex_test namedAddressRegex trimmed
      else
        (6 <=? Z.of_nat (length trimmed))
        && (Z.of_nat (length trimmed) <=? 100)
  end.

(** URL utilities, [isValidCredentialId] *)
Definition isValidCredentialId (id : jsstring) : bool :=
  match id with
  | [] => false
  | _ =>
      let trimmed := trim id in
      (0 <? Z.of_nat (length trimmed)) && (Z.of_nat (length trimmed) <=? 100)
  end.

(** What it means for a string to match a pattern as a whole. *)
Inductive matches : regex -> jsstring -> Prop :=
| matches_epsilon : matches Epsilon []
| matches_class f u : f u = true -> matches (Class f) [u]
| matches_cat r1 r2 s1 s2 :
    matches r1 s1 -> matches r2 s2 -> matches (Cat r1 r2) (s1 ++ s2)
| matches_or_l r1 r2 s : matches r1 s -> matches (Or r1 r2) s
| matches_or_r r1 r2 s : matches r2 s -> matches (Or r1 r2) s
| matches_star_nil r : matches (Star r) []
| matches_star_cons r s1 s2 :
    matches r s1 -> matches (Star r) s2 -> matches (Star r) (s1 ++ s2).

(** The wallet contract in the words of section 4.1 of the specification.
    Hex form: [0x], then 1 to 64 hexadecimal characters. *)
Definition hex_form (t : jsstring) : Prop :=
  exists digits,
    t = str "0x" ++ digits
    /\ (1 <= length digits <= 64)%nat
    /\ Forall (fun u => hexDigit u = true) digits.

(** Named form: letters, digits, [_] and [-], at least one, then [.apt]. *)
Definition named_form (t : jsstring) : Prop :=
  exists name,
    t = name ++ str ".apt"
    /\ name <> []
    /\ Forall (fun u => nameChar u = true) name.

(** The email contract in the words of section 4.1: one or more characters
    that are neither whitespace nor [@], then [@], then one or more such
    characters, then [.], then one or more such characters. *)
Definition email_form (e : jsstring) : Prop :=
  exists a b c,
    e = a ++ str "@" ++ b ++ str "." ++ c
    /\ a <> [] /\ b <> [] /\ c <> []
    /\ Forall (fun u => notSpaceNorAt u = true) (a ++ b ++ c).

(** Trim; invalid if the input is empty; then three forms, checked in
    order: the hex form for a string that starts with [0x], the named form
    for one that contains [.apt], a length from 6 to 100 for any other. *)
Definition wallet_contract (s : jsstring) : Prop :=
  s <> []
  /\ let t := trim s in
     (startsWith t (str "0x") = true /\ hex_form t)
     \/ (startsWith t (str "0x") = false /\ includes t (str ".apt") = true
         /\ named_form t)
     \/ (startsWith t (str "0x") = false /\ includes t (str ".apt") = false
         /\ (6 <= length t <= 100)%nat).

(* ===================================================================== *)
(** ** Unicode: UTF-16 code units, scalar values, UTF-8 *)
(* ===================================================================== *)

Definition isLeadSurrogate (u : Z) : bool := (0xD800 <=? u) && (u <=? 0xDBFF).

Definition isTrailSurrogate (u : Z) : bool := (0xDC00 <=? u) && (u <=? 0xDFFF).

(** Conversion of a JavaScript string to a [USVString] (Web IDL): surrogate
    pairs become one scalar value, a surrogate that is not part of a pair
    becomes U+FFFD. *)
Fixpoint toUSVString (s : jsstring) : list Z :=
  match s with
  | [] => []
  | u :: t =>
      if isLeadSurrogate u then
        match t with
        | v :: t' =>
            if isTrailSurrogate v then
              (0x10000 + Z.shiftl (u - 0xD800) 10 + (v - 0xDC00))
                :: toUSVString t'
            else 0xFFFD :: toUSVString t
        | [] => [0xFFFD]
        end
      else if isTrailSurrogate u then 0xFFFD :: toUSVString t
      else u :: toUSVString t
  end.

(** UTF-16 encoding of one scalar value. *)
Definition codeUnitsOf (cp : Z) : jsstring :=
  if cp <? 0x10000 then [cp]
  else [0xD800 + Z.shiftr (cp - 0x10000) 10;
        0xDC00 + Z.land (cp - 0x10000) 0x3FF].

(** A scalar value string seen again as a JavaScript string. *)
Definition fromUSVString (l : list Z) : jsstring := flat_map codeUnitsOf l.

(** [s.isWellFormed()]: 16-bit code units, every surrogate in a pair. *)
Fixpoint isWellFormed (s : jsstring) : bool :=
  match s with
  | [] => true
  | u :: t =>
      if isLeadSurrogate u then
        match t with
        | v :: t' => isTrailSurrogate v && isWellFormed t'
        | [] => false
        end
      else
        negb (isTrailSurrogate u) && (0 <=? u) && (u <=? 0xFFFF)
        && isWellFormed t
  end.

(** UTF-8 encoder of the Encoding standard: the bytes that follow the
    lead byte, most significant first. *)
Fixpoint utf8_continuation (cp : Z) (count : nat) : list Z :=
  match count with
  | O => []
  | S k =>
      Z.lor 0x80 (Z.land (Z.shiftr cp (6 * Z.of_nat k)) 0x3F)
        :: utf8_continuation cp k
  end.

Definition utf8_encode_scalar (cp : Z) : list Z :=
  if cp <=? 0x7F then [cp]
  else
    let '(count, offset) :=
      if cp <=? 0x7FF then (1%nat, 0xC0)
      else if cp <=? 0xFFFF then (2%nat, 0xE0)
      else (3%nat, 0xF0) in
    (Z.shiftr cp (6 * Z.of_nat count) + offset) :: utf8_continuation cp count.

Definition utf8_encode (l : list Z) : list Z := flat_map utf8_encode_scalar l.

(** UTF-8 decoder of the Encoding standard, errors replaced by U+FFFD. *)
Record utf8_decoder : Type := {
  code_point : Z;
  bytes_seen : Z;
  bytes_needed : Z;
  lower_boundary : Z;
  upper_boundary : Z
}.

Definition utf8_idle : utf8_decoder :=
  {| code_point := 0; bytes_seen := 0; bytes_needed := 0;
     lower_boundary := 0x80; upper_boundary := 0xBF |}.

Inductive utf8_step : Type :=
| Continue (d : utf8_decoder)
| Emit (cp : Z)
| DecodeError.

(** The handler on a byte when no bytes are needed. *)
Definition utf8_lead (b : Z) : utf8_step :=
  if (0 <=? b) && (b <=? 0x7F) then Emit b
  else if (0xC2 <=? b) && (b <=? 0xDF) then
    Continue {| code_point := Z.land b 0x1F; bytes_seen := 0;
                bytes_needed := 1;
                lower_boundary := 0x80; upper_boundary := 0xBF |}
  else if (0xE0 <=? b) && (b <=? 0xEF) then
    Continue {| code_point := Z.land b 0xF; bytes_seen := 0;
                bytes_needed := 2;
                lower_boundary := if b =? 0xE0 then 0xA0 else 0x80;
                upper_boundary := if b =? 0xED then 0x9F else 0xBF |}
  else if (0xF0 <=? b) && (b <=? 0xF4) then
    Continue {| code_point := Z.land b 0x7; bytes_seen := 0;
                bytes_needed := 3;
                lower_boundary := if b =? 0xF0 then 0x90 else 0x80;
                upper_boundary := if b =? 0xF4 then 0x8F else 0xBF |}
  else DecodeError.

(** The handler on a byte in the boundaries, when bytes are needed. *)
Definition utf8_trail (d : utf8_decoder) (b : Z) : utf8_step :=
  let cp := Z.lor (Z.shiftl (code_point d) 6) (Z.land b 0x3F) in
  let seen := bytes_seen d + 1 in
  if seen =? bytes_needed d then Emit cp
  else Continue {| code_point := cp; bytes_seen := seen;
                   bytes_needed := bytes_needed d;
                   lower_boundary := 0x80; upper_boundary := 0xBF |}.

Fixpoint utf8_decode_from (d : utf8_decoder) (bs : list Z) : list Z :=
  match bs with
  | [] => if bytes_needed d =? 0 then [] else [0xFFFD]
  | b :: rest =>
      let resume (s : utf8_step) : list Z :=
        match s with
        | Continue d' => utf8_decode_from d' rest
        | Emit cp => cp :: utf8_decode_from utf8_idle rest
        | DecodeError => 0xFFFD :: utf8_decode_from utf8_idle rest
        end in
      if bytes_needed d =? 0 then resume (utf8_lead b)
      else if (lower_boundary d <=? b) && (b <=? upper_boundary d) then
        resume (utf8_trail d b)
      else
        (* error; the byte is restored and handled afresh *)
        0xFFFD :: resume (utf8_lead b)
  end.

(** [UTF-8 decode without BOM] *)
Definition utf8_decode (bs : list Z) : list Z := utf8_decode_from utf8_idle bs.

(* ===================================================================== *)
(** ** application/x-www-form-urlencoded and URLSearchParams *)
(* ===================================================================== *)

Definition asciiAlphanumeric (b : Z) : bool :=
  ((chr "0" <=? b) && (b <=? chr "9"))
  || ((chr "A" <=? b) && (b <=? chr "Z"))
  || ((chr "a" <=? b) && (b <=? chr "z")).

(** Bytes outside the application/x-www-form-urlencoded percent-encode set:
    ASCII alphanumerics and [* - . _]. *)
Definition urlencoded_keeps (b : Z) : bool :=
  asciiAlphanumeric b
  || (b =? chr "*") || (b =? chr "-") || (b =? chr ".") || (b =? chr "_").

Definition upperHexDigit (n : Z) : Z :=
  if n <? 10 then chr "0" + n else chr "A" + (n - 10).

(** [%XX] *)
Definition percent_encode (b : Z) : list Z :=
  [chr "%"; upperHexDigit (Z.shiftr b 4); upperHexDigit (Z.land b 0xF)].

Definition urlencoded_byte (b : Z) : list Z :=
  if b =? 0x20 then [chr "+"]
  else if urlencoded_keeps b then [b]
  else percent_encode b.

(** Percent-encode after UTF-8 encoding, space as plus. *)
Definition urlencoded_string (s : list Z) : list Z :=
  flat_map urlencoded_byte (utf8_encode s).

(** The serializer: [name=value] joined by [&]. *)
Fixpoint urlencoded_serialize (tuples : list (list Z * list Z)) : list Z :=
  match tuples with
  | [] => []
  | (name, value) :: rest =>
      let pair := urlencoded_string name ++ chr "=" :: urlencoded_string value in
      match rest with
      | [] => pair
      | _ => pair ++ chr "&" :: urlencoded_serialize rest
      end
  end.

(** Strict split of a byte sequence on a separator. *)
Fixpoint split_on (sep : Z) (bs : list Z) : list (list Z) :=
  match bs with
  | [] => [[]]
  | b :: t =>
      if b =? sep then [] :: split_on sep t
      else
        match split_on sep t with
        | h :: r => (b :: h) :: r
        | [] => [[b]]
        end
  end.

(** The bytes before and after the first separator, if there is one. *)
Fixpoint break_at (sep : Z) (bs : list Z) : option (list Z * list Z) :=
  match bs with
  | [] => None
  | b :: t =>
      if b =? sep then Some ([], t)
      else
        match break_at sep t with
        | Some (l, r) => Some (b :: l, r)
        | None => None
        end
  end.

Definition plus_to_space (bs : list Z) : list Z :=
  map (fun b => if b =? chr "+" then 0x20 else b) bs.

Definition hexValue (b : Z) : option Z :=
  if (chr "0" <=? b) && (b <=? chr "9") then Some (b - chr "0")
  else if (chr "A" <=? b) && (b <=? chr "F") then Some (b - chr "A" + 10)
  else if (chr "a" <=? b) && (b <=? chr "f") then Some (b - chr "a" + 10)
  else None.

Fixpoint percent_decode (bs : list Z) : list Z :=
  match bs with
  | [] => []
  | b :: t =>
      if b =? chr "%" then
        match t with
        | h :: l :: t' =>
            match hexValue h, hexValue l with
            | Some x, Some y => (16 * x + y) :: percent_decode t'
            | _, _ => b :: percent_decode t
            end
        | _ => b :: percent_decode t
        end
      else b :: percent_decode t
  end.

Definition urlencoded_field (bs : list Z) : list Z :=
  utf8_decode (percent_decode (plus_to_space bs)).

(** One sequence between two [&]: nothing if it is empty; else it is broken
    at its first [=] and both sides are decoded. *)
Definition urlencoded_sequence (bytes : list Z) : list (list Z * list Z) :=
  match bytes with
  | [] => []
  | _ =>
      let '(name, value) :=
        match break_at (chr "=") bytes with
        | Some p => p
        | None => (bytes, [])
        end in
      [(urlencoded_field name, urlencoded_field value)]
  end.

(** The parser: split on [&] and read each sequence. *)
Definition urlencoded_parse (input : list Z) : list (list Z * list Z) :=
  flat_map urlencoded_sequence (split_on (chr "&") input).

(** A [URLSearchParams] object is its list of name-value pairs, each a
    scalar value string. *)
Abbreviation URLSearchParams := (list (list Z * list Z)).

(** [new URLSearchParams({k1: v1, ...})]: own properties in insertion
    order. *)
Definition URLSearchParams_of_record (init : list (jsstring * jsstring))
  : URLSearchParams :=
  map (fun kv => (toUSVString kv.1, toUSVString kv.2)) init.

(** [new URLSearchParams(init)] for a string: a leading [?] is dropped. *)
Definition URLSearchParams_of_string (init : jsstring) : URLSearchParams :=
  let s := toUSVString init in
  let s := match s with
           | c :: t => if c =? chr "?" then t else s
           | [] => s
           end in
  urlencoded_parse (utf8_encode s).

(** [params.toString()] *)
Definition URLSearchParams_toString (params : URLSearchParams) : jsstring :=
  urlencoded_serialize params.

(** [params.get(name)]: the value of the first pair of that name, or
    [null]. *)
Definition URLSearchParams_get (params : URLSearchParams) (name : jsstring)
  : option jsstring :=
  match find (fun nv => bool_decide (nv.1 = toUSVString name)) params with
  | Some nv => Some (fromUSVString nv.2)
  | None => None
  end.
(* ===================================================================== *)
(** ** Errors and completions *)
(* ===================================================================== *)

(** [new Error(message)] *)
Record JsError : Type := { message : string }.

(** The error kinds of the specification, by the message the code throws. *)
Definition MissingField : JsError :=
  {| message := "Wallet address and credential ID are required" |}.
Definition InvalidWalletAddress : JsError :=
  {| message := "Invalid wallet address format" |}.
Definition InvalidEmail : JsError :=
  {| message := "Invalid email format" |}.
Definition DuplicateUser : JsError :=
  {| message := "User with this email already exists" |}.
Definition RequestNotFound : JsError :=
  {| message := "Request not found" |}.
Definition RequestNotPending : JsError :=
  {| message := "Request is not pending" |}.

Inductive completion (A : Type) : Type :=
| Normal (a : A)
| Throw (e : JsError).

Arguments Normal {A} a.
Arguments Throw {A} e.

(* ===================================================================== *)
(** ** Verification URLs (URL utilities) *)
(* ===================================================================== *)

(** What the code reads of [window.location]. *)
Record Window : Type := {
  location_origin : jsstring;
  location_search : jsstring
}.

(** [x || y] on strings: the empty string and [undefined] are falsy. *)
Definition or_else (x : option jsstring) (y : jsstring) : jsstring :=
  match x with
  | Some ((_ :: _) as s) => s
  | _ => y
  end.

(** [x || undefined] *)
Definition or_undefined (x : option jsstring) : option jsstring :=
  match x with
  | Some ((_ :: _) as s) => Some s
  | _ => None
  end.

(** [generateVerificationUrl(walletAddress, credentialId, baseUrl?)] *)
Definition generateVerificationUrl (window : Window)
    (walletAddress credentialId : jsstring) (baseUrl : option jsstring)
  : completion jsstring :=
  match walletAddress, credentialId with
  | [], _ | _, [] => Throw MissingField
  | _, _ =>
      let cleanAddress := trim walletAddress in
      let cleanCredentialId := trim credentialId in
      if negb (isValidWalletAddress cleanAddress) then
        Throw InvalidWalletAddress
      else
        let origin := or_else baseUrl (location_origin window) in
        let params :=
          URLSearchParams_of_record
            [(str "address", cleanAddress);
             (str "credentialId", cleanCredentialId)] in
        Normal (origin ++ str "/verify?" ++ URLSearchParams_toString params)
  end.

Module CredentialParams.
Record t : Type := {
  address : option jsstring;
  credentialId : option jsstring;
  type : option jsstring;
  issuer : option jsstring
}.
End CredentialParams.

(** [parseUrlParams()]; [None] is a context without [window]. *)
Definition parseUrlParams (window : option Window) : CredentialParams.t :=
  match window with
  | None =>
      {| CredentialParams.address := None;
         CredentialParams.credentialId := None;
         CredentialParams.type := None;
         CredentialParams.issuer := None |}
  | Some w =>
      let urlParams := URLSearchParams_of_string (location_search w) in
      let get name := or_undefined (URLSearchParams_get urlParams (str name)) in
      {| CredentialParams.address := get "address"%string;
         CredentialParams.credentialId := get "credentialId"%string;
         CredentialParams.type := get "type"%string;
         CredentialParams.issuer := get "issuer"%string |}
  end.

(** The text of [s] before the first [sep]. *)
Fixpoint before (sep : Z) (s : jsstring) : jsstring :=
  match s with
  | [] => []
  | u :: t => if u =? sep then [] else u :: before sep t
  end.

(** The text of [s] from the first [sep] on. *)
Fixpoint from_first (sep : Z) (s : jsstring) : jsstring :=
  match s with
  | [] => []
  | u :: t => if u =? sep then s else from_first sep t
  end.

(** [location.search] once the browser is at [href]: the query with its
    [?], without the fragment, and empty when the query is.  (The URL
    parser also escapes some characters of a query; none of them occurs in
    what [URLSearchParams] prints.) *)
Definition search_of_href (href : jsstring) : jsstring :=
  match from_first (chr "?") (before (chr "#") href) with
  | [_] => []
  | q => q
  end.

(** [sanitizeUrlForDisplay(url, maxLength)] for an integer [maxLength].
    [maxLength / 2] and [url.length - maxLength / 2] are halves of
    integers, which [substring] truncates toward zero ([Z.quot]); its
    missing second argument is the length. *)
Definition sanitizeUrlForDisplay (url : jsstring) (maxLength : Z) : jsstring :=
  let len := Z.of_nat (length url) in
  if len <=? maxLength then url
  else
    let start := substring url 0 (Z.quot maxLength 2) in
    let end_ := substring url (Z.quot (2 * len - maxLength) 2) len in
    start ++ str "..." ++ end_.

(** The default of the second parameter. *)
Definition sanitizeUrlForDisplay_default (url : jsstring) : jsstring :=
  sanitizeUrlForDisplay url 60.

(* ===================================================================== *)
(** ** Data model of [auth.ts] *)
(* ===================================================================== *)

Inductive Role : Type := student | staff | issuer.

Global Instance Role_eq_dec : EqDecision Role.
Proof. solve_decision. Defined.

Module UserProfile.
Record t : Type := {
  id : jsstring;
  name : jsstring;
  email : jsstring;
  walletAddress : jsstring;
  role : Role;
  organization : option jsstring;
  institution : option jsstring;
  createdAt : jsstring
}.
End UserProfile.

Module StoredUser.
Record t : Type := {
  id : jsstring;
  name : jsstring;
  email : jsstring;
  walletAddress : jsstring;
  role : Role;
  organization : option jsstring;
  institution : option jsstring;
  createdAt : jsstring
}.
End StoredUser.

Record StudentRegistration : Type := {
  student_name : jsstring;
  student_email : jsstring;
  student_walletAddress : jsstring
}.

Record StaffRegistration : Type := {
  staff_name : jsstring;
  staff_email : jsstring;
  staff_walletAddress : jsstring;
  staff_organization : jsstring
}.

Record IssuerRegistration : Type := {
  issuer_name : jsstring;
  issuer_email : jsstring;
  issuer_walletAddress : jsstring;
  issuer_institution : jsstring
}.

Record StudentSignIn : Type := {
  signin_email : jsstring;
  signin_walletAddress : jsstring
}.

Record StaffSignIn : Type := { staff_signin_email : jsstring }.

Record IssuerSignIn : Type := { issuer_signin_email : jsstring }.

Inductive CredentialStatus : Type := issued | cred_pending | revoked.

Inductive RequestStatus : Type := pending | approved | rejected.

Global Instance RequestStatus_eq_dec : EqDecision RequestStatus.
Proof. solve_decision. Defined.

Module IssuedCredential.
Record t : Type := {
  id : jsstring;
  title : jsstring;
  description : jsstring;
  studentWalletAddress : jsstring;
  issuerWalletAddress : jsstring;
  issuerName : jsstring;
  issuerInstitution : jsstring;
  issuedDate : jsstring;
  status : CredentialStatus
}.
End IssuedCredential.

(** [Omit<IssuedCredential, "id" | "issuedDate" | "status">] *)
Module NewCredential.
Record t : Type := {
  title : jsstring;
  description : jsstring;
  studentWalletAddress : jsstring;
  issuerWalletAddress : jsstring;
  issuerName : jsstring;
  issuerInstitution : jsstring
}.
End NewCredential.

Module CredentialRequest.
Record t : Type := {
  id : jsstring;
  studentName : jsstring;
  studentEmail : jsstring;
  studentWalletAddress : jsstring;
  issuerWalletAddress : jsstring;
  issuerName : jsstring;
  issuerInstitution : jsstring;
  credentialTitle : jsstring;
  description : jsstring;
  requestDate : jsstring;
  status : RequestStatus;
  rejectionNote : option jsstring
}.

(** [{ ...request, status: s, rejectionNote: n }] *)
Definition with_status (request : t) (s : RequestStatus)
    (n : option jsstring) : t :=
  {| id := id request;
     studentName := studentName request;
     studentEmail := studentEmail request;
     studentWalletAddress := studentWalletAddress request;
     issuerWalletAddress := issuerWalletAddress request;
     issuerName := issuerName request;
     issuerInstitution := issuerInstitution request;
     credentialTitle := credentialTitle request;
     description := description request;
     requestDate := requestDate request;
     status := s;
     rejectionNote := n |}.
End CredentialRequest.

(** [Omit<CredentialRequest, "id" | "requestDate" | "status">] *)
Module NewRequest.
Record t : Type := {
  studentName : jsstring;
  studentEmail : jsstring;
  studentWalletAddress : jsstring;
  issuerWalletAddress : jsstring;
  issuerName : jsstring;
  issuerInstitution : jsstring;
  credentialTitle : jsstring;
  description : jsstring;
  rejectionNote : option jsstring
}.
End NewRequest.

(** The second parameter of [approveCredentialRequest]. *)
Record ApprovalMetadata : Type := {
  credentialType : option jsstring;
  eventLink : option jsstring;
  issueDate : option jsstring;
  additionalMetadata : option jsstring
}.

(* ===================================================================== *)
(** ** The runtime: [localStorage], clock and random source *)
(* ===================================================================== *)

(** What [localStorage.getItem(key)] finds. *)
Inductive item (A : Type) : Type :=
| Missing
| Json (v : A)
| Unparsable.

Arguments Missing {A}.
Arguments Json {A} v.
Arguments Unparsable {A}.

(** [stored ? JSON.parse(stored) : fallback], inside [try ... catch] that
    returns [fallback]. *)
Definition parsed_or {A : Type} (fallback : A) (stored : item A) : A :=
  match stored with
  | Json v => v
  | Missing | Unparsable => fallback
  end.

Record localStorage : Type := {
  credvault_user_profile : item UserProfile.t;
  credvault_issued_credentials : item (list IssuedCredential.t);
  credvault_registered_users : item (list StoredUser.t);
  credvault_credential_requests : item (list CredentialRequest.t)
}.

Definition set_user_profile (v : item UserProfile.t) (ls : localStorage)
  : localStorage :=
  {| credvault_user_profile := v;
     credvault_issued_credentials := credvault_issued_credentials ls;
     credvault_registered_users := credvault_registered_users ls;
     credvault_credential_requests := credvault_credential_requests ls |}.

Definition set_issued_credentials (v : item (list IssuedCredential.t))
    (ls : localStorage) : localStorage :=
  {| credvault_user_profile := credvault_user_profile ls;
     credvault_issued_credentials := v;
     credvault_registered_users := credvault_registered_users ls;
     credvault_credential_requests := credvault_credential_requests ls |}.

Definition set_registered_users (v : item (list StoredUser.t))
    (ls : localStorage) : localStorage :=
  {| credvault_user_profile := credvault_user_profile ls;
     credvault_issued_credentials := credvault_issued_credentials ls;
     credvault_registered_users := v;
     credvault_credential_requests := credvault_credential_requests ls |}.

Definition set_credential_requests (v : item (list CredentialRequest.t))
    (ls : localStorage) : localStorage :=
  {| credvault_user_profile := credvault_user_profile ls;
     credvault_issued_credentials := credvault_issued_credentials ls;
     credvault_registered_users := credvault_registered_users ls;
     credvault_credential_requests := v |}.

(** A computation that reads and writes [localStorage] and may throw; the
    store at the time of a throw is kept. *)
Definition Js (A : Type) : Type := localStorage -> completion A * localStorage.

Global Instance Js_ret : MRet Js := fun A a ls => (Normal a, ls).

Global Instance Js_bind : MBind Js := fun A B f m ls =>
  match m ls with
  | (Normal a, ls') => f a ls'
  | (Throw e, ls') => (Throw e, ls')
  end.

Definition throw {A : Type} (e : JsError) : Js A := fun ls => (Throw e, ls).

Definition gets {A : Type} (f : localStorage -> A) : Js A :=
  fun ls => (Normal (f ls), ls).

Definition modify (f : localStorage -> localStorage) : Js unit :=
  fun ls => (Normal tt, f ls).

(** One reading of the clock and of the random source. *)
Record Oracle : Type := {
  (** [Date.now()] in decimal *)
  Date_now : jsstring;
  (** [Math.random().toString(36).substr(2, 9)] *)
  Math_random_tail : jsstring;
  (** [new Date().toISOString()] *)
  Date_toISOString : jsstring
}.

(** [String.prototype.toLowerCase], left to the platform. *)
Class StringPrototype : Type := { toLowerCase : jsstring -> jsstring }.

(* ===================================================================== *)
(** ** Identity store ([auth.ts]) *)
(* ===================================================================== *)

Definition saveUserProfile (profile : UserProfile.t) : Js unit :=
  modify (set_user_profile (Json profile)).

Definition getCurrentUser : Js (option UserProfile.t) :=
  gets (fun ls =>
          match credvault_user_profile ls with
          | Json v => Some v
          | Missing | Unparsable => None
          end).

Definition logout : Js unit := modify (set_user_profile Missing).

Definition getRegisteredUsers : Js (list StoredUser.t) :=
  gets (fun ls => parsed_or [] (credvault_registered_users ls)).

Definition saveToRegisteredUsers (user : StoredUser.t) : Js unit :=
  users ← getRegisteredUsers;
  let filteredUsers :=
    filter (fun u => StoredUser.email u <> StoredUser.email user) users
      ++ [user] in
  modify (set_registered_users (Json filteredUsers)).

Definition findUserByEmail `{StringPrototype} (email : jsstring)
  : Js (option StoredUser.t) :=
  users ← getRegisteredUsers;
  mret (find (fun user =>
                bool_decide (toLowerCase (StoredUser.email user)
                             = toLowerCase email)) users).

Definition findUserByEmailAndWallet `{StringPrototype}
    (email walletAddress : jsstring) : Js (option StoredUser.t) :=
  users ← getRegisteredUsers;
  mret (find (fun user =>
                bool_decide (toLowerCase (StoredUser.email user)
                             = toLowerCase email)
                && bool_decide (StoredUser.walletAddress user = walletAddress))
             users).

Definition profile_of (user : StoredUser.t) : UserProfile.t :=
  {| UserProfile.id := StoredUser.id user;
     UserProfile.name := StoredUser.name user;
     UserProfile.email := StoredUser.email user;
     UserProfile.walletAddress := StoredUser.walletAddress user;
     UserProfile.role := StoredUser.role user;
     UserProfile.organization := StoredUser.organization user;
     UserProfile.institution := StoredUser.institution user;
     UserProfile.createdAt := StoredUser.createdAt user |}.

(** The common tail of the three sign-in functions: [null] unless a user of
    the wanted role was found; otherwise open the session. *)
Definition openSession (wanted : Role) (user : option StoredUser.t)
  : Js (option UserProfile.t) :=
  match user with
  | Some user =>
      if bool_decide (StoredUser.role user <> wanted) then mret None
      else
        let profile := profile_of user in
        _ ← saveUserProfile profile;
        mret (Some profile)
  | None => mret None
  end.

Definition signInStudent `{StringPrototype} (data : StudentSignIn)
  : Js (option UserProfile.t) :=
  if negb (isValidEmail (signin_email data)) then throw InvalidEmail
  else if negb (isValidWallet (signin_walletAddress data)) then
    throw InvalidWalletAddress
  else
    user ← findUserByEmailAndWallet (signin_email data)
                                    (signin_walletAddress data);
    openSession student user.

Definition signInStaff `{StringPrototype} (data : StaffSignIn)
  : Js (option UserProfile.t) :=
  if negb (isValidEmail (staff_signin_email data)) then throw InvalidEmail
  else
    user ← findUserByEmail (staff_signin_email data);
    openSession staff user.

Definition signInIssuer `{StringPrototype} (data : IssuerSignIn)
  : Js (option UserProfile.t) :=
  if negb (isValidEmail (issuer_signin_email data)) then throw InvalidEmail
  else
    user ← findUserByEmail (issuer_signin_email data);
    openSession issuer user.

Definition generateUserId (o : Oracle) : jsstring :=
  str "user_" ++ Date_now o ++ str "_" ++ Math_random_tail o.

(** The common body of the three registrations, after the profile is
    built: store the user (the same fields) and return the profile. *)
Definition stored_of (profile : UserProfile.t) : StoredUser.t :=
  {| StoredUser.id := UserProfile.id profile;
     StoredUser.name := UserProfile.name profile;
     StoredUser.email := UserProfile.email profile;
     StoredUser.walletAddress := UserProfile.walletAddress profile;
     StoredUser.role := UserProfile.role profile;
     StoredUser.organization := UserProfile.organization profile;
     StoredUser.institution := UserProfile.institution profile;
     StoredUser.createdAt := UserProfile.createdAt profile |}.

Definition registerProfile `{StringPrototype} (profile : UserProfile.t)
  : Js UserProfile.t :=
  existingUser ← findUserByEmail (UserProfile.email profile);
  match existingUser with
  | Some _ => throw DuplicateUser
  | None =>
      _ ← saveToRegisteredUsers (stored_of profile);
      mret profile
  end.

Definition registerStudent `{StringPrototype} (o : Oracle)
    (data : StudentRegistration) : Js UserProfile.t :=
  registerProfile
    {| UserProfile.id := generateUserId o;
       UserProfile.name := student_name data;
       UserProfile.email := student_email data;
       UserProfile.walletAddress := student_walletAddress data;
       UserProfile.role := student;
       UserProfile.organization := None;
       UserProfile.institution := None;
       UserProfile.createdAt := Date_toISOString o |}.

Definition registerStaff `{StringPrototype} (o : Oracle)
    (data : StaffRegistration) : Js UserProfile.t :=
  registerProfile
    {| UserProfile.id := generateUserId o;
       UserProfile.name := staff_name data;
       UserProfile.email := staff_email data;
       UserProfile.walletAddress := staff_walletAddress data;
       UserProfile.role := staff;
       UserProfile.organization := Some (staff_organization data);
       UserProfile.institution := None;
       UserProfile.createdAt := Date_toISOString o |}.

Definition registerIssuer `{StringPrototype} (o : Oracle)
    (data : IssuerRegistration) : Js UserProfile.t :=
  registerProfile
    {| UserProfile.id := generateUserId o;
       UserProfile.name := issuer_name data;
       UserProfile.email := issuer_email data;
       UserProfile.walletAddress := issuer_walletAddress data;
       UserProfile.role := issuer;
       UserProfile.organization := None;
       UserProfile.institution := Some (issuer_institution data);
       UserProfile.createdAt := Date_toISOString o |}.

(* ===================================================================== *)
(** ** Credential ledger and request lifecycle ([auth.ts]) *)
(* ===================================================================== *)

Definition getIssuedCredentials : Js (list IssuedCredential.t) :=
  gets (fun ls => parsed_or [] (credvault_issued_credentials ls)).

Definition saveIssuedCredential (o : Oracle) (credential : NewCredential.t)
  : Js IssuedCredential.t :=
  let issuedCredential :=
    {| IssuedCredential.id :=
         str "cred_" ++ Date_now o ++ str "_" ++ Math_random_tail o;
       IssuedCredential.title := NewCredential.title credential;
       IssuedCredential.description := NewCredential.description credential;
       IssuedCredential.studentWalletAddress :=
         NewCredential.studentWalletAddress credential;
       IssuedCredential.issuerWalletAddress :=
         NewCredential.issuerWalletAddress credential;
       IssuedCredential.issuerName := NewCredential.issuerName credential;
       IssuedCredential.issuerInstitution :=
         NewCredential.issuerInstitution credential;
       IssuedCredential.issuedDate := Date_toISOString o;
       IssuedCredential.status := issued |} in
  existing ← getIssuedCredentials;
  _ ← modify (set_issued_credentials (Json (existing ++ [issuedCredential])));
  mret issuedCredential.

Definition getCredentialRequests : Js (list CredentialRequest.t) :=
  gets (fun ls => parsed_or [] (credvault_credential_requests ls)).

Definition submitCredentialRequest (o : Oracle) (request : NewRequest.t)
  : Js CredentialRequest.t :=
  let newRequest :=
    {| CredentialRequest.id :=
         str "req_" ++ Date_now o ++ str "_" ++ Math_random_tail o;
       CredentialRequest.studentName := NewRequest.studentName request;
       CredentialRequest.studentEmail := NewRequest.studentEmail request;
       CredentialRequest.studentWalletAddress :=
         NewRequest.studentWalletAddress request;
       CredentialRequest.issuerWalletAddress :=
         NewRequest.issuerWalletAddress request;
       CredentialRequest.issuerName := NewRequest.issuerName request;
       CredentialRequest.issuerInstitution :=
         NewRequest.issuerInstitution request;
       CredentialRequest.credentialTitle :=
         NewRequest.credentialTitle request;
       CredentialRequest.description := NewRequest.description request;
       CredentialRequest.requestDate := Date_toISOString o;
       CredentialRequest.status := pending;
       CredentialRequest.rejectionNote := NewRequest.rejectionNote request |} in
  existing ← getCredentialRequests;
  _ ← modify (set_credential_requests (Json (existing ++ [newRequest])));
  mret newRequest.

(** [requests.findIndex((req) => req.id === requestId)] together with
    [requests[requestIndex]]; [None] is the index [-1]. *)
Definition findRequest (requestId : jsstring)
    (requests : list CredentialRequest.t)
  : option (nat * CredentialRequest.t) :=
  list_find (fun req => CredentialRequest.id req = requestId) requests.

Definition approveCredentialRequest (o : Oracle) (requestId : jsstring)
    (metadata : ApprovalMetadata)
  : Js (CredentialRequest.t * IssuedCredential.t) :=
  requests ← getCredentialRequests;
  match findRequest requestId requests with
  | None => throw RequestNotFound
  | Some (requestIndex, request) =>
      if bool_decide (CredentialRequest.status request <> pending) then
        throw RequestNotPending
      else
        let updated :=
          CredentialRequest.with_status request approved
            (CredentialRequest.rejectionNote request) in
        let requests := <[requestIndex := updated]> requests in
        _ ← modify (set_credential_requests (Json requests));
        credential ←
          saveIssuedCredential o
            {| NewCredential.title := CredentialRequest.credentialTitle request;
               NewCredential.description :=
                 CredentialRequest.description request;
               NewCredential.studentWalletAddress :=
                 CredentialRequest.studentWalletAddress request;
               NewCredential.issuerWalletAddress :=
                 CredentialRequest.issuerWalletAddress request;
               NewCredential.issuerName := CredentialRequest.issuerName request;
               NewCredential.issuerInstitution :=
                 CredentialRequest.issuerInstitution request |};
        mret (default updated (requests !! requestIndex), credential)
  end.

Definition rejectCredentialRequest (requestId : jsstring)
    (rejectionNote : option jsstring) : Js CredentialRequest.t :=
  requests ← getCredentialRequests;
  match findRequest requestId requests with
  | None => throw RequestNotFound
  | Some (requestIndex, request) =>
      if bool_decide (CredentialRequest.status request <> pending) then
        throw RequestNotPending
      else
        let updated :=
          CredentialRequest.with_status request rejected
            (Some (or_else rejectionNote (str "Request was rejected"))) in
        let requests := <[requestIndex := updated]> requests in
        _ ← modify (set_credential_requests (Json requests));
        mret (default updated (requests !! requestIndex))
  end.

(** A platform whose [toLowerCase] acts on ASCII letters only; enough to
    run the model on ASCII data. *)
Definition ascii_toLowerCase (s : jsstring) : jsstring :=
  map (fun u => if (chr "A" <=? u) && (u <=? chr "Z") then u + 32 else u) s.

Definition ascii_platform : StringPrototype :=
  {| toLowerCase := ascii_toLowerCase |}.

(* ===================================================================== *)
(** ** Vocabulary of the properties *)
(* ===================================================================== *)

(** The lists the getters read back. *)
Definition requests_of (ls : localStorage) : list CredentialRequest.t :=
  parsed_or [] (credvault_credential_requests ls).

Definition credentials_of (ls : localStorage) : list IssuedCredential.t :=
  parsed_or [] (credvault_issued_credentials ls).

Definition users_of (ls : localStorage) : list StoredUser.t :=
  parsed_or [] (credvault_registered_users ls).

(** The credential [approveCredentialRequest] issues for a request. *)
Definition credential_for (o : Oracle) (request : CredentialRequest.t)
  : IssuedCredential.t :=
  {| IssuedCredential.id :=
       str "cred_" ++ Date_now o ++ str "_" ++ Math_random_tail o;
     IssuedCredential.title := CredentialRequest.credentialTitle request;
     IssuedCredential.description := CredentialRequest.description request;
     IssuedCredential.studentWalletAddress :=
       CredentialRequest.studentWalletAddress request;
     IssuedCredential.issuerWalletAddress :=
       CredentialRequest.issuerWalletAddress request;
     IssuedCredential.issuerName := CredentialRequest.issuerName request;
     IssuedCredential.issuerInstitution :=
       CredentialRequest.issuerInstitution request;
     IssuedCredential.issuedDate := Date_toISOString o;
     IssuedCredential.status := issued |}.

(** The store after the two writes of a successful approval of the request
    at index [i]. *)
Definition approved_store (o : Oracle) (i : nat)
    (request : CredentialRequest.t) (ls : localStorage) : localStorage :=
  let updated :=
    CredentialRequest.with_status request approved
      (CredentialRequest.rejectionNote request) in
  set_issued_credentials
    (Json (credentials_of ls ++ [credential_for o request]))
    (set_credential_requests (Json (<[i := updated]> (requests_of ls))) ls).

(** At most one registered user per lower-cased email. *)
Definition unique_emails `{StringPrototype} (ls : localStorage) : Prop :=
  NoDup (map (fun u => toLowerCase (StoredUser.email u)) (users_of ls)).

(** The test of [findUserByEmail]. *)
Definition same_email `{StringPrototype} (email : jsstring)
    (user : StoredUser.t) : bool :=
  bool_decide (toLowerCase (StoredUser.email user) = toLowerCase email).

(** [run] is a registration that does not log in: the session slot and
    what [getCurrentUser] reads are as before; either [expected] is
    returned and appended to the registry, or the email was taken and
    nothing is written. *)
Definition registers_without_login `{StringPrototype}
    (run : Js UserProfile.t) (expected : UserProfile.t) (ls : localStorage)
  : Prop :=
  let '(result, ls') := run ls in
  credvault_user_profile ls' = credvault_user_profile ls
  /\ (getCurrentUser ls').1 = (getCurrentUser ls).1
  /\ match result with
     | Normal profile =>
         profile = expected
         /\ users_of ls' = users_of ls ++ [stored_of expected]
     | Throw e =>
         e = DuplicateUser /\ ls' = ls
         /\ exists u, u ∈ users_of ls
                      /\ toLowerCase (StoredUser.email u)
                         = toLowerCase (UserProfile.email expected)
     end.

(** The profiles the three registrations build. *)
Definition student_profile (o : Oracle) (data : StudentRegistration)
  : UserProfile.t :=
  {| UserProfile.id := generateUserId o;
     UserProfile.name := student_name data;
     UserProfile.email := student_email data;
     UserProfile.walletAddress := student_walletAddress data;
     UserProfile.role := student;
     UserProfile.organization := None;
     UserProfile.institution := None;
     UserProfile.createdAt := Date_toISOString o |}.

Definition staff_profile (o : Oracle) (data : StaffRegistration)
  : UserProfile.t :=
  {| UserProfile.id := generateUserId o;
     UserProfile.name := staff_name data;
     UserProfile.email := staff_email data;
     UserProfile.walletAddress := staff_walletAddress data;
     UserProfile.role := staff;
     UserProfile.organization := Some (staff_organization data);
     UserProfile.institution := None;
     UserProfile.createdAt := Date_toISOString o |}.

Definition issuer_profile (o : Oracle) (data : IssuerRegistration)
  : UserProfile.t :=
  {| UserProfile.id := generateUserId o;
     UserProfile.name := issuer_name data;
     UserProfile.email := issuer_email data;
     UserProfile.walletAddress := issuer_walletAddress data;
     UserProfile.role := issuer;
     UserProfile.organization := None;
     UserProfile.institution := Some (issuer_institution data);
     UserProfile.createdAt := Date_toISOString o |}.

(** A Unicode scalar value: a code point that is not a surrogate. *)
Definition isScalarValue (cp : Z) : bool :=
  ((0 <=? cp) && (cp <? 0xD800)) || ((0xE000 <=? cp) && (cp <=? 0x10FFFF)).

(** Every element is a 16-bit code unit. *)
Definition isCodeUnits (s : jsstring) : bool :=
  forallb (fun u => (0 <=? u) && (u <=? 0xFFFF)) s.

(** Every element is a byte. *)
Definition isBytes (bs : list Z) : bool :=
  forallb (fun b => (0 <=? b) && (b <=? 0xFF)) bs.

(** Every element is an ASCII code point. *)
Definition isAscii (s : list Z) : bool :=
  forallb (fun u => (0 <=? u) && (u <=? 0x7F)) s.

(** Every element is a scalar value. *)
Definition isScalarValues (l : list Z) : bool := forallb isScalarValue l.

(** What the serializer prints for a name or a value: kept bytes, [+] and
    the three characters of a percent-encoded byte. *)
Definition urlencoded_safe (b : Z) : bool :=
  urlencoded_keeps b || (b =? chr "+") || (b =? chr "%").

(** Both sides of every pair are scalar value strings. *)
Definition isScalarPairs (l : list (list Z * list Z)) : bool :=
  forallb (fun p => isScalarValues p.1 && isScalarValues p.2) l.

(** No [?] and no [#]: true of every origin. *)
Definition hasNoQueryNorFragment (s : jsstring) : bool :=
  forallb (fun u => negb ((u =? chr "?") || (u =? chr "#"))) s.

(** The pairs [generateVerificationUrl] gives to [URLSearchParams]. *)
Definition verification_params (walletAddress credentialId : jsstring)
  : URLSearchParams :=
  URLSearchParams_of_record
    [(str "address", trim walletAddress);
     (str "credentialId", trim credentialId)].

(* ===================================================================== *)
(** ** Sample data *)
(* ===================================================================== *)

Definition sample_window : Window :=
  {| location_origin := str "https://credvault.app"; location_search := [] |}.

(** The window once the browser is at [href]. *)
Definition window_at (href : jsstring) : Window :=
  {| location_origin := str "https://credvault.app";
     location_search := search_of_href href |}.

Definition empty_store : localStorage :=
  {| credvault_user_profile := Missing;
     credvault_issued_credentials := Missing;
     credvault_registered_users := Missing;
     credvault_credential_requests := Missing |}.

Definition sample_oracle : Oracle :=
  {| Date_now := str "1700000000000";
     Math_random_tail := str "k3j9x0q2a";
     Date_toISOString := str "2023-11-14T22:13:20.000Z" |}.

Definition later_oracle : Oracle :=
  {| Date_now := str "1700000060000";
     Math_random_tail := str "p7m1c4z8t";
     Date_toISOString := str "2023-11-14T22:14:20.000Z" |}.

(** The student of the seed data, with capitals in the email. *)
Definition sample_student : StoredUser.t :=
  {| StoredUser.id := str "test_student_001";
     StoredUser.name := str "Alex Student";
     StoredUser.email := str "Student@Test.com";
     StoredUser.walletAddress :=
       str "0x1234567890abcdef1234567890abcdef12345678";
     StoredUser.role := student;
     StoredUser.organization := None;
     StoredUser.institution := None;
     StoredUser.createdAt := str "2023-11-14T22:13:20.000Z" |}.

(** The staff member of the seed data. *)
Definition sample_staff : StoredUser.t :=
  {| StoredUser.id := str "test_staff_001";
     StoredUser.name := str "Sarah Verifier";
     StoredUser.email := str "staff@university.edu";
     StoredUser.walletAddress :=
       str "0xabcdef1234567890abcdef1234567890abcdef12";
     StoredUser.role := staff;
     StoredUser.organization := Some (str "Tech University");
     StoredUser.institution := None;
     StoredUser.createdAt := str "2023-11-14T22:13:20.000Z" |}.

Definition seeded_store : localStorage :=
  set_registered_users (Json [sample_student; sample_staff]) empty_store.

(** A student registered under an email that is no email address;
    [registerStudent] does not look at the form of the email. *)
Definition careless_registration : StudentRegistration :=
  {| student_name := str "Alex Student";
     student_email := str "alex";
     student_walletAddress := str "0xAB12" |}.

Definition careless_store : localStorage :=
  (registerStudent (H := ascii_platform) sample_oracle careless_registration
     empty_store).2.

Definition sample_student_registration : StudentRegistration :=
  {| student_name := str "Alex Again";
     student_email := str "student@test.com";
     student_walletAddress := str "0xAB12" |}.

Definition sample_staff_registration : StaffRegistration :=
  {| staff_name := str "Sam Staff";
     staff_email := str "STAFF@university.edu";
     staff_walletAddress := str "0xAB13";
     staff_organization := str "Tech University" |}.

Definition sample_issuer_registration : IssuerRegistration :=
  {| issuer_name := str "Dr. Michael Issuer";
     issuer_email := str "issuer@techacademy.edu";
     issuer_walletAddress := str "0x9876543210fedcba9876543210fedcba98765432";
     issuer_institution := str "TechAcademy Institute" |}.

Definition sample_request : NewRequest.t :=
  {| NewRequest.studentName := str "Alex Student";
     NewRequest.studentEmail := str "student@test.com";
     NewRequest.studentWalletAddress :=
       str "0x1234567890abcdef1234567890abcdef12345678";
     NewRequest.issuerWalletAddress :=
       str "0x9876543210fedcba9876543210fedcba98765432";
     NewRequest.issuerName := str "Dr. Michael Issuer";
     NewRequest.issuerInstitution := str "TechAcademy Institute";
     NewRequest.credentialTitle := str "Rocq Certificate";
     NewRequest.description := str "Completed the course";
     NewRequest.rejectionNote := None |}.

Definition no_metadata : ApprovalMetadata :=
  {| credentialType := None; eventLink := None; issueDate := None;
     additionalMetadata := None |}.

(** A store whose only request was rejected before. *)
Definition rejected_request : CredentialRequest.t :=
  {| CredentialRequest.id := str "req_1";
     CredentialRequest.studentName := str "Alex Student";
     CredentialRequest.studentEmail := str "student@test.com";
     CredentialRequest.studentWalletAddress := str "0xAB12";
     CredentialRequest.issuerWalletAddress := str "0xAB13";
     CredentialRequest.issuerName := str "Dr. Michael Issuer";
     CredentialRequest.issuerInstitution := str "TechAcademy Institute";
     CredentialRequest.credentialTitle := str "Rocq Certificate";
     CredentialRequest.description := str "Completed the course";
     CredentialRequest.requestDate := str "2023-11-14T22:13:20.000Z";
     CredentialRequest.status := rejected;
     CredentialRequest.rejectionNote := Some (str "Request was rejected") |}.

Definition store_with_rejected : localStorage :=
  set_credential_requests (Json [rejected_request]) empty_store.

(* ===================================================================== *)
(** ** The other URL utilities *)
(* ===================================================================== *)

(** The error of [generateProfileUrl] for an empty address. *)
Definition MissingAddress : JsError :=
  {| message := "Wallet address is required" |}.

(** [generateProfileUrl(walletAddress, baseUrl?)] *)
Definition generateProfileUrl (window : Window) (walletAddress : jsstring)
    (baseUrl : option jsstring) : completion jsstring :=
  match walletAddress with
  | [] => Throw MissingAddress
  | _ =>
      let cleanAddress := trim walletAddress in
      if negb (isValidWalletAddress cleanAddress) then
        Throw InvalidWalletAddress
      else
        let origin := or_else baseUrl (location_origin window) in
        let params :=
          URLSearchParams_of_record [(str "address", cleanAddress)] in
        Normal (origin ++ str "/verify?" ++ URLSearchParams_toString params)
  end.

(** The first parameter of [generateQRVerificationData]. *)
Module QRCredential.
Record t : Type := {
  id : jsstring;
  title : jsstring;
  issuer : jsstring;
  type : jsstring;
  date : jsstring
}.
End QRCredential.

Module VerificationData.
Record t : Type := {
  credentialId : jsstring;
  walletAddress : jsstring;
  issuer : jsstring;
  title : jsstring;
  type : jsstring;
  issuedDate : jsstring;
  (** [Date.now()], in decimal *)
  timestamp : jsstring
}.
End VerificationData.

Record VerificationUrlData : Type := {
  qr_url : jsstring;
  qr_data : VerificationData.t
}.

(** [generateQRVerificationData(credential, walletAddress, baseUrl?)]; an
    error of [generateVerificationUrl] goes through. *)
Definition generateQRVerificationData (window : Window) (o : Oracle)
    (credential : QRCredential.t) (walletAddress : jsstring)
    (baseUrl : option jsstring) : completion VerificationUrlData :=
  match generateVerificationUrl window walletAddress
          (QRCredential.id credential) baseUrl with
  | Throw e => Throw e
  | Normal url =>
      Normal
        {| qr_url := url;
           qr_data :=
             {| VerificationData.credentialId := QRCredential.id credential;
                VerificationData.walletAddress := walletAddress;
                VerificationData.issuer := QRCredential.issuer credential;
                VerificationData.title := QRCredential.title credential;
                VerificationData.type := QRCredential.type credential;
                VerificationData.issuedDate := QRCredential.date credential;
                VerificationData.timestamp := Date_now o |} |}
  end.

(** The first parameter of [createShareableUrl]. *)
Module ShareCredential.
Record t : Type := {
  id : jsstring;
  title : jsstring;
  issuer : jsstring;
  type : jsstring
}.
End ShareCredential.

Record Shareable : Type := {
  share_url : jsstring;
  share_title : jsstring;
  share_text : jsstring
}.

(** The double quote, U+0022. *)
Definition quote : Z := 0x22.

(** [createShareableUrl(credential, walletAddress)] *)
Definition createShareableUrl `{StringPrototype} (window : Window)
    (credential : ShareCredential.t) (walletAddress : jsstring)
  : completion Shareable :=
  match generateVerificationUrl window walletAddress
          (ShareCredential.id credential) None with
  | Throw e => Throw e
  | Normal url =>
      Normal
        {| share_url := url;
           share_title := ShareCredential.title credential ++ str " - CredVault";
           share_text :=
             str "Verify this "
               ++ toLowerCase (ShareCredential.type credential)
               ++ str ": " ++ [quote] ++ ShareCredential.title credential
               ++ [quote] ++ str " issued by "
               ++ ShareCredential.issuer credential |}
  end.

(** [handleUrlError(error)]; [None] is a value that is no [Error]. *)
Definition handleUrlError (error : option JsError) : jsstring :=
  match error with
  | Some e =>
      if includes (str (message e)) (str "Invalid wallet address") then
        str "Invalid wallet address format. Please check the address and try again."
      else if includes (str (message e)) (str "required") then
        str "Missing required information for verification URL."
      else str (message e)
  | None => str "Unable to generate verification URL. Please try again."
  end.

(* ===================================================================== *)
(** ** The other functions of [auth.ts] *)
(* ===================================================================== *)

Definition isAuthenticated : Js bool :=
  user ← getCurrentUser;
  mret (bool_decide (user <> None)).

Definition getCredentialsByIssuer (issuerWalletAddress : jsstring)
  : Js (list IssuedCredential.t) :=
  credentials ← getIssuedCredentials;
  mret (filter (fun cred =>
                  IssuedCredential.issuerWalletAddress cred
                  = issuerWalletAddress) credentials).

Definition getCredentialsForStudent (studentWalletAddress : jsstring)
  : Js (list IssuedCredential.t) :=
  credentials ← getIssuedCredentials;
  mret (filter (fun cred =>
                  IssuedCredential.studentWalletAddress cred
                  = studentWalletAddress) credentials).

Definition getPendingRequestsForIssuer (issuerWalletAddress : jsstring)
  : Js (list CredentialRequest.t) :=
  requests ← getCredentialRequests;
  mret (filter (fun req =>
                  CredentialRequest.issuerWalletAddress req
                  = issuerWalletAddress
                  /\ CredentialRequest.status req = pending) requests).

(* ===================================================================== *)
(** ** Seed data ([seed-data.ts]) *)
(* ===================================================================== *)

(** The three test users; each [createdAt] is its own reading of the
    clock. *)
Definition testUsers (o1 o2 o3 : Oracle) : list StoredUser.t :=
  [ {| StoredUser.id := str "test_student_001";
       StoredUser.name := str "Alex Student";
       StoredUser.email := str "student@test.com";
       StoredUser.walletAddress :=
         str "0x1234567890abcdef1234567890abcdef12345678";
       StoredUser.role := student;
       StoredUser.organization := None;
       StoredUser.institution := None;
       StoredUser.createdAt := Date_toISOString o1 |};
    {| StoredUser.id := str "test_staff_001";
       StoredUser.name := str "Sarah Verifier";
       StoredUser.email := str "staff@university.edu";
       StoredUser.walletAddress :=
         str "0xabcdef1234567890abcdef1234567890abcdef12";
       StoredUser.role := staff;
       StoredUser.organization := Some (str "Tech University");
       StoredUser.institution := None;
       StoredUser.createdAt := Date_toISOString o2 |};
    {| StoredUser.id := str "test_issuer_001";
       StoredUser.name := str "Dr. Michael Issuer";
       StoredUser.email := str "issuer@techacademy.edu";
       StoredUser.walletAddress :=
         str "0x9876543210fedcba9876543210fedcba98765432";
       StoredUser.role := issuer;
       StoredUser.organization := None;
       StoredUser.institution := Some (str "TechAcademy Institute");
       StoredUser.createdAt := Date_toISOString o3 |} ].

(** The sign-in data of [TEST_CREDENTIALS]. *)
Definition TEST_CREDENTIALS_student : StudentSignIn :=
  {| signin_email := str "student@test.com";
     signin_walletAddress :=
       str "0x1234567890abcdef1234567890abcdef12345678" |}.

Definition TEST_CREDENTIALS_staff : StaffSignIn :=
  {| staff_signin_email := str "staff@university.edu" |}.

Definition TEST_CREDENTIALS_issuer : IssuerSignIn :=
  {| issuer_signin_email := str "issuer@techacademy.edu" |}.

(** [users.some((u) => u.email === email)] *)
Definition hasEmail (email : jsstring) (users : list StoredUser.t) : bool :=
  existsb (fun u => bool_decide (StoredUser.email u = email)) users.

(** One turn of the [forEach] of [seedTestUsers]: push the test user unless
    a user of exactly that email is there. *)
Definition seedOne (existing : list StoredUser.t) (testUser : StoredUser.t)
  : list StoredUser.t :=
  match find (fun u => bool_decide (StoredUser.email u
                                    = StoredUser.email testUser)) existing with
  | Some _ => existing
  | None => existing ++ [testUser]
  end.

(** [seedTestUsers()] *)
Definition seedTestUsers (o1 o2 o3 : Oracle) : Js unit :=
  existing ← getRegisteredUsers;
  modify (set_registered_users
            (Json (fold_left seedOne (testUsers o1 o2 o3) existing))).

(** [clearTestData()]: three of the four keys are removed. *)
Definition clearTestData : Js unit :=
  _ ← modify (set_registered_users Missing);
  _ ← modify (set_user_profile Missing);
  modify (set_issued_credentials Missing).

(** [testUsersExist()] *)
Definition testUsersExist : Js bool :=
  users ← getRegisteredUsers;
  mret (hasEmail (str "student@test.com") users
        && hasEmail (str "staff@university.edu") users
        && hasEmail (str "issuer@techacademy.edu") users).

(* ===================================================================== *)
(** ** Vocabulary of the further properties *)
(* ===================================================================== *)

(** The pair [generateProfileUrl] gives to [URLSearchParams]. *)
Definition profile_params (walletAddress : jsstring) : URLSearchParams :=
  URLSearchParams_of_record [(str "address", trim walletAddress)].

(** The characters of a generated query: ASCII letters and digits and
    [* - . _ + % = &]. *)
Definition query_char (u : Z) : bool :=
  asciiAlphanumeric u
  || (u =? chr "*") || (u =? chr "-") || (u =? chr ".") || (u =? chr "_")
  || (u =? chr "+") || (u =? chr "%") || (u =? chr "=") || (u =? chr "&").

(** The test of [getPendingRequestsForIssuer]. *)
Definition pending_for (issuerWalletAddress : jsstring)
    (req : CredentialRequest.t) : Prop :=
  CredentialRequest.issuerWalletAddress req = issuerWalletAddress
  /\ CredentialRequest.status req = pending.

(** A call of one of the four functions that write the credential ledger,
    with its arguments and the readings of the clock it makes. *)
Inductive LedgerCall : Type :=
| Submit (o : Oracle) (request : NewRequest.t)
| Approve (o : Oracle) (requestId : jsstring) (metadata : ApprovalMetadata)
| Reject (requestId : jsstring) (rejectionNote : option jsstring)
| SaveCredential (o : Oracle) (credential : NewCredential.t).

(** The store after a call, whether it returned or threw. *)
Definition call (c : LedgerCall) (ls : localStorage) : localStorage :=
  match c with
  | Submit o request => (submitCredentialRequest o request ls).2
  | Approve o requestId metadata =>
      (approveCredentialRequest o requestId metadata ls).2
  | Reject requestId rejectionNote =>
      (rejectCredentialRequest requestId rejectionNote ls).2
  | SaveCredential o credential => (saveIssuedCredential o credential ls).2
  end.

(** The store after a sequence of calls. *)
Definition calls (cs : list LedgerCall) (ls : localStorage) : localStorage :=
  fold_left (fun ls c => call c ls) cs ls.

(** How a stored request may differ later: not at all, or, if it was
    pending, in its status and rejection note, the status no longer
    pending. *)
Definition evolves (r r' : CredentialRequest.t) : Prop :=
  r' = r
  \/ (CredentialRequest.status r = pending
      /\ CredentialRequest.status r' <> pending
      /\ r' = CredentialRequest.with_status r (CredentialRequest.status r')
                (CredentialRequest.rejectionNote r')).

(** The number of approved requests. *)
Definition approved_count (ls : localStorage) : nat :=
  length (filter (fun r => CredentialRequest.status r = approved)
                 (requests_of ls)).

(** [run] is a sound sign-in for the role [wanted]: it writes nothing but
    the session; a profile it returns is that of a registered user of that
    role whose email equals [email] up to letter case (and whose wallet
    address is [walletAddress], when one is asked for), and is the session
    from then on; when it returns [null] or throws, an error of the input
    format, the store is as before. *)
Definition signs_in `{StringPrototype} (run : Js (option UserProfile.t))
    (wanted : Role) (email : jsstring) (walletAddress : option jsstring)
    (ls : localStorage) : Prop :=
  let '(result, ls') := run ls in
  credvault_registered_users ls' = credvault_registered_users ls
  /\ credvault_issued_credentials ls' = credvault_issued_credentials ls
  /\ credvault_credential_requests ls' = credvault_credential_requests ls
  /\ match result with
     | Normal (Some profile) =>
         (exists u, u ∈ users_of ls
                    /\ profile = profile_of u
                    /\ StoredUser.role u = wanted
                    /\ toLowerCase (StoredUser.email u) = toLowerCase email
                    /\ (forall w, walletAddress = Some w ->
                                  StoredUser.walletAddress u = w))
         /\ isValidEmail email = true
         /\ (getCurrentUser ls').1 = Normal (Some profile)
     | Normal None => ls' = ls
     | Throw e => ls' = ls /\ (e = InvalidEmail \/ e = InvalidWalletAddress)
     end.

(* ===================================================================== *)
(** ** More sample data *)
(* ===================================================================== *)

Definition sample_qr_credential : QRCredential.t :=
  {| QRCredential.id := str " cred 1";
     QRCredential.title := str "Rocq Certificate";
     QRCredential.issuer := str "TechAcademy Institute";
     QRCredential.type := str "Certificate";
     QRCredential.date := str "2023-11-14" |}.

Definition sample_share_credential : ShareCredential.t :=
  {| ShareCredential.id := str "cred_1";
     ShareCredential.title := str "Rocq Certificate";
     ShareCredential.issuer := str "TechAcademy Institute";
     ShareCredential.type := str "Certificate" |}.

(** The store after one request was submitted. *)
Definition pending_store : localStorage :=
  (submitCredentialRequest sample_oracle sample_request empty_store).2.

Definition pending_request : CredentialRequest.t :=
  {| CredentialRequest.id := str "req_1700000000000_k3j9x0q2a";
     CredentialRequest.studentName := str "Alex Student";
     CredentialRequest.studentEmail := str "student@test.com";
     CredentialRequest.studentWalletAddress :=
       str "0x1234567890abcdef1234567890abcdef12345678";
     CredentialRequest.issuerWalletAddress :=
       str "0x9876543210fedcba9876543210fedcba98765432";
     CredentialRequest.issuerName := str "Dr. Michael Issuer";
     CredentialRequest.issuerInstitution := str "TechAcademy Institute";
     CredentialRequest.credentialTitle := str "Rocq Certificate";
     CredentialRequest.description := str "Completed the course";
     CredentialRequest.requestDate := str "2023-11-14T22:13:20.000Z";
     CredentialRequest.status := pending;
     CredentialRequest.rejectionNote := None |}.

(** Calls that try to reopen the rejected request of
    [store_with_rejected], and a new submission. *)
Definition sample_calls : list LedgerCall :=
  [Approve sample_oracle (str "req_1") no_metadata;
   Reject (str "req_1") (Some (str "again"));
   Submit later_oracle sample_request;
   Approve later_oracle (str "req_1700000060000_p7m1c4z8t") no_metadata].

(** Two submissions that read the same clock and random source get the
    same id; then calls on that id. *)
Definition shadowed_store : localStorage :=
  (submitCredentialRequest sample_oracle sample_request pending_store).2.

Definition shadow_calls : list LedgerCall :=
  [Approve later_oracle (str "req_1700000000000_k3j9x0q2a") no_metadata;
   Approve later_oracle (str "req_1700000000000_k3j9x0q2a") no_metadata;
   Reject (str "req_1700000000000_k3j9x0q2a") None].

(* ===================================================================== *)
(** ** Proof automation *)
(* ===================================================================== *)

(** Unfold the monad down to functions on the store. *)
Ltac js_unfold :=
  unfold mbind, mret, Js_bind, Js_ret, throw, gets, modify in *.

(** Decide the integer comparisons of the goal, with quotients and
    remainders by constants. *)
Ltac zdec := Z.div_mod_to_equations; lia.

Ltac zbool :=
  repeat match goal with
    | |- context [?a <=? ?b] =>
        first [rewrite (proj2 (Z.leb_le a b)) by zdec
              | rewrite (proj2 (Z.leb_gt a b)) by zdec]
    | |- context [?a <? ?b] =>
        first [rewrite (proj2 (Z.ltb_lt a b)) by zdec
              | rewrite (proj2 (Z.ltb_ge a b)) by zdec]
    | |- context [?a =? ?b] =>
        first [rewrite (proj2 (Z.eqb_eq a b)) by zdec
              | rewrite (proj2 (Z.eqb_neq a b)) by zdec]
    end.

(** Split on the integer equality tests of the goal. *)
Ltac zcases :=
  repeat match goal with
    | |- context [?a =? ?b] => destruct (Z.eqb_spec a b)
    end.

(** Replace the code units of ASCII literals by their numbers. *)
Ltac chr_norm :=
  repeat match goal with
    | |- context [chr ?c] =>
        let v := eval vm_compute in (chr c) in change (chr c) with v
    | H : context [chr ?c] |- _ =>
        let v := eval vm_compute in (chr c) in change (chr c) with v in H
    end.

(* ===================================================================== *)
(** * Properties *)
(* ===================================================================== *)

(** ** Strings and validators *)

Lemma trimStart_idem s : trimStart (trimStart s) = trimStart s.
Proof.
  induction s as [|u t IH]; [reflexivity|]. cbn.
  destruct (isWhiteSpace u) eqn:Hu; [exact IH|]. cbn. now rewrite Hu.
Qed.

Lemma trimEnd_keep u t :
  isWhiteSpace u = false -> trimEnd (u :: t) = u :: trimEnd t.
Proof. intros Hu. cbn. rewrite Hu. now destruct (trimEnd t). Qed.

Lemma trimEnd_idem s : trimEnd (trimEnd s) = trimEnd s.
Proof.
  induction s as [|u t IH]; [reflexivity|]. cbn.
  destruct (trimEnd t) as [|v t'] eqn:Ht.
  - destruct (isWhiteSpace u) eqn:Hu; [reflexivity|]. cbn. now rewrite Hu.
  - cbn. cbn in IH. now rewrite IH.
Qed.

Lemma trimStart_head s :
  trimStart s = [] \/
  exists u t, trimStart s = u :: t /\ isWhiteSpace u = false.
Proof.
  induction s as [|u t IH]; [now left|]. cbn.
  destruct (isWhiteSpace u) eqn:Hu; [exact IH|]. right. now exists u, t.
Qed.

Lemma trim_idem s : trim (trim s) = trim s.
Proof.
  unfold trim. destruct (trimStart_head s) as [-> | (u & t & -> & Hu)].
  - reflexivity.
  - rewrite (trimEnd_keep _ _ Hu). cbn [trimStart]. rewrite Hu.
    rewrite <- (trimEnd_keep _ _ Hu). apply trimEnd_idem.
Qed.

Lemma trim_nil : trim [] = [].
Proof. reflexivity. Qed.

Lemma isValidWalletAddress_nonempty a :
  isValidWalletAddress a = true -> a <> [] /\ trim a <> [].
Proof.
  unfold isValidWalletAddress. destruct a as [|u t]; [discriminate|].
  intros Hv. split; [discriminate|]. intros Hnil. rewrite Hnil in Hv.
  discriminate.
Qed.

Lemma isValidCredentialId_nonempty c :
  isValidCredentialId c = true -> c <> [] /\ trim c <> [].
Proof.
  unfold isValidCredentialId. destruct c as [|u t]; [discriminate|].
  intros Hv. split; [discriminate|]. intros Hnil. rewrite Hnil in Hv.
  discriminate.
Qed.

(** The validator sees its argument only through [trim]. *)
Lemma isValidWalletAddress_trim a :
  isValidWalletAddress (trim a) = isValidWalletAddress a.
Proof.
  destruct a as [|u t]; [reflexivity|].
  unfold isValidWalletAddress. rewrite trim_idem.
  now destruct (trim (u :: t)).
Qed.

(** *** The matcher decides [matches] *)

Lemma matches_never_inv s : matches Never s <-> False.
Proof. split; [inversion 1 | tauto]. Qed.

Lemma matches_epsilon_inv s : matches Epsilon s <-> s = [].
Proof. split; [now inversion 1 | intros ->; constructor]. Qed.

Lemma matches_class_inv f s :
  matches (Class f) s <-> exists u, s = [u] /\ f u = true.
Proof.
  split.
  - inversion 1; subst. now eexists.
  - intros (u & -> & Hf). now constructor.
Qed.

Lemma matches_cat_inv r1 r2 s :
  matches (Cat r1 r2) s <->
  exists s1 s2, s = s1 ++ s2 /\ matches r1 s1 /\ matches r2 s2.
Proof.
  split.
  - inversion 1; subst. eauto.
  - intros (s1 & s2 & -> & H1 & H2). now constructor.
Qed.

Lemma matches_or_inv r1 r2 s :
  matches (Or r1 r2) s <-> matches r1 s \/ matches r2 s.
Proof.
  split.
  - inversion 1; subst; [now left | now right].
  - intros [H1 | H2]; [now apply matches_or_l | now apply matches_or_r].
Qed.

Lemma nullable_matches r : nullable r = true <-> matches r [].
Proof.
  induction r as [| | f | r1 IH1 r2 IH2 | r1 IH1 r2 IH2 | r IH]; cbn.
  - rewrite matches_never_inv. split; [discriminate | tauto].
  - rewrite matches_epsilon_inv. tauto.
  - rewrite matches_class_inv. split; [discriminate|].
    intros (u & Hu & _). discriminate.
  - rewrite andb_true_iff, IH1, IH2, matches_cat_inv. split.
    + intros [H1 H2]. now exists [], [].
    + intros (s1 & s2 & E & H1 & H2). symmetry in E.
      apply app_eq_nil in E as [-> ->]. now split.
  - rewrite orb_true_iff, IH1, IH2, matches_or_inv. tauto.
  - split; [constructor | reflexivity].
Qed.

Lemma mkCat_matches r1 r2 s : matches (mkCat r1 r2) s <-> matches (Cat r1 r2) s.
Proof.
  assert (Hnever : forall r s', matches (Cat Never r) s' <-> False).
  { intros r s'. rewrite matches_cat_inv. split; [|tauto].
    intros (s1 & s2 & _ & H1 & _). now apply matches_never_inv in H1. }
  assert (Hnever' : forall r s', matches (Cat r Never) s' <-> False).
  { intros r s'. rewrite matches_cat_inv. split; [|tauto].
    intros (s1 & s2 & _ & _ & H2). now apply matches_never_inv in H2. }
  assert (Heps : forall r s', matches r s' <-> matches (Cat Epsilon r) s').
  { intros r s'. rewrite matches_cat_inv. split.
    - intros Hm. exists [], s'. repeat split; [constructor | exact Hm].
    - intros (s1 & s2 & -> & H1 & H2). apply matches_epsilon_inv in H1.
      now subst. }
  destruct r1; cbn [mkCat];
    try (rewrite Hnever; apply matches_never_inv);
    destruct r2;
    try (rewrite Hnever'; apply matches_never_inv);
    try apply Heps; reflexivity.
Qed.

Lemma mkOr_matches r1 r2 s : matches (mkOr r1 r2) s <-> matches (Or r1 r2) s.
Proof.
  assert (Hl : forall r s', matches r s' <-> matches (Or Never r) s').
  { intros r s'. rewrite matches_or_inv, matches_never_inv. tauto. }
  assert (Hr : forall r s', matches r s' <-> matches (Or r Never) s').
  { intros r s'. rewrite matches_or_inv, matches_never_inv. tauto. }
  destruct r1; cbn [mkOr]; try apply Hl; destruct r2; try apply Hr;
    reflexivity.
Qed.

(** A non-empty match of [r*] starts with a non-empty match of [r]. *)
Lemma matches_star_head r u s :
  matches (Star r) (u :: s) ->
  exists s1 s2, s = s1 ++ s2 /\ matches r (u :: s1) /\ matches (Star r) s2.
Proof.
  intros Hm. remember (Star r) as r' eqn:Hr. remember (u :: s) as w eqn:Hw.
  induction Hm as [| | | | | |r0 s1 s2 H1 _ H2 IH2]; try discriminate.
  injection Hr as ->. destruct s1 as [|v s1].
  - cbn in Hw. now apply IH2.
  - cbn in Hw. injection Hw as -> <-. now exists s1, s2.
Qed.

Lemma deriv_matches u r s : matches (deriv u r) s <-> matches r (u :: s).
Proof.
  revert s. induction r as [| | f | r1 IH1 r2 IH2 | r1 IH1 r2 IH2 | r IH];
    intros s; cbn [deriv].
  - rewrite !matches_never_inv. tauto.
  - rewrite matches_never_inv, matches_epsilon_inv. split; [tauto | discriminate].
  - rewrite matches_class_inv. destruct (f u) eqn:Hf.
    + rewrite matches_epsilon_inv. split.
      * intros ->. now exists u.
      * intros (v & [= -> ->] & _). reflexivity.
    + rewrite matches_never_inv. split; [tauto|].
      intros (v & [= -> ->] & Hv). congruence.
  - rewrite mkOr_matches, matches_or_inv, mkCat_matches, !matches_cat_inv.
    split.
    + intros [(s1 & s2 & -> & Ha & Hb) | H2].
      * exists (u :: s1), s2. repeat split; [now apply IH1 | exact Hb].
      * destruct (nullable r1) eqn:Hn; [|now apply matches_never_inv in H2].
        exists [], (u :: s). repeat split; [now apply nullable_matches
                                           | now apply IH2].
    + intros (s1 & s2 & E & Ha & Hb). destruct s1 as [|v s1].
      * cbn in E. subst s2. right.
        rewrite (proj2 (nullable_matches r1) Ha). now apply IH2.
      * cbn in E. injection E as <- ->. left.
        exists s1, s2. repeat split; [now apply IH1 | exact Hb].
  - rewrite mkOr_matches, !matches_or_inv, IH1, IH2. tauto.
  - rewrite mkCat_matches, matches_cat_inv. split.
    + intros (s1 & s2 & -> & Ha & Hb). apply IH in Ha.
      exact (matches_star_cons _ (u :: s1) s2 Ha Hb).
    + intros Hm. apply matches_star_head in Hm as (s1 & s2 & -> & Ha & Hb).
      exists s1, s2. repeat split; [now apply IH | exact Hb].
Qed.

Lemma regex_test_matches r s : regex_test r s = true <-> matches r s.
Proof.
  unfold regex_test. revert r. induction s as [|u s IH]; intros r; cbn.
  - apply nullable_matches.
  - rewrite IH. apply deriv_matches.
Qed.

(** *** The languages of the patterns of the source *)

Lemma matches_chr_inv c s : matches (Chr c) s <-> s = [chr c].
Proof.
  unfold Chr. rewrite matches_class_inv. split.
  - intros (u & -> & Hu). apply Z.eqb_eq in Hu. now subst.
  - intros ->. exists (chr c). split; [reflexivity | apply Z.eqb_refl].
Qed.

Lemma matches_star_class f s :
  matches (Star (Class f)) s <-> Forall (fun u => f u = true) s.
Proof.
  split.
  - intros Hm. remember (Star (Class f)) as r eqn:Hr.
    induction Hm as [| | | | | |r0 s1 s2 H1 _ H2 IH2]; try discriminate.
    + constructor.
    + injection Hr as ->. inversion H1; subst. constructor; [assumption|].
      now apply IH2.
  - induction 1 as [|u s Hu _ IH]; [constructor|].
    exact (matches_star_cons _ [u] s (matches_class f u Hu) IH).
Qed.

Lemma matches_plus_class f s :
  matches (Plus (Class f)) s <-> s <> [] /\ Forall (fun u => f u = true) s.
Proof.
  unfold Plus. rewrite matches_cat_inv. split.
  - intros (s1 & s2 & -> & H1 & H2). apply matches_class_inv in H1 as (u & -> & Hu).
    apply matches_star_class in H2. split; [discriminate | now constructor].
  - intros [Hne Hall]. destruct Hall as [|u s Hu Hall]; [congruence|].
    exists [u], s. split; [reflexivity|]. split; [now constructor|].
    now apply matches_star_class.
Qed.

Lemma matches_atmost_class n f s :
  matches (AtMost n (Class f)) s <->
  (length s <= n)%nat /\ Forall (fun u => f u = true) s.
Proof.
  revert s. induction n as [|n IH]; intros s; cbn [AtMost].
  - split.
    + inversion 1; subst. split; [reflexivity | constructor].
    + intros [Hlen _]. destruct s; [constructor | cbn in Hlen; lia].
  - split.
    + inversion 1 as [| | |? ? ? H1|? ? ? H2| |]; subst.
      * inversion H1; subst. split; [cbn; lia | constructor].
      * apply matches_cat_inv in H2 as (s1 & s2 & -> & Ha & Hb).
        apply matches_class_inv in Ha as (u & -> & Hu).
        apply IH in Hb as [Hlen Hall]. split; [cbn; lia | now constructor].
    + intros [Hlen Hall]. destruct Hall as [|u s Hu Hall].
      * apply matches_or_l. constructor.
      * apply matches_or_r. cbn [length] in Hlen.
        apply (matches_cat _ _ [u] s (matches_class f u Hu)).
        apply IH. split; [lia | exact Hall].
Qed.

(** [/^0x[a-fA-F0-9]{1,64}$/] matches exactly the hex form. *)
Lemma hexAddressRegex_language t :
  regex_test hexAddressRegex t = true <-> hex_form t.
Proof.
  rewrite regex_test_matches. unfold hexAddressRegex, hex_form, Between.
  cbn [Times Nat.sub]. split.
  - intros Hm.
    apply matches_cat_inv in Hm as (s0 & r0 & -> & H0 & Hm).
    apply matches_chr_inv in H0 as ->.
    apply matches_cat_inv in Hm as (sx & r1 & -> & Hx & Hm).
    apply matches_chr_inv in Hx as ->.
    apply matches_cat_inv in Hm as (d1 & ds & -> & H1 & Hm).
    apply matches_class_inv in H1 as (u & -> & Hu).
    apply matches_atmost_class in Hm as [Hlen Hall].
    exists (u :: ds). split; [reflexivity|].
    split; [cbn; lia | now constructor].
  - intros (digits & -> & Hlen & Hall).
    destruct Hall as [|u ds Hu Hall]; [cbn in Hlen; lia|].
    change (str "0x" ++ u :: ds) with ([chr "0"] ++ [chr "x"] ++ [u] ++ ds).
    apply matches_cat; [now apply matches_chr_inv|].
    apply matches_cat; [now apply matches_chr_inv|].
    apply matches_cat; [now constructor|].
    apply matches_atmost_class. split; [cbn in Hlen; lia | exact Hall].
Qed.

(** [/^[a-zA-Z0-9_-]+\.apt$/] matches exactly the named form. *)
Lemma namedAddressRegex_language t :
  regex_test namedAddressRegex t = true <-> named_form t.
Proof.
  rewrite regex_test_matches. unfold namedAddressRegex, named_form. split.
  - intros Hm.
    apply matches_cat_inv in Hm as (name & r0 & -> & Hname & Hm).
    apply matches_plus_class in Hname as [Hne Hall].
    apply matches_cat_inv in Hm as (s1 & r1 & -> & H1 & Hm).
    apply matches_chr_inv in H1 as ->.
    apply matches_cat_inv in Hm as (s2 & r2 & -> & H2 & Hm).
    apply matches_chr_inv in H2 as ->.
    apply matches_cat_inv in Hm as (s3 & r3 & -> & H3 & Hm).
    apply matches_chr_inv in H3 as ->.
    apply matches_chr_inv in Hm as ->.
    now exists name.
  - intros (name & -> & Hne & Hall).
    apply matches_cat; [now apply matches_plus_class|].
    change (str ".apt") with ([chr "."] ++ [chr "a"] ++ [chr "p"] ++ [chr "t"]).
    repeat (apply matches_cat; [now apply matches_chr_inv|]).
    now apply matches_chr_inv.
Qed.

(** [/^[^\s@]+@[^\s@]+\.[^\s@]+$/] matches exactly the email form. *)
Lemma emailRegex_language e : isValidEmail e = true <-> email_form e.
Proof.
  unfold isValidEmail. rewrite regex_test_matches.
  unfold emailRegex, email_form. split.
  - intros Hm.
    apply matches_cat_inv in Hm as (a & r0 & -> & Ha & Hm).
    apply matches_plus_class in Ha as [Hane Ha].
    apply matches_cat_inv in Hm as (s1 & r1 & -> & H1 & Hm).
    apply matches_chr_inv in H1 as ->.
    apply matches_cat_inv in Hm as (b & r2 & -> & Hb & Hm).
    apply matches_plus_class in Hb as [Hbne Hb].
    apply matches_cat_inv in Hm as (s2 & c & -> & H2 & Hc).
    apply matches_chr_inv in H2 as ->.
    apply matches_plus_class in Hc as [Hcne Hc].
    exists a, b, c. repeat split; try assumption.
    apply Forall_app. split; [exact Ha|]. now apply Forall_app.
  - intros (a & b & c & -> & Hane & Hbne & Hcne & Hall).
    apply Forall_app in Hall as [Ha Hall].
    apply Forall_app in Hall as [Hb Hc].
    apply matches_cat; [now apply matches_plus_class|].
    apply (matches_cat _ _ [chr "@"]); [now apply matches_chr_inv|].
    apply matches_cat; [now apply matches_plus_class|].
    apply (matches_cat _ _ [chr "."]); [now apply matches_chr_inv|].
    now apply matches_plus_class.
Qed.

(** C8.  The two wallet validators return the same boolean on every
    string, and accept exactly the strings of the contract of section 4.1:
    non-empty input whose trimmed form is of the hex form, else (when it
    does not start with [0x] and contains [.apt]) of the named form, else
    (when it does neither) of length 6 to 100. *)
Theorem wallet_validators_agree (s : jsstring) :
  isValidWallet s = isValidWalletAddress s
  /\ (isValidWalletAddress s = true <-> wallet_contract s).
Proof.
  split; [reflexivity|].
  unfold isValidWalletAddress, wallet_contract.
  destruct s as [|u t]; [split; [discriminate | intros [Hne _]; congruence]|].
  cbn zeta.
  destruct (startsWith _ _); [|destruct (includes _ _)].
  - rewrite hexAddressRegex_language. split.
    + intros Hhex. split; [discriminate|]. now left.
    + intros [_ [[_ Hhex] | [[Hf _] | [Hf _]]]]; [exact Hhex | discriminate..].
  - rewrite namedAddressRegex_language. split.
    + intros Hnamed. split; [discriminate|]. right. now left.
    + intros [_ [[Hf _] | [(_ & _ & Hnamed) | (_ & Hf & _)]]];
        [discriminate | exact Hnamed | discriminate].
  - rewrite andb_true_iff, !Z.leb_le. split.
    + intros Hlen. split; [discriminate|]. right. right.
      repeat split; lia.
    + intros [_ [[Hf _] | [(_ & Hf & _) | (_ & _ & Hlen)]]];
        [discriminate | discriminate | lia].
Qed.

(** The vectors of section 8 of the specification. *)
Example wallet_validator_vectors :
  isValidWalletAddress (str "0xAB12") = true
  /\ isValidWalletAddress (str "0xZZ") = false
  /\ isValidWalletAddress (str "alice.apt") = true
  /\ isValidWalletAddress (str "ab") = false.
Proof. vm_compute. auto. Qed.

(** The order of the three forms matters: a string that starts with [0x]
    or contains [.apt] is never judged by its length. *)
Example wallet_forms_in_order :
  isValidWalletAddress (str "0xZZZZZZ") = false
  /\ isValidWalletAddress (str "a.b.apt") = false
  /\ isValidWalletAddress (str "anything") = true.
Proof. vm_compute. auto. Qed.

(** ** Display of long URLs *)

Lemma substring_prefix (s : jsstring) (k : Z) :
  0 <= k <= Z.of_nat (length s) ->
  substring s 0 k = take (Z.to_nat k) s.
Proof.
  intros Hk. unfold substring, clamp_index.
  rewrite Z.max_id. rewrite (Z.min_l 0) by lia.
  rewrite (Z.max_l k 0) by lia. rewrite (Z.min_l k) by lia.
  rewrite Z.min_l by lia. rewrite Z.max_r by lia.
  rewrite Z.sub_0_r. reflexivity.
Qed.

Lemma substring_suffix (s : jsstring) (k : Z) :
  0 <= k <= Z.of_nat (length s) ->
  substring s k (Z.of_nat (length s)) = drop (Z.to_nat k) s.
Proof.
  intros Hk. unfold substring, clamp_index.
  rewrite (Z.max_l k 0) by lia. rewrite (Z.min_l k) by lia.
  rewrite (Z.max_l _ 0) by lia. rewrite Z.min_id.
  rewrite Z.min_l by lia. rewrite Z.max_r by lia.
  apply take_ge. rewrite length_drop. lia.
Qed.

(** C7.  For a positive [n]: a string of length at most [n] is returned
    as it is, also when the function is applied again; a longer one
    becomes its first [n/2] code units, ["..."] and its last [n - n/2]
    code units, of length [n + 3]. *)
Theorem sanitizeUrlForDisplay_bounds (u : jsstring) (n : Z) :
  0 < n ->
  (Z.of_nat (length u) <= n -> sanitizeUrlForDisplay u n = u)
  /\ (n < Z.of_nat (length u) ->
      sanitizeUrlForDisplay u n
      = take (Z.to_nat (n / 2)) u ++ str "..."
          ++ drop (length u - Z.to_nat (n - n / 2)) u
      /\ Z.of_nat (length (sanitizeUrlForDisplay u n)) <= n + 3)
  /\ (Z.of_nat (length u) <= n ->
      sanitizeUrlForDisplay (sanitizeUrlForDisplay u n) n
      = sanitizeUrlForDisplay u n).
Proof.
  intros Hn.
  assert (Hshort : Z.of_nat (length u) <= n -> sanitizeUrlForDisplay u n = u).
  { intros Hle. unfold sanitizeUrlForDisplay.
    now rewrite (proj2 (Z.leb_le _ _) Hle). }
  split; [exact Hshort|]. split.
  - intros Hlong.
    assert (Heq : sanitizeUrlForDisplay u n
                  = take (Z.to_nat (n / 2)) u ++ str "..."
                      ++ drop (length u - Z.to_nat (n - n / 2)) u).
    { unfold sanitizeUrlForDisplay.
      rewrite (proj2 (Z.leb_gt _ _) Hlong).
      rewrite Z.quot_div_nonneg by lia.
      rewrite Z.quot_div_nonneg by lia.
      assert (Hhalf : 0 <= n / 2 <= n) by (split; [apply Z.div_pos | apply Z.div_le_upper_bound]; lia).
      assert (Hend : (2 * Z.of_nat (length u) - n) / 2
                     = Z.of_nat (length u) - (n - n / 2)).
      { pose proof (Z.div_mod n 2 ltac:(lia)).
        pose proof (Z.mod_pos_bound n 2 ltac:(lia)).
        pose proof (Z.div_mod (2 * Z.of_nat (length u) - n) 2 ltac:(lia)).
        pose proof (Z.mod_pos_bound (2 * Z.of_nat (length u) - n) 2 ltac:(lia)).
        lia. }
      rewrite substring_prefix by lia.
      rewrite substring_suffix by lia.
      rewrite Hend. do 3 f_equal. lia. }
    split; [exact Heq|]. rewrite Heq.
    rewrite !length_app, length_take, length_drop.
    change (length (str "...")) with 3%nat.
    assert (Hhalf : 0 <= n / 2 <= n)
      by (split; [apply Z.div_pos | apply Z.div_le_upper_bound]; lia).
    lia.
  - intros Hle. rewrite (Hshort Hle). exact (Hshort Hle).
Qed.

(** For an odd bound the tail is one code unit longer than the head. *)
Example sanitizeUrlForDisplay_vectors :
  sanitizeUrlForDisplay (str "abcdefghij") 4 = str "ab...ij"
  /\ sanitizeUrlForDisplay (str "abcdefghij") 5 = str "ab...hij"
  /\ sanitizeUrlForDisplay (str "abcdefghij") 10 = str "abcdefghij".
Proof. vm_compute. auto. Qed.

(** ** Bit operations as arithmetic *)

Lemma shiftr_div (x k : Z) : 0 <= k -> Z.shiftr x k = x / 2 ^ k.
Proof. apply Z.shiftr_div_pow2. Qed.

Lemma land_low_bits (x k : Z) : 0 <= k -> Z.land x (2 ^ k - 1) = x mod 2 ^ k.
Proof.
  intros Hk. rewrite <- Z.land_ones by exact Hk.
  now rewrite Z.ones_equiv, Z.sub_1_r.
Qed.

Lemma lor_shiftl_low (x y k : Z) :
  0 <= k -> 0 <= y < 2 ^ k -> Z.lor (Z.shiftl x k) y = x * 2 ^ k + y.
Proof.
  intros Hk Hy. rewrite <- Z.shiftl_mul_pow2 by exact Hk.
  rewrite <- Z.add_lor_land.
  assert (Hdisj : Z.land (Z.shiftl x k) y = 0).
  { apply Z.bits_inj'. intros i Hi. rewrite Z.land_spec, Z.bits_0.
    destruct (Z.lt_ge_cases i k) as [Hlt|Hge].
    - now rewrite Z.shiftl_spec_low.
    - assert (Hbit : Z.testbit y i = false).
      { apply Z.testbit_false; [lia|].
        rewrite Z.div_small; [reflexivity|].
        split; [lia|]. apply Z.lt_le_trans with (2 ^ k); [lia|].
        apply Z.pow_le_mono_r; lia. }
      rewrite Hbit. apply andb_false_r. }
  rewrite Hdisj. lia.
Qed.

(** The three masks and the shifts of the UTF-8 and UTF-16 code, as
    quotients and remainders. *)
Lemma land_3F x : Z.land x 0x3F = x mod 64.
Proof. exact (land_low_bits x 6 ltac:(lia)). Qed.

Lemma land_1F x : Z.land x 0x1F = x mod 32.
Proof. exact (land_low_bits x 5 ltac:(lia)). Qed.

Lemma land_F x : Z.land x 0xF = x mod 16.
Proof. exact (land_low_bits x 4 ltac:(lia)). Qed.

Lemma land_7 x : Z.land x 0x7 = x mod 8.
Proof. exact (land_low_bits x 3 ltac:(lia)). Qed.

Lemma land_3FF x : Z.land x 0x3FF = x mod 1024.
Proof. exact (land_low_bits x 10 ltac:(lia)). Qed.

Lemma lor_80 y : 0 <= y < 64 -> Z.lor 0x80 y = 128 + y.
Proof.
  intros Hy.
  exact (lor_shiftl_low 2 y 6 ltac:(lia) Hy).
Qed.

Lemma shiftl_6_lor c y : 0 <= y < 64 -> Z.lor (Z.shiftl c 6) y = c * 64 + y.
Proof.
  intros Hy. rewrite lor_shiftl_low by (change (2 ^ 6) with 64; lia).
  change (2 ^ 6) with 64. lia.
Qed.

Lemma continuation_byte cp k :
  0 <= k ->
  Z.lor 0x80 (Z.land (Z.shiftr cp k) 0x3F) = 128 + (cp / 2 ^ k) mod 64.
Proof.
  intros Hk. rewrite land_3F, shiftr_div by exact Hk.
  apply lor_80. apply Z.mod_pos_bound. lia.
Qed.

Lemma trail_value c b :
  Z.lor (Z.shiftl c 6) (Z.land b 0x3F) = c * 64 + b mod 64.
Proof.
  rewrite land_3F. apply shiftl_6_lor. apply Z.mod_pos_bound. lia.
Qed.

(** ** UTF-8 *)

Lemma utf8_encode_1 cp : 0 <= cp <= 0x7F -> utf8_encode_scalar cp = [cp].
Proof. intros Hcp. unfold utf8_encode_scalar. now zbool. Qed.

Lemma utf8_encode_2 cp :
  0x80 <= cp <= 0x7FF ->
  utf8_encode_scalar cp = [cp / 64 + 192; 128 + cp mod 64].
Proof.
  intros Hcp. unfold utf8_encode_scalar. zbool. cbn [utf8_continuation].
  rewrite !continuation_byte, shiftr_div by lia.
  change (2 ^ (6 * Z.of_nat 0)) with 1. change (2 ^ (6 * Z.of_nat 1)) with 64.
  now rewrite Z.div_1_r.
Qed.

Lemma utf8_encode_3 cp :
  0x800 <= cp <= 0xFFFF ->
  utf8_encode_scalar cp
  = [cp / 4096 + 224; 128 + (cp / 64) mod 64; 128 + cp mod 64].
Proof.
  intros Hcp. unfold utf8_encode_scalar. zbool. cbn [utf8_continuation].
  rewrite !continuation_byte, shiftr_div by lia.
  change (2 ^ (6 * Z.of_nat 0)) with 1. change (2 ^ (6 * Z.of_nat 1)) with 64.
  change (2 ^ (6 * Z.of_nat 2)) with 4096.
  now rewrite Z.div_1_r.
Qed.

Lemma utf8_encode_4 cp :
  0x10000 <= cp ->
  utf8_encode_scalar cp
  = [cp / 262144 + 240; 128 + (cp / 4096) mod 64;
     128 + (cp / 64) mod 64; 128 + cp mod 64].
Proof.
  intros Hcp. unfold utf8_encode_scalar. zbool. cbn [utf8_continuation].
  rewrite !continuation_byte, shiftr_div by lia.
  change (2 ^ (6 * Z.of_nat 0)) with 1. change (2 ^ (6 * Z.of_nat 1)) with 64.
  change (2 ^ (6 * Z.of_nat 2)) with 4096.
  change (2 ^ (6 * Z.of_nat 3)) with 262144.
  now rewrite Z.div_1_r.
Qed.

Lemma isScalarValue_range cp :
  isScalarValue cp = true ->
  0 <= cp < 0xD800 \/ 0xE000 <= cp <= 0x10FFFF.
Proof. unfold isScalarValue. lia. Qed.

Lemma utf8_encode_scalar_bytes cp :
  isScalarValue cp = true -> isBytes (utf8_encode_scalar cp) = true.
Proof.
  intros Hcp. apply isScalarValue_range in Hcp.
  destruct (Z.le_gt_cases cp 0x7F); [rewrite utf8_encode_1 by lia|].
  2: destruct (Z.le_gt_cases cp 0x7FF); [rewrite utf8_encode_2 by lia|].
  3: destruct (Z.le_gt_cases cp 0xFFFF); [rewrite utf8_encode_3 by lia
                                         |rewrite utf8_encode_4 by lia].
  all: cbn [isBytes forallb]; zbool; reflexivity.
Qed.

Lemma decode_idle_cons b rest :
  utf8_decode_from utf8_idle (b :: rest)
  = match utf8_lead b with
    | Continue d' => utf8_decode_from d' rest
    | Emit cp => cp :: utf8_decode_from utf8_idle rest
    | DecodeError => 0xFFFD :: utf8_decode_from utf8_idle rest
    end.
Proof. reflexivity. Qed.

Lemma decode_trail_cons d b rest :
  bytes_needed d <> 0 ->
  lower_boundary d <= b <= upper_boundary d ->
  utf8_decode_from d (b :: rest)
  = match utf8_trail d b with
    | Continue d' => utf8_decode_from d' rest
    | Emit cp => cp :: utf8_decode_from utf8_idle rest
    | DecodeError => 0xFFFD :: utf8_decode_from utf8_idle rest
    end.
Proof.
  intros Hneeded Hb. cbn [utf8_decode_from]. now zbool.
Qed.

(** The decoder, started idle on the encoding of a scalar value, emits it
    and is idle again. *)
Lemma utf8_decode_encode_scalar cp rest :
  isScalarValue cp = true ->
  utf8_decode_from utf8_idle (utf8_encode_scalar cp ++ rest)
  = cp :: utf8_decode_from utf8_idle rest.
Proof.
  intros Hcp. apply isScalarValue_range in Hcp.
  destruct (Z.le_gt_cases cp 0x7F); [rewrite utf8_encode_1 by lia|].
  2: destruct (Z.le_gt_cases cp 0x7FF); [rewrite utf8_encode_2 by lia|].
  3: destruct (Z.le_gt_cases cp 0xFFFF); [rewrite utf8_encode_3 by lia
                                         |rewrite utf8_encode_4 by lia].
  all: cbn [app]; rewrite decode_idle_cons; unfold utf8_lead; zbool;
    cbn [andb].
  - reflexivity.
  - rewrite decode_trail_cons by (cbn; zdec).
    unfold utf8_trail. cbn [bytes_seen bytes_needed code_point]. zbool.
    rewrite trail_value, land_1F. f_equal. zdec.
  - rewrite decode_trail_cons by (cbn; zcases; zdec).
    unfold utf8_trail at 1. cbn [bytes_seen bytes_needed code_point]. zbool.
    rewrite decode_trail_cons by (cbn; zdec).
    unfold utf8_trail. cbn [bytes_seen bytes_needed code_point]. zbool.
    rewrite !trail_value, land_F. f_equal. zdec.
  - rewrite decode_trail_cons by (cbn; zcases; zdec).
    unfold utf8_trail at 1. cbn [bytes_seen bytes_needed code_point]. zbool.
    rewrite decode_trail_cons by (cbn; zdec).
    unfold utf8_trail at 1. cbn [bytes_seen bytes_needed code_point]. zbool.
    rewrite decode_trail_cons by (cbn; zdec).
    unfold utf8_trail. cbn [bytes_seen bytes_needed code_point]. zbool.
    rewrite !trail_value, land_7. f_equal. zdec.
Qed.

Lemma utf8_decode_encode l :
  isScalarValues l = true -> utf8_decode (utf8_encode l) = l.
Proof.
  unfold utf8_decode. induction l as [|cp l IH]; [reflexivity|].
  cbn [isScalarValues forallb utf8_encode flat_map].
  intros [Hcp Hl]%andb_true_iff.
  rewrite utf8_decode_encode_scalar by exact Hcp. f_equal. now apply IH.
Qed.

Lemma isBytes_app l1 l2 : isBytes (l1 ++ l2) = isBytes l1 && isBytes l2.
Proof. apply forallb_app. Qed.

Lemma utf8_encode_bytes l :
  isScalarValues l = true -> isBytes (utf8_encode l) = true.
Proof.
  induction l as [|cp l IH]; [reflexivity|].
  cbn [isScalarValues forallb utf8_encode flat_map].
  intros [Hcp Hl]%andb_true_iff. rewrite isBytes_app.
  rewrite utf8_encode_scalar_bytes by exact Hcp. now apply IH.
Qed.

Lemma utf8_encode_ascii l : isAscii l = true -> utf8_encode l = l.
Proof.
  induction l as [|cp l IH]; [reflexivity|].
  cbn [isAscii forallb utf8_encode flat_map].
  intros [Hcp Hl]%andb_true_iff.
  rewrite utf8_encode_1 by lia. cbn [app]. f_equal. now apply IH.
Qed.

(** ** UTF-16 and scalar value strings *)

Lemma toUSVString_ascii s : isAscii s = true -> toUSVString s = s.
Proof.
  induction s as [|u t IH]; [reflexivity|].
  cbn [isAscii forallb]. intros [Hu Ht]%andb_true_iff.
  cbn [toUSVString]. unfold isLeadSurrogate, isTrailSurrogate. zbool.
  cbn [andb]. f_equal. now apply IH.
Qed.

(** Induction on strings two code units at a time. *)
Lemma jsstring_pair_ind (P : jsstring -> Prop) :
  P [] ->
  (forall u, P [u]) ->
  (forall u v t, P t -> P (v :: t) -> P (u :: v :: t)) ->
  forall s, P s.
Proof.
  intros Hnil Hone Hstep s.
  assert (Hboth : P s /\ forall u, P (u :: s)).
  { induction s as [|v t [IH1 IH2]]; [now split|].
    split; [apply IH2|]. intros u. apply Hstep; [exact IH1 | apply IH2]. }
  apply Hboth.
Qed.

Lemma surrogate_pair_value u v :
  isLeadSurrogate u = true -> isTrailSurrogate v = true ->
  0x10000 + Z.shiftl (u - 0xD800) 10 + (v - 0xDC00)
  = 0x10000 + (u - 0xD800) * 1024 + (v - 0xDC00).
Proof. intros _ _. now rewrite Z.shiftl_mul_pow2 by lia. Qed.

Lemma toUSVString_cons u t :
  toUSVString (u :: t)
  = if isLeadSurrogate u then
      match t with
      | v :: t' =>
          if isTrailSurrogate v then
            (0x10000 + Z.shiftl (u - 0xD800) 10 + (v - 0xDC00))
              :: toUSVString t'
          else 0xFFFD :: toUSVString t
      | [] => [0xFFFD]
      end
    else if isTrailSurrogate u then 0xFFFD :: toUSVString t
    else u :: toUSVString t.
Proof. reflexivity. Qed.

Lemma isWellFormed_cons u t :
  isWellFormed (u :: t)
  = if isLeadSurrogate u then
      match t with
      | v :: t' => isTrailSurrogate v && isWellFormed t'
      | [] => false
      end
    else
      negb (isTrailSurrogate u) && (0 <=? u) && (u <=? 0xFFFF)
      && isWellFormed t.
Proof. reflexivity. Qed.

Lemma fromUSVString_cons cp l :
  fromUSVString (cp :: l) = codeUnitsOf cp ++ fromUSVString l.
Proof. reflexivity. Qed.

Lemma isCodeUnits_cons u t :
  isCodeUnits (u :: t) = ((0 <=? u) && (u <=? 0xFFFF)) && isCodeUnits t.
Proof. reflexivity. Qed.

Lemma isScalarValues_cons cp l :
  isScalarValues (cp :: l) = isScalarValue cp && isScalarValues l.
Proof. reflexivity. Qed.

Lemma toUSVString_scalars s :
  isCodeUnits s = true -> isScalarValues (toUSVString s) = true.
Proof.
  induction s as [| u | u v t IHt IHvt] using jsstring_pair_ind.
  - reflexivity.
  - rewrite isCodeUnits_cons, toUSVString_cons.
    intros [Hu _]%andb_true_iff.
    unfold isLeadSurrogate, isTrailSurrogate.
    destruct ((0xD800 <=? u) && (u <=? 0xDBFF)) eqn:Hlead; [reflexivity|].
    destruct ((0xDC00 <=? u) && (u <=? 0xDFFF)) eqn:Htrail; [reflexivity|].
    rewrite isScalarValues_cons. unfold isScalarValue.
    apply andb_true_iff. split; [lia | reflexivity].
  - intros Hs. assert (Hs' := Hs). rewrite isCodeUnits_cons in Hs'.
    apply andb_true_iff in Hs' as [Hu Hvt].
    assert (Hvt' := Hvt). rewrite isCodeUnits_cons in Hvt'.
    apply andb_true_iff in Hvt' as [Hv Ht].
    rewrite toUSVString_cons.
    destruct (isLeadSurrogate u) eqn:Hlead.
    + destruct (isTrailSurrogate v) eqn:Htrail.
      * rewrite isScalarValues_cons, (IHt Ht).
        rewrite surrogate_pair_value by assumption.
        unfold isLeadSurrogate in Hlead. unfold isTrailSurrogate in Htrail.
        unfold isScalarValue. lia.
      * rewrite isScalarValues_cons. now rewrite (IHvt Hvt).
    + destruct (isTrailSurrogate u) eqn:Htrail.
      * rewrite isScalarValues_cons. now rewrite (IHvt Hvt).
      * rewrite isScalarValues_cons, (IHvt Hvt).
        unfold isLeadSurrogate in Hlead. unfold isTrailSurrogate in Htrail.
        unfold isScalarValue. lia.
Qed.

Lemma isWellFormed_isCodeUnits s :
  isWellFormed s = true -> isCodeUnits s = true.
Proof.
  induction s as [| u | u v t IHt IHvt] using jsstring_pair_ind.
  - reflexivity.
  - rewrite isWellFormed_cons, isCodeUnits_cons.
    destruct (isLeadSurrogate u); [discriminate|].
    change (isWellFormed []) with true. change (isCodeUnits []) with true. lia.
  - intros Hs. rewrite isWellFormed_cons in Hs.
    destruct (isLeadSurrogate u) eqn:Hlead.
    + apply andb_true_iff in Hs as [Hv Ht].
      rewrite !isCodeUnits_cons, (IHt Ht).
      unfold isLeadSurrogate in Hlead. unfold isTrailSurrogate in Hv. lia.
    + apply andb_true_iff in Hs as [Hu Hvt].
      rewrite isCodeUnits_cons, (IHvt Hvt). lia.
Qed.

(** A well-formed string is the UTF-16 encoding of its scalar values. *)
Lemma fromUSVString_toUSVString s :
  isWellFormed s = true -> fromUSVString (toUSVString s) = s.
Proof.
  induction s as [| u | u v t IHt IHvt] using jsstring_pair_ind.
  - reflexivity.
  - rewrite isWellFormed_cons, toUSVString_cons.
    destruct (isLeadSurrogate u); [discriminate|].
    destruct (isTrailSurrogate u); [discriminate|].
    intros Hu. rewrite fromUSVString_cons. unfold codeUnitsOf.
    change (isWellFormed []) with true in Hu. now zbool.
  - intros Hs. rewrite isWellFormed_cons in Hs. rewrite toUSVString_cons.
    destruct (isLeadSurrogate u) eqn:Hlead.
    + apply andb_true_iff in Hs as [Hv Ht]. rewrite Hv.
      rewrite fromUSVString_cons, (IHt Ht).
      rewrite surrogate_pair_value by assumption.
      unfold isLeadSurrogate in Hlead. unfold isTrailSurrogate in Hv.
      unfold codeUnitsOf. zbool. rewrite shiftr_div, land_3FF by lia.
      change (2 ^ 10) with 1024. cbn [app]. f_equal; [zdec|]. f_equal. zdec.
    + apply andb_true_iff in Hs as [Hu Hvt].
      destruct (isTrailSurrogate u); [discriminate|].
      rewrite fromUSVString_cons, (IHvt Hvt). unfold codeUnitsOf. now zbool.
Qed.

(** ** Percent-encoding *)

Lemma upperHexDigit_facts n :
  0 <= n < 16 ->
  urlencoded_keeps (upperHexDigit n) = true
  /\ hexValue (upperHexDigit n) = Some n.
Proof.
  intros Hn. unfold upperHexDigit, urlencoded_keeps, asciiAlphanumeric, hexValue.
  chr_norm. destruct (Z.ltb_spec n 10).
  - split; [lia|]. zbool. cbn [andb]. f_equal. lia.
  - split; [lia|]. zbool. cbn [andb]. f_equal. lia.
Qed.

Lemma urlencoded_safe_facts b :
  urlencoded_safe b = true ->
  0 <= b <= 0x7F /\ b <> chr "&" /\ b <> chr "=" /\ b <> chr "#"
  /\ b <> chr "?".
Proof.
  unfold urlencoded_safe, urlencoded_keeps, asciiAlphanumeric. chr_norm. lia.
Qed.

Lemma nibbles b :
  0 <= b <= 0xFF ->
  0 <= Z.shiftr b 4 < 16 /\ 0 <= Z.land b 0xF < 16
  /\ 16 * Z.shiftr b 4 + Z.land b 0xF = b.
Proof.
  intros Hb. rewrite shiftr_div, land_F by lia. change (2 ^ 4) with 16. zdec.
Qed.

Lemma urlencoded_byte_safe b :
  0 <= b <= 0xFF -> forallb urlencoded_safe (urlencoded_byte b) = true.
Proof.
  intros Hb. unfold urlencoded_byte.
  destruct (Z.eqb_spec b 0x20); [reflexivity|].
  destruct (urlencoded_keeps b) eqn:Hkeep.
  - cbn [forallb]. unfold urlencoded_safe. now rewrite Hkeep.
  - destruct (nibbles b Hb) as (Hhi & Hlo & _).
    destruct (upperHexDigit_facts _ Hhi) as [Hk1 _].
    destruct (upperHexDigit_facts _ Hlo) as [Hk2 _].
    unfold percent_encode. cbn [forallb]. unfold urlencoded_safe at 2 3.
    now rewrite Hk1, Hk2.
Qed.

Lemma percent_decode_plain b rest :
  b <> chr "%" -> percent_decode (b :: rest) = b :: percent_decode rest.
Proof.
  intros Hb. cbn [percent_decode].
  now rewrite (proj2 (Z.eqb_neq _ _) Hb).
Qed.

Lemma percent_decode_escape h l x y rest :
  hexValue h = Some x -> hexValue l = Some y ->
  percent_decode (chr "%" :: h :: l :: rest)
  = (16 * x + y) :: percent_decode rest.
Proof.
  intros Hh Hl. cbn [percent_decode]. now rewrite Z.eqb_refl, Hh, Hl.
Qed.

Lemma plus_to_space_keeps b :
  b <> chr "+" -> plus_to_space [b] = [b].
Proof.
  intros Hb. cbn. now rewrite (proj2 (Z.eqb_neq _ _) Hb).
Qed.

Lemma urlencoded_keeps_facts b :
  urlencoded_keeps b = true -> b <> chr "+" /\ b <> chr "%".
Proof. unfold urlencoded_keeps, asciiAlphanumeric. chr_norm. lia. Qed.

(** Decoding undoes the encoding of one byte. *)
Lemma percent_decode_urlencoded_byte b rest :
  0 <= b <= 0xFF ->
  percent_decode (plus_to_space (urlencoded_byte b ++ rest))
  = b :: percent_decode (plus_to_space rest).
Proof.
  intros Hb. unfold plus_to_space. rewrite map_app.
  fold (plus_to_space (urlencoded_byte b)). fold (plus_to_space rest).
  unfold urlencoded_byte.
  destruct (Z.eqb_spec b 0x20) as [->|Hsp].
  - reflexivity.
  - destruct (urlencoded_keeps b) eqn:Hkeep.
    + destruct (urlencoded_keeps_facts b Hkeep) as [Hplus Hpct].
      rewrite plus_to_space_keeps by exact Hplus. cbn [app].
      now apply percent_decode_plain.
    + destruct (nibbles b Hb) as (Hhi & Hlo & Hsum).
      destruct (upperHexDigit_facts _ Hhi) as [Hk1 Hv1].
      destruct (upperHexDigit_facts _ Hlo) as [Hk2 Hv2].
      apply urlencoded_keeps_facts in Hk1 as [Hp1 _].
      apply urlencoded_keeps_facts in Hk2 as [Hp2 _].
      unfold percent_encode.
      change (plus_to_space [chr "%"; upperHexDigit (Z.shiftr b 4);
                             upperHexDigit (Z.land b 0xF)])
        with (plus_to_space [chr "%"]
              ++ plus_to_space [upperHexDigit (Z.shiftr b 4)]
              ++ plus_to_space [upperHexDigit (Z.land b 0xF)]).
      rewrite (plus_to_space_keeps _ Hp1), (plus_to_space_keeps _ Hp2).
      cbn [app plus_to_space map].
      change (chr "%" =? chr "+") with false. cbn iota.
      rewrite (percent_decode_escape _ _ _ _ _ Hv1 Hv2). now rewrite Hsum.
Qed.

Lemma percent_decode_urlencoded bs :
  isBytes bs = true ->
  percent_decode (plus_to_space (flat_map urlencoded_byte bs)) = bs.
Proof.
  induction bs as [|b bs IH]; [reflexivity|].
  cbn [isBytes forallb flat_map]. intros [Hb Hbs]%andb_true_iff.
  rewrite percent_decode_urlencoded_byte by lia. f_equal. now apply IH.
Qed.

Lemma urlencoded_field_string s :
  isScalarValues s = true -> urlencoded_field (urlencoded_string s) = s.
Proof.
  intros Hs. unfold urlencoded_field, urlencoded_string.
  rewrite percent_decode_urlencoded by now apply utf8_encode_bytes.
  now apply utf8_decode_encode.
Qed.

Lemma urlencoded_bytes_safe bs :
  isBytes bs = true ->
  forallb urlencoded_safe (flat_map urlencoded_byte bs) = true.
Proof.
  induction bs as [|b bs IH]; [reflexivity|].
  cbn [isBytes forallb flat_map]. intros [Hb Hbs]%andb_true_iff.
  rewrite forallb_app, urlencoded_byte_safe by lia. now apply IH.
Qed.

Lemma urlencoded_string_safe s :
  isScalarValues s = true ->
  forallb urlencoded_safe (urlencoded_string s) = true.
Proof.
  intros Hs. apply urlencoded_bytes_safe. now apply utf8_encode_bytes.
Qed.

(** ** Parsing what the serializer prints *)

Lemma split_on_without sep bs :
  Forall (fun b => b <> sep) bs -> split_on sep bs = [bs].
Proof.
  induction 1 as [|b bs Hb _ IH]; [reflexivity|].
  cbn [split_on]. rewrite (proj2 (Z.eqb_neq _ _) Hb). now rewrite IH.
Qed.

Lemma split_on_first sep x y :
  Forall (fun b => b <> sep) x ->
  split_on sep (x ++ sep :: y) = x :: split_on sep y.
Proof.
  induction 1 as [|b bs Hb _ IH]; cbn [app split_on].
  - now rewrite Z.eqb_refl.
  - rewrite (proj2 (Z.eqb_neq _ _) Hb). now rewrite IH.
Qed.

Lemma break_at_first sep x y :
  Forall (fun b => b <> sep) x ->
  break_at sep (x ++ sep :: y) = Some (x, y).
Proof.
  induction 1 as [|b bs Hb _ IH]; cbn [app break_at].
  - now rewrite Z.eqb_refl.
  - rewrite (proj2 (Z.eqb_neq _ _) Hb). now rewrite IH.
Qed.

Lemma before_without sep s :
  Forall (fun b => b <> sep) s -> before sep s = s.
Proof.
  induction 1 as [|b bs Hb _ IH]; [reflexivity|].
  cbn [before]. rewrite (proj2 (Z.eqb_neq _ _) Hb). now rewrite IH.
Qed.

Lemma from_first_first sep x y :
  Forall (fun b => b <> sep) x ->
  from_first sep (x ++ sep :: y) = sep :: y.
Proof.
  induction 1 as [|b bs Hb _ IH]; cbn [app from_first].
  - now rewrite Z.eqb_refl.
  - now rewrite (proj2 (Z.eqb_neq _ _) Hb).
Qed.

Lemma safe_without (sep : Z) bs :
  (forall b, urlencoded_safe b = true -> b <> sep) ->
  forallb urlencoded_safe bs = true ->
  Forall (fun b => b <> sep) bs.
Proof.
  intros Hsep Hsafe. apply Forall_forall. intros b Hb. apply Hsep.
  rewrite forallb_forall in Hsafe. apply Hsafe. now apply list_elem_of_In.
Qed.

Lemma safe_no_amp bs :
  forallb urlencoded_safe bs = true -> Forall (fun b => b <> chr "&") bs.
Proof. apply safe_without. intros b Hb. apply urlencoded_safe_facts in Hb. tauto. Qed.

Lemma safe_no_eq bs :
  forallb urlencoded_safe bs = true -> Forall (fun b => b <> chr "=") bs.
Proof. apply safe_without. intros b Hb. apply urlencoded_safe_facts in Hb. tauto. Qed.

Lemma safe_no_hash bs :
  forallb urlencoded_safe bs = true -> Forall (fun b => b <> chr "#") bs.
Proof. apply safe_without. intros b Hb. apply urlencoded_safe_facts in Hb. tauto. Qed.

Lemma safe_no_question bs :
  forallb urlencoded_safe bs = true -> Forall (fun b => b <> chr "?") bs.
Proof. apply safe_without. intros b Hb. apply urlencoded_safe_facts in Hb. tauto. Qed.

Lemma safe_ascii bs :
  forallb urlencoded_safe bs = true -> isAscii bs = true.
Proof.
  intros Hsafe. apply forallb_forall. intros b Hb.
  rewrite forallb_forall in Hsafe. apply Hsafe, urlencoded_safe_facts in Hb.
  lia.
Qed.

(** The text of one pair, [name=value]. *)
Lemma urlencoded_sequence_pair name value :
  isScalarValues name = true -> isScalarValues value = true ->
  urlencoded_sequence
    (urlencoded_string name ++ chr "=" :: urlencoded_string value)
  = [(name, value)].
Proof.
  intros Hn Hv. unfold urlencoded_sequence.
  rewrite break_at_first
    by (apply safe_no_eq; now apply urlencoded_string_safe).
  rewrite !urlencoded_field_string by assumption.
  now destruct (urlencoded_string name).
Qed.

Lemma pair_no_amp name value :
  isScalarValues name = true -> isScalarValues value = true ->
  Forall (fun b => b <> chr "&")
         (urlencoded_string name ++ chr "=" :: urlencoded_string value).
Proof.
  intros Hn Hv. apply Forall_app. split.
  - apply safe_no_amp. now apply urlencoded_string_safe.
  - constructor; [discriminate|].
    apply safe_no_amp. now apply urlencoded_string_safe.
Qed.

(** The parser reads back the pairs the serializer printed. *)
Lemma urlencoded_parse_serialize l :
  isScalarPairs l = true -> urlencoded_parse (urlencoded_serialize l) = l.
Proof.
  induction l as [|[name value] rest IH]; [reflexivity|].
  cbn [isScalarPairs forallb fst snd].
  intros [[Hn Hv]%andb_true_iff Hrest]%andb_true_iff.
  specialize (IH Hrest). unfold urlencoded_parse in *.
  destruct rest as [|next rest].
  - cbn [urlencoded_serialize].
    rewrite split_on_without by now apply pair_no_amp.
    cbn [flat_map]. rewrite urlencoded_sequence_pair by assumption.
    reflexivity.
  - change (urlencoded_serialize ((name, value) :: next :: rest))
      with ((urlencoded_string name ++ chr "=" :: urlencoded_string value)
            ++ chr "&" :: urlencoded_serialize (next :: rest)).
    rewrite split_on_first by now apply pair_no_amp.
    cbn [flat_map]. rewrite urlencoded_sequence_pair by assumption.
    rewrite IH. reflexivity.
Qed.

(** What the serializer prints is ASCII without [#] and [?]. *)
Lemma urlencoded_serialize_text l :
  isScalarPairs l = true ->
  isAscii (urlencoded_serialize l) = true
  /\ Forall (fun b => b <> chr "#") (urlencoded_serialize l)
  /\ Forall (fun b => b <> chr "?") (urlencoded_serialize l).
Proof.
  induction l as [|[name value] rest IH]; [now repeat constructor|].
  cbn [isScalarPairs forallb fst snd].
  intros [[Hn Hv]%andb_true_iff Hrest]%andb_true_iff.
  specialize (IH Hrest). destruct IH as (IHa & IHh & IHq).
  pose proof (urlencoded_string_safe _ Hn) as Sn.
  pose proof (urlencoded_string_safe _ Hv) as Sv.
  assert (Hpair : isAscii (urlencoded_string name ++ chr "="
                             :: urlencoded_string value) = true
                  /\ Forall (fun b => b <> chr "#")
                       (urlencoded_string name ++ chr "="
                          :: urlencoded_string value)
                  /\ Forall (fun b => b <> chr "?")
                       (urlencoded_string name ++ chr "="
                          :: urlencoded_string value)).
  { split; [|split].
    - unfold isAscii. rewrite forallb_app. cbn [forallb].
      fold (isAscii (urlencoded_string name)).
      fold (isAscii (urlencoded_string value)).
      now rewrite !safe_ascii by assumption.
    - apply Forall_app. split; [now apply safe_no_hash|].
      constructor; [discriminate | now apply safe_no_hash].
    - apply Forall_app. split; [now apply safe_no_question|].
      constructor; [discriminate | now apply safe_no_question]. }
  destruct rest as [|next rest]; [exact Hpair|].
  change (urlencoded_serialize ((name, value) :: next :: rest))
    with ((urlencoded_string name ++ chr "=" :: urlencoded_string value)
          ++ chr "&" :: urlencoded_serialize (next :: rest)).
  destruct Hpair as (Pa & Ph & Pq). split; [|split].
  - unfold isAscii. rewrite forallb_app. cbn [forallb].
    fold (isAscii (urlencoded_serialize (next :: rest))).
    unfold isAscii in Pa. now rewrite Pa, IHa.
  - apply Forall_app. split; [exact Ph|]. constructor; [discriminate | exact IHh].
  - apply Forall_app. split; [exact Pq|]. constructor; [discriminate | exact IHq].
Qed.

(** [new URLSearchParams("?" + params.toString())] has the pairs of
    [params]. *)
Lemma URLSearchParams_of_string_toString (params : URLSearchParams) :
  isScalarPairs params = true ->
  URLSearchParams_of_string (chr "?" :: URLSearchParams_toString params)
  = params.
Proof.
  intros Hp. unfold URLSearchParams_of_string, URLSearchParams_toString.
  destruct (urlencoded_serialize_text _ Hp) as (Ha & _ & _).
  rewrite toUSVString_ascii
    by (cbn [isAscii forallb]; fold (isAscii (urlencoded_serialize params));
        now rewrite Ha).
  rewrite Z.eqb_refl. rewrite utf8_encode_ascii by exact Ha.
  now apply urlencoded_parse_serialize.
Qed.

(** The [search] of a link made of an origin, a path and a query. *)
Lemma search_of_href_query (origin path query : jsstring) :
  Forall (fun b => b <> chr "#") (origin ++ path) ->
  Forall (fun b => b <> chr "?") (origin ++ path) ->
  Forall (fun b => b <> chr "#") query ->
  query <> [] ->
  search_of_href (origin ++ path ++ chr "?" :: query) = chr "?" :: query.
Proof.
  intros Hh Hq Hqh Hne. unfold search_of_href.
  rewrite app_assoc. rewrite before_without.
  - rewrite from_first_first by exact Hq. now destruct query.
  - apply Forall_app. split; [exact Hh|]. constructor; [discriminate | exact Hqh].
Qed.

(** ** Verification URLs *)

Lemma whitespace_not_surrogate u :
  isWhiteSpace u = true ->
  isLeadSurrogate u = false /\ isTrailSurrogate u = false.
Proof. unfold isWhiteSpace, isLeadSurrogate, isTrailSurrogate. lia. Qed.

Lemma trimStart_wellFormed s :
  isWellFormed s = true -> isWellFormed (trimStart s) = true.
Proof.
  induction s as [|u t IH]; [reflexivity|]. cbn [trimStart].
  destruct (isWhiteSpace u) eqn:Hu; [|trivial].
  destruct (whitespace_not_surrogate u Hu) as [Hlead _].
  rewrite isWellFormed_cons, Hlead. intros [_ Hs]%andb_true_iff.
  now apply IH.
Qed.

Lemma trimEnd_cons u t :
  trimEnd (u :: t)
  = match trimEnd t with
    | [] => if isWhiteSpace u then [] else [u]
    | t' => u :: t'
    end.
Proof. reflexivity. Qed.

Lemma surrogate_not_whitespace u :
  isLeadSurrogate u = true \/ isTrailSurrogate u = true ->
  isWhiteSpace u = false.
Proof. unfold isWhiteSpace, isLeadSurrogate, isTrailSurrogate. lia. Qed.

Lemma trimEnd_wellFormed s :
  isWellFormed s = true -> isWellFormed (trimEnd s) = true.
Proof.
  induction s as [| u | u v t IHt IHvt] using jsstring_pair_ind.
  - reflexivity.
  - intros Hu. cbn [trimEnd]. now destruct (isWhiteSpace u).
  - intros Hs. rewrite isWellFormed_cons in Hs.
    destruct (isLeadSurrogate u) eqn:Hlead.
    + apply andb_true_iff in Hs as [Hv Ht].
      rewrite (trimEnd_keep u) by (apply surrogate_not_whitespace; now left).
      rewrite (trimEnd_keep v) by (apply surrogate_not_whitespace; now right).
      rewrite isWellFormed_cons, Hlead, Hv. now apply IHt.
    + apply andb_true_iff in Hs as [Hu Hvt]. specialize (IHvt Hvt).
      rewrite trimEnd_cons. destruct (trimEnd (v :: t)) as [|w t'].
      * destruct (isWhiteSpace u); [reflexivity|].
        rewrite isWellFormed_cons, Hlead, Hu. reflexivity.
      * rewrite isWellFormed_cons, Hlead, Hu. exact IHvt.
Qed.

Lemma trim_wellFormed s :
  isWellFormed s = true -> isWellFormed (trim s) = true.
Proof. intros Hs. now apply trimEnd_wellFormed, trimStart_wellFormed. Qed.

Lemma isCodeUnits_forall s :
  isCodeUnits s = true <-> Forall (fun u => 0 <= u <= 0xFFFF) s.
Proof.
  unfold isCodeUnits. rewrite forallb_forall, Forall_forall.
  split; intros Hs u Hu.
  - apply list_elem_of_In, Hs in Hu. lia.
  - apply list_elem_of_In, Hs in Hu. lia.
Qed.

Lemma trimStart_suffix s : exists p, s = p ++ trimStart s.
Proof.
  induction s as [|u t [p IH]]; [now exists []|]. cbn [trimStart].
  destruct (isWhiteSpace u).
  - exists (u :: p). cbn [app]. now rewrite <- IH.
  - now exists [].
Qed.

Lemma trimEnd_prefix s : exists q, s = trimEnd s ++ q.
Proof.
  induction s as [|u t [q IH]]; [now exists []|]. rewrite trimEnd_cons.
  destruct (trimEnd t) as [|v t'] eqn:Ht.
  - destruct (isWhiteSpace u).
    + now exists (u :: t).
    + exists q. cbn [app] in *. now rewrite <- IH.
  - exists q. cbn [app] in *. now rewrite <- IH.
Qed.

Lemma trim_codeUnits s : isCodeUnits s = true -> isCodeUnits (trim s) = true.
Proof.
  rewrite !isCodeUnits_forall. intros Hs. unfold trim.
  destruct (trimStart_suffix s) as [p Hp].
  destruct (trimEnd_prefix (trimStart s)) as [q Hq].
  rewrite Hp, Hq in Hs.
  now apply Forall_app in Hs as [_ [Hs _]%Forall_app].
Qed.

Lemma trim_whitespace s : forallb isWhiteSpace s = true -> trim s = [].
Proof.
  unfold trim. induction s as [|u t IH]; [reflexivity|].
  cbn [forallb trimStart]. intros [Hu Ht]%andb_true_iff.
  rewrite Hu. now apply IH.
Qed.

(** The record the generator builds has the two names and the trimmed
    values, as scalar value strings. *)
Lemma verification_params_pairs a c :
  verification_params a c
  = [(str "address", toUSVString (trim a));
     (str "credentialId", toUSVString (trim c))].
Proof. reflexivity. Qed.

Lemma verification_params_scalars a c :
  isCodeUnits a = true -> isCodeUnits c = true ->
  isScalarPairs (verification_params a c) = true.
Proof.
  intros Ha Hc. rewrite verification_params_pairs.
  cbn [isScalarPairs forallb fst snd].
  rewrite !toUSVString_scalars by now apply trim_codeUnits.
  reflexivity.
Qed.

(** With a valid wallet address and a non-empty credential id the generator
    returns the origin, [/verify?] and the serialized parameters. *)
Lemma generateVerificationUrl_valid window a c baseUrl :
  isValidWalletAddress a = true -> c <> [] ->
  generateVerificationUrl window a c baseUrl
  = Normal (or_else baseUrl (location_origin window) ++ str "/verify?"
              ++ URLSearchParams_toString (verification_params a c)).
Proof.
  intros Ha Hc. unfold generateVerificationUrl.
  destruct (isValidWalletAddress_nonempty a Ha) as [Hane _].
  destruct a as [|ua ta]; [congruence|]. destruct c as [|uc tc]; [congruence|].
  now rewrite isValidWalletAddress_trim, Ha.
Qed.

Lemma hasNoQueryNorFragment_forall s :
  hasNoQueryNorFragment s = true ->
  Forall (fun b => b <> chr "#") s /\ Forall (fun b => b <> chr "?") s.
Proof.
  unfold hasNoQueryNorFragment. rewrite forallb_forall.
  intros Hs. split; apply Forall_forall; intros b Hb;
    apply list_elem_of_In, Hs in Hb; lia.
Qed.

(** The [search] of the generated link is [?] and the serialized
    parameters. *)
Lemma search_of_verification_url origin a c :
  hasNoQueryNorFragment origin = true ->
  isCodeUnits a = true -> isCodeUnits c = true ->
  search_of_href (origin ++ str "/verify?"
                    ++ URLSearchParams_toString (verification_params a c))
  = chr "?" :: URLSearchParams_toString (verification_params a c).
Proof.
  intros Ho Ha Hc. destruct (hasNoQueryNorFragment_forall _ Ho) as [Hh Hq].
  destruct (urlencoded_serialize_text _ (verification_params_scalars a c Ha Hc))
    as (_ & Sh & _).
  change (str "/verify?" ++ URLSearchParams_toString (verification_params a c))
    with (str "/verify" ++ chr "?"
            :: URLSearchParams_toString (verification_params a c)).
  apply search_of_href_query.
  - apply Forall_app. split; [exact Hh|]. repeat constructor; discriminate.
  - apply Forall_app. split; [exact Hq|]. repeat constructor; discriminate.
  - exact Sh.
  - rewrite verification_params_pairs. unfold URLSearchParams_toString.
    cbn [urlencoded_serialize]. intros Hnil.
    apply app_eq_nil in Hnil as [_ Hnil]. discriminate.
Qed.

Lemma URLSearchParams_get_verification_params a c :
  URLSearchParams_get (verification_params a c) (str "address")
  = Some (fromUSVString (toUSVString (trim a)))
  /\ URLSearchParams_get (verification_params a c) (str "credentialId")
     = Some (fromUSVString (toUSVString (trim c)))
  /\ URLSearchParams_get (verification_params a c) (str "type") = None
  /\ URLSearchParams_get (verification_params a c) (str "issuer") = None.
Proof.
  rewrite verification_params_pairs. unfold URLSearchParams_get.
  split; [|split; [|split]]; reflexivity.
Qed.

Lemma Normal_inj {A : Type} (x y : A) : Normal x = Normal y -> x = y.
Proof. congruence. Qed.

Lemma or_undefined_nonempty s : s <> [] -> or_undefined (Some s) = Some s.
Proof. now destruct s. Qed.

(** What [parseUrlParams] reads at the generated link, for strings of
    16-bit code units. *)
Lemma parseUrlParams_of_verification_url origin a c w :
  hasNoQueryNorFragment origin = true ->
  isCodeUnits a = true -> isCodeUnits c = true ->
  location_search w
  = search_of_href (origin ++ str "/verify?"
                      ++ URLSearchParams_toString (verification_params a c)) ->
  parseUrlParams (Some w)
  = {| CredentialParams.address :=
         or_undefined (Some (fromUSVString (toUSVString (trim a))));
       CredentialParams.credentialId :=
         or_undefined (Some (fromUSVString (toUSVString (trim c))));
       CredentialParams.type := None;
       CredentialParams.issuer := None |}.
Proof.
  intros Ho Ha Hc Hw. unfold parseUrlParams. rewrite Hw.
  rewrite search_of_verification_url by assumption.
  rewrite URLSearchParams_of_string_toString
    by now apply verification_params_scalars.
  destruct (URLSearchParams_get_verification_params a c)
    as (-> & -> & -> & ->).
  reflexivity.
Qed.

(** C1, as the code has it.  For a wallet address and a credential id that
    pass their validators and hold no unpaired surrogate, the link is
    generated, and [parseUrlParams] at that link reads the two values
    trimmed: [address] is [a.trim()], [credentialId] is [c.trim()]. *)
Theorem verification_url_round_trip (window : Window) (a c : jsstring)
    (baseUrl : option jsstring) :
  hasNoQueryNorFragment (or_else baseUrl (location_origin window)) = true ->
  isValidWalletAddress a = true ->
  isValidCredentialId c = true ->
  isWellFormed a = true ->
  isWellFormed c = true ->
  exists url,
    generateVerificationUrl window a c baseUrl = Normal url
    /\ forall w, location_search w = search_of_href url ->
         parseUrlParams (Some w)
         = {| CredentialParams.address := Some (trim a);
              CredentialParams.credentialId := Some (trim c);
              CredentialParams.type := None;
              CredentialParams.issuer := None |}.
Proof.
  intros Ho Ha Hc Wa Wc.
  destruct (isValidWalletAddress_nonempty a Ha) as [_ Hta].
  destruct (isValidCredentialId_nonempty c Hc) as [Hcne Htc].
  eexists. split; [now apply generateVerificationUrl_valid|].
  intros w Hw.
  rewrite (parseUrlParams_of_verification_url _ a c w Ho) by
    (try apply isWellFormed_isCodeUnits; assumption).
  rewrite !fromUSVString_toUSVString by now apply trim_wellFormed.
  now rewrite !or_undefined_nonempty by assumption.
Qed.

Lemma generateVerificationUrl_missing window a c baseUrl :
  a = [] \/ c = [] ->
  generateVerificationUrl window a c baseUrl = Throw MissingField.
Proof.
  unfold generateVerificationUrl. intros [-> | ->]; [reflexivity|].
  now destruct a.
Qed.

(** C4.  The generator throws "Wallet address and credential ID are
    required" when an argument is empty, "Invalid wallet address format"
    when the trimmed address fails the validator, and returns a link for a
    valid address with any non-empty credential id. *)
Theorem generateVerificationUrl_failures (window : Window)
    (a c : jsstring) (baseUrl : option jsstring) :
  (a = [] \/ c = [] ->
   generateVerificationUrl window a c baseUrl = Throw MissingField)
  /\ (a <> [] -> c <> [] -> isValidWalletAddress (trim a) = false ->
      generateVerificationUrl window a c baseUrl = Throw InvalidWalletAddress)
  /\ (isValidWalletAddress a = true -> c <> [] ->
      generateVerificationUrl window a c baseUrl
      = Normal (or_else baseUrl (location_origin window) ++ str "/verify?"
                  ++ URLSearchParams_toString (verification_params a c))).
Proof.
  split; [|split].
  - apply generateVerificationUrl_missing.
  - intros Ha Hc Hbad. unfold generateVerificationUrl.
    destruct a as [|ua ta]; [congruence|]. destruct c as [|uc tc]; [congruence|].
    now rewrite Hbad.
  - apply generateVerificationUrl_valid.
Qed.

Lemma whitespace_isCodeUnits s :
  forallb isWhiteSpace s = true -> isCodeUnits s = true.
Proof.
  unfold isCodeUnits. rewrite !forallb_forall. intros Hs u Hu.
  apply Hs in Hu. unfold isWhiteSpace in Hu. lia.
Qed.

(** C10.  "Wallet address and credential ID are required" is thrown only
    for an empty argument.  With a valid wallet address and a credential
    id made of whitespace only, the link is returned; it ends with
    [&credentialId=], and its parameter [credentialId] is the empty
    string. *)
Theorem whitespace_credentialId_passes (window : Window)
    (a c : jsstring) (baseUrl : option jsstring) :
  (generateVerificationUrl window a c baseUrl = Throw MissingField
   <-> a = [] \/ c = [])
  /\ (isValidWalletAddress a = true -> c <> [] ->
      forallb isWhiteSpace c = true ->
      generateVerificationUrl window a c baseUrl
      = Normal (or_else baseUrl (location_origin window)
                  ++ str "/verify?address="
                  ++ urlencoded_string (toUSVString (trim a))
                  ++ str "&credentialId=")
      /\ (isCodeUnits a = true ->
          hasNoQueryNorFragment (or_else baseUrl (location_origin window))
          = true ->
          forall url,
            generateVerificationUrl window a c baseUrl = Normal url ->
            URLSearchParams_get
              (URLSearchParams_of_string (search_of_href url))
              (str "credentialId")
            = Some [])).
Proof.
  split.
  - split.
    + unfold generateVerificationUrl.
      destruct a as [|ua ta]; [now left|]. destruct c as [|uc tc]; [now right|].
      destruct (negb _); discriminate.
    + apply generateVerificationUrl_missing.
  - intros Ha Hc Hws.
    pose proof (generateVerificationUrl_valid window a c baseUrl Ha Hc) as Hgen.
    split.
    + rewrite Hgen, verification_params_pairs, (trim_whitespace c Hws).
      unfold URLSearchParams_toString. cbn [urlencoded_serialize].
      change (urlencoded_string (str "address")) with (str "address").
      change (urlencoded_string (str "credentialId")) with (str "credentialId").
      change (toUSVString []) with (@nil Z).
      change (urlencoded_string []) with (@nil Z).
      do 2 f_equal.
    + intros Hcu Ho url Hurl. rewrite Hgen in Hurl.
      apply Normal_inj in Hurl. rewrite <- Hurl.
      rewrite search_of_verification_url;
        [|assumption|assumption|now apply whitespace_isCodeUnits].
      rewrite URLSearchParams_of_string_toString
        by (apply verification_params_scalars;
            [assumption | now apply whitespace_isCodeUnits]).
      destruct (URLSearchParams_get_verification_params a c)
        as (_ & -> & _).
      now rewrite (trim_whitespace c Hws).
Qed.

(** ** Request lifecycle *)

Section Lifecycle.

Implicit Types (ls : localStorage) (requests : list CredentialRequest.t).

Lemma approve_not_found o requestId metadata ls :
  findRequest requestId (requests_of ls) = None ->
  approveCredentialRequest o requestId metadata ls = (Throw RequestNotFound, ls).
Proof.
  intros Hnone. unfold approveCredentialRequest, getCredentialRequests.
  js_unfold. fold (requests_of ls). now rewrite Hnone.
Qed.

Lemma approve_not_pending o requestId metadata ls i request :
  findRequest requestId (requests_of ls) = Some (i, request) ->
  CredentialRequest.status request <> pending ->
  approveCredentialRequest o requestId metadata ls = (Throw RequestNotPending, ls).
Proof.
  intros Hfind Hst. unfold approveCredentialRequest, getCredentialRequests.
  js_unfold. fold (requests_of ls). rewrite Hfind.
  now rewrite bool_decide_eq_true_2.
Qed.

Lemma reject_not_found requestId note ls :
  findRequest requestId (requests_of ls) = None ->
  rejectCredentialRequest requestId note ls = (Throw RequestNotFound, ls).
Proof.
  intros Hnone. unfold rejectCredentialRequest, getCredentialRequests.
  js_unfold. fold (requests_of ls). now rewrite Hnone.
Qed.

Lemma reject_not_pending requestId note ls i request :
  findRequest requestId (requests_of ls) = Some (i, request) ->
  CredentialRequest.status request <> pending ->
  rejectCredentialRequest requestId note ls = (Throw RequestNotPending, ls).
Proof.
  intros Hfind Hst. unfold rejectCredentialRequest, getCredentialRequests.
  js_unfold. fold (requests_of ls). rewrite Hfind.
  now rewrite bool_decide_eq_true_2.
Qed.

Lemma approve_pending o requestId metadata ls i request :
  findRequest requestId (requests_of ls) = Some (i, request) ->
  CredentialRequest.status request = pending ->
  approveCredentialRequest o requestId metadata ls
  = (Normal (CredentialRequest.with_status request approved
               (CredentialRequest.rejectionNote request),
             credential_for o request),
     approved_store o i request ls).
Proof.
  intros Hfind Hst. unfold approveCredentialRequest, getCredentialRequests.
  js_unfold. fold (requests_of ls). rewrite Hfind.
  rewrite bool_decide_eq_false_2 by (rewrite Hst; tauto).
  unfold saveIssuedCredential, getIssuedCredentials. js_unfold. cbn.
  f_equal. f_equal. f_equal.
  apply list_find_Some in Hfind as (Hi & _ & _).
  rewrite list_lookup_insert_eq by (eapply lookup_lt_Some; eassumption).
  reflexivity.
Qed.

Lemma reject_pending requestId note ls i request :
  findRequest requestId (requests_of ls) = Some (i, request) ->
  CredentialRequest.status request = pending ->
  let updated :=
    CredentialRequest.with_status request rejected
      (Some (or_else note (str "Request was rejected"))) in
  rejectCredentialRequest requestId note ls
  = (Normal updated,
     set_credential_requests (Json (<[i := updated]> (requests_of ls))) ls).
Proof.
  intros Hfind Hst. unfold rejectCredentialRequest, getCredentialRequests.
  js_unfold. fold (requests_of ls). rewrite Hfind.
  rewrite bool_decide_eq_false_2 by (rewrite Hst; tauto).
  cbn. f_equal. f_equal.
  apply list_find_Some in Hfind as (Hi & _ & _).
  rewrite list_lookup_insert_eq by (eapply lookup_lt_Some; eassumption).
  reflexivity.
Qed.

(** A request whose id is new sits at the end and is the one found. *)
Lemma findRequest_fresh requests request :
  (forall r, r ∈ requests -> CredentialRequest.id r <> CredentialRequest.id request) ->
  findRequest (CredentialRequest.id request) (requests ++ [request])
  = Some (length requests, request).
Proof.
  intros Hfresh. unfold findRequest.
  apply list_find_Some. split; [|split].
  - rewrite lookup_app_r by lia. now rewrite Nat.sub_diag.
  - reflexivity.
  - intros j y Hy Hj. rewrite lookup_app_l in Hy by lia.
    apply Hfresh. eapply list_elem_of_lookup_2; eassumption.
Qed.

Lemma findRequest_absent requestId requests :
  (forall r, r ∈ requests -> CredentialRequest.id r <> requestId) ->
  findRequest requestId requests = None.
Proof.
  intros Habsent. unfold findRequest. apply list_find_None.
  apply Forall_forall. exact Habsent.
Qed.

(** C2.  A submitted request is pending; one approval succeeds and appends
    one credential of status [issued]; after it, approving or rejecting the
    same id fails with "Request is not pending".  The id the request gets
    is assumed new among the stored requests. *)
Theorem request_lifecycle_terminal (o1 o2 : Oracle) (new : NewRequest.t)
    (metadata : ApprovalMetadata) ls :
  let requestId := str "req_" ++ Date_now o1 ++ str "_" ++ Math_random_tail o1 in
  (forall r, r ∈ requests_of ls -> CredentialRequest.id r <> requestId) ->
  exists request ls1 approved_request credential ls2,
    submitCredentialRequest o1 new ls = (Normal request, ls1)
    /\ CredentialRequest.id request = requestId
    /\ CredentialRequest.status request = pending
    /\ requests_of ls1 = requests_of ls ++ [request]
    /\ credentials_of ls1 = credentials_of ls
    /\ approveCredentialRequest o2 requestId metadata ls1
       = (Normal (approved_request, credential), ls2)
    /\ CredentialRequest.status approved_request = approved
    /\ IssuedCredential.status credential = issued
    /\ credentials_of ls2 = credentials_of ls ++ [credential]
    /\ (forall o3 metadata',
          approveCredentialRequest o3 requestId metadata' ls2
          = (Throw RequestNotPending, ls2))
    /\ (forall note,
          rejectCredentialRequest requestId note ls2
          = (Throw RequestNotPending, ls2)).
Proof.
  intros requestId Hfresh.
  unfold submitCredentialRequest, getCredentialRequests. js_unfold.
  fold (requests_of ls). cbn beta iota.
  match goal with
  | |- context [(Normal ?r, set_credential_requests _ ls)] => set (request := r)
  end.
  set (ls1 := set_credential_requests (Json (requests_of ls ++ [request])) ls).
  assert (Hid : CredentialRequest.id request = requestId) by reflexivity.
  assert (Hfind : findRequest requestId (requests_of ls1)
                  = Some (length (requests_of ls), request)).
  { rewrite <- Hid. apply findRequest_fresh. now rewrite Hid. }
  set (done := CredentialRequest.with_status request approved
                 (CredentialRequest.rejectionNote request)).
  assert (Hfind2 : findRequest requestId
                     (requests_of (approved_store o2 (length (requests_of ls)) request ls1))
                   = Some (length (requests_of ls), done)).
  { assert (Hreq2 : requests_of (approved_store o2 (length (requests_of ls)) request ls1)
                     = requests_of ls ++ [done]).
    { change (requests_of (approved_store o2 (length (requests_of ls)) request ls1))
        with (<[length (requests_of ls) := done]> (requests_of ls ++ [request])).
      replace (length (requests_of ls)) with (length (requests_of ls) + 0)%nat at 1
        by lia.
      now rewrite insert_app_r. }
    rewrite Hreq2. change requestId with (CredentialRequest.id done).
    apply findRequest_fresh. exact Hfresh. }
  exists request, ls1, done, (credential_for o2 request),
    (approved_store o2 (length (requests_of ls)) request ls1).
  repeat split; try reflexivity.
  - apply approve_pending; [exact Hfind | reflexivity].
  - intros o3 metadata'. eapply approve_not_pending; [exact Hfind2 | discriminate].
  - intros note. eapply reject_not_pending; [exact Hfind2 | discriminate].
Qed.

(** C9.  When approval or rejection throws, the store is the one before the
    call: the error is "Request not found" or "Request is not pending" and
    precedes every write. *)
Theorem lifecycle_errors_write_nothing o requestId metadata note ls :
  (forall e ls',
      approveCredentialRequest o requestId metadata ls = (Throw e, ls') ->
      ls' = ls /\ (e = RequestNotFound \/ e = RequestNotPending))
  /\ (forall e ls',
        rejectCredentialRequest requestId note ls = (Throw e, ls') ->
        ls' = ls /\ (e = RequestNotFound \/ e = RequestNotPending))
  /\ ((forall r, r ∈ requests_of ls -> CredentialRequest.id r <> requestId) ->
      approveCredentialRequest o requestId metadata ls
      = (Throw RequestNotFound, ls)
      /\ rejectCredentialRequest requestId note ls
         = (Throw RequestNotFound, ls))
  /\ (forall i request,
        findRequest requestId (requests_of ls) = Some (i, request) ->
        CredentialRequest.status request <> pending ->
        approveCredentialRequest o requestId metadata ls
        = (Throw RequestNotPending, ls)
        /\ rejectCredentialRequest requestId note ls
           = (Throw RequestNotPending, ls)).
Proof.
  split; [|split; [|split]].
  - intros e ls' Hthrow.
    destruct (findRequest requestId (requests_of ls)) as [[i request]|] eqn:Hfind.
    + destruct (decide (CredentialRequest.status request = pending)) as [Hst|Hst].
      * rewrite (approve_pending _ _ _ _ _ _ Hfind Hst) in Hthrow. discriminate.
      * rewrite (approve_not_pending _ _ _ _ _ _ Hfind Hst) in Hthrow.
        inversion Hthrow. auto.
    + rewrite (approve_not_found _ _ _ _ Hfind) in Hthrow.
      inversion Hthrow. auto.
  - intros e ls' Hthrow.
    destruct (findRequest requestId (requests_of ls)) as [[i request]|] eqn:Hfind.
    + destruct (decide (CredentialRequest.status request = pending)) as [Hst|Hst].
      * rewrite (reject_pending _ _ _ _ _ Hfind Hst) in Hthrow. discriminate.
      * rewrite (reject_not_pending _ _ _ _ _ Hfind Hst) in Hthrow.
        inversion Hthrow. auto.
    + rewrite (reject_not_found _ _ _ Hfind) in Hthrow.
      inversion Hthrow. auto.
  - intros Habsent. apply findRequest_absent in Habsent.
    split; [now apply approve_not_found | now apply reject_not_found].
  - intros i request Hfind Hst.
    split; [eapply approve_not_pending | eapply reject_not_pending]; eassumption.
Qed.

End Lifecycle.

(** ** Identity store *)

Section Registry.

Context `{StringPrototype}.

Implicit Types (ls : localStorage) (users : list StoredUser.t)
  (u user : StoredUser.t) (profile : UserProfile.t).

Lemma find_same_email_none email users :
  (forall u, u ∈ users ->
             toLowerCase (StoredUser.email u) <> toLowerCase email) ->
  find (same_email email) users = None.
Proof.
  induction users as [|v users IH]; intros Hno; [reflexivity|].
  cbn. unfold same_email at 1.
  rewrite bool_decide_eq_false_2 by (apply Hno; left).
  apply IH. intros u Hu. apply Hno. now right.
Qed.

Lemma find_same_email_first email l1 u l2 :
  (forall v, v ∈ l1 ->
             toLowerCase (StoredUser.email v) <> toLowerCase email) ->
  toLowerCase (StoredUser.email u) = toLowerCase email ->
  find (same_email email) (l1 ++ u :: l2) = Some u.
Proof.
  induction l1 as [|v l1 IH]; intros Hno Hu; cbn.
  - unfold same_email. now rewrite bool_decide_eq_true_2.
  - unfold same_email at 1.
    rewrite bool_decide_eq_false_2 by (apply Hno; left).
    apply IH; [|exact Hu]. intros w Hw. apply Hno. now right.
Qed.

Lemma find_same_email_cases email users :
  (find (same_email email) users = None
   /\ forall u, u ∈ users ->
                toLowerCase (StoredUser.email u) <> toLowerCase email)
  \/ (exists u, find (same_email email) users = Some u /\ u ∈ users
                /\ toLowerCase (StoredUser.email u) = toLowerCase email).
Proof.
  induction users as [|v users IH]; cbn.
  - left. split; [reflexivity|]. intros u Hu. inversion Hu.
  - unfold same_email at 1 3. case_bool_decide as Hv.
    + right. exists v. repeat split; [left | exact Hv].
    + destruct IH as [[Hnone Hno] | (u & Hsome & Hin & Hu)].
      * left. split; [exact Hnone|]. intros u Hu.
        apply elem_of_cons in Hu as [->|Hu]; [exact Hv | now apply Hno].
      * right. exists u. repeat split; [exact Hsome | now right | exact Hu].
Qed.

Lemma filter_other_emails user users :
  (forall u, u ∈ users ->
             toLowerCase (StoredUser.email u)
             <> toLowerCase (StoredUser.email user)) ->
  filter (fun u => StoredUser.email u <> StoredUser.email user) users = users.
Proof.
  induction users as [|v users IH]; intros Hno; [reflexivity|].
  rewrite filter_cons_True.
  - f_equal. apply IH. intros u Hu. apply Hno. now right.
  - intros Heq. apply (Hno v); [left|]. now rewrite Heq.
Qed.

Lemma registerProfile_duplicate profile ls u :
  find (same_email (UserProfile.email profile)) (users_of ls) = Some u ->
  registerProfile profile ls = (Throw DuplicateUser, ls).
Proof.
  intros Hfind. unfold registerProfile, findUserByEmail, getRegisteredUsers.
  js_unfold. fold (users_of ls).
  fold (same_email (UserProfile.email profile)). now rewrite Hfind.
Qed.

Lemma registerProfile_new profile ls :
  (forall u, u ∈ users_of ls ->
             toLowerCase (StoredUser.email u)
             <> toLowerCase (UserProfile.email profile)) ->
  registerProfile profile ls
  = (Normal profile,
     set_registered_users (Json (users_of ls ++ [stored_of profile])) ls).
Proof.
  intros Hno. unfold registerProfile, findUserByEmail, getRegisteredUsers.
  js_unfold. fold (users_of ls).
  fold (same_email (UserProfile.email profile)).
  rewrite (find_same_email_none _ _ Hno).
  unfold saveToRegisteredUsers, getRegisteredUsers. js_unfold.
  fold (users_of ls). cbn beta iota.
  rewrite (filter_other_emails (stored_of profile)) by exact Hno.
  reflexivity.
Qed.

Lemma registerProfile_keeps_unique profile ls :
  unique_emails ls -> unique_emails (registerProfile profile ls).2.
Proof.
  intros Huniq.
  destruct (find_same_email_cases (UserProfile.email profile) (users_of ls))
    as [[_ Hno] | (u & Hsome & _)].
  - rewrite (registerProfile_new _ _ Hno). unfold unique_emails. cbn.
    rewrite map_app. apply NoDup_app. split; [exact Huniq|]. split.
    + intros x Hx Hx'. apply list_elem_of_singleton in Hx'. subst x.
      apply list_elem_of_fmap in Hx as (u & Hu & Hin).
      apply (Hno u Hin). first [exact Hu | symmetry; exact Hu].
    + apply NoDup_singleton.
  - now rewrite (registerProfile_duplicate _ _ _ Hsome).
Qed.

Lemma registerProfile_taken profile ls u :
  u ∈ users_of ls ->
  toLowerCase (StoredUser.email u) = toLowerCase (UserProfile.email profile) ->
  registerProfile profile ls = (Throw DuplicateUser, ls).
Proof.
  intros Hin Hu.
  destruct (find_same_email_cases (UserProfile.email profile) (users_of ls))
    as [[_ Hno] | (v & Hsome & _)].
  - destruct (Hno u Hin Hu).
  - exact (registerProfile_duplicate _ _ _ Hsome).
Qed.

Lemma registerProfile_without_login profile ls :
  registers_without_login (registerProfile profile) profile ls.
Proof.
  unfold registers_without_login.
  destruct (find_same_email_cases (UserProfile.email profile) (users_of ls))
    as [[_ Hno] | (u & Hsome & Hin & Hu)].
  - rewrite (registerProfile_new _ _ Hno). cbn. auto.
  - rewrite (registerProfile_duplicate _ _ _ Hsome). cbn.
    repeat split; try reflexivity. exists u. auto.
Qed.

Lemma find_email_and_wallet_none email walletAddress users :
  (forall u, u ∈ users ->
             toLowerCase (StoredUser.email u) = toLowerCase email ->
             StoredUser.walletAddress u <> walletAddress) ->
  find (fun user =>
          bool_decide (toLowerCase (StoredUser.email user) = toLowerCase email)
          && bool_decide (StoredUser.walletAddress user = walletAddress))
       users = None.
Proof.
  induction users as [|v users IH]; intros Hno; [reflexivity|].
  cbn. case_bool_decide as Hv; cbn.
  - rewrite bool_decide_eq_false_2 by (apply Hno; [left | exact Hv]).
    apply IH. intros u Hu. apply Hno. now right.
  - apply IH. intros u Hu. apply Hno. now right.
Qed.

Lemma signInStudent_no_match email walletAddress ls :
  isValidEmail email = true ->
  isValidWallet walletAddress = true ->
  (forall u, u ∈ users_of ls ->
             toLowerCase (StoredUser.email u) = toLowerCase email ->
             StoredUser.walletAddress u <> walletAddress) ->
  signInStudent {| signin_email := email;
                   signin_walletAddress := walletAddress |} ls
  = (Normal None, ls).
Proof.
  intros He Hw Hno. unfold signInStudent. cbn [signin_email signin_walletAddress].
  rewrite He, Hw. cbn [negb].
  unfold findUserByEmailAndWallet, getRegisteredUsers. js_unfold.
  fold (users_of ls). now rewrite (find_email_and_wallet_none _ _ _ Hno).
Qed.

Lemma openSession_role wanted u ls :
  (StoredUser.role u = wanted ->
   openSession wanted (Some u) ls
   = (Normal (Some (profile_of u)), set_user_profile (Json (profile_of u)) ls))
  /\ (StoredUser.role u <> wanted ->
      openSession wanted (Some u) ls = (Normal None, ls)).
Proof.
  unfold openSession, saveUserProfile. js_unfold. split; intros Hrole.
  - now rewrite bool_decide_eq_false_2 by tauto.
  - now rewrite bool_decide_eq_true_2.
Qed.

Lemma signInStaff_first_match email l1 u l2 ls :
  isValidEmail email = true ->
  users_of ls = l1 ++ u :: l2 ->
  (forall v, v ∈ l1 ->
             toLowerCase (StoredUser.email v) <> toLowerCase email) ->
  toLowerCase (StoredUser.email u) = toLowerCase email ->
  signInStaff {| staff_signin_email := email |} ls
  = openSession staff (Some u) ls.
Proof.
  intros He Husers Hno Hu. unfold signInStaff. cbn [staff_signin_email].
  rewrite He. cbn [negb]. unfold findUserByEmail, getRegisteredUsers.
  js_unfold. fold (users_of ls). fold (same_email email). rewrite Husers.
  now rewrite (find_same_email_first _ _ _ _ Hno Hu).
Qed.

Lemma signInIssuer_first_match email l1 u l2 ls :
  isValidEmail email = true ->
  users_of ls = l1 ++ u :: l2 ->
  (forall v, v ∈ l1 ->
             toLowerCase (StoredUser.email v) <> toLowerCase email) ->
  toLowerCase (StoredUser.email u) = toLowerCase email ->
  signInIssuer {| issuer_signin_email := email |} ls
  = openSession issuer (Some u) ls.
Proof.
  intros He Husers Hno Hu. unfold signInIssuer. cbn [issuer_signin_email].
  rewrite He. cbn [negb]. unfold findUserByEmail, getRegisteredUsers.
  js_unfold. fold (users_of ls). fold (same_email email). rewrite Husers.
  now rewrite (find_same_email_first _ _ _ _ Hno Hu).
Qed.

Lemma signInStudent_malformed data ls :
  (isValidEmail (signin_email data) = false ->
   signInStudent data ls = (Throw InvalidEmail, ls))
  /\ (isValidEmail (signin_email data) = true ->
      isValidWallet (signin_walletAddress data) = false ->
      signInStudent data ls = (Throw InvalidWalletAddress, ls)).
Proof.
  unfold signInStudent. split.
  - now intros ->.
  - now intros -> ->.
Qed.

(** C3.  Each registration keeps the registry at one user per lower-cased
    email at most, and fails with "User with this email already exists",
    writing nothing, when a stored email is equal up to letter case. *)
Theorem registration_keeps_emails_unique (o : Oracle)
    (s : StudentRegistration) (f : StaffRegistration)
    (i : IssuerRegistration) ls :
  (unique_emails ls ->
   unique_emails (registerStudent o s ls).2
   /\ unique_emails (registerStaff o f ls).2
   /\ unique_emails (registerIssuer o i ls).2)
  /\ (forall u, u ∈ users_of ls ->
        (toLowerCase (StoredUser.email u) = toLowerCase (student_email s) ->
         registerStudent o s ls = (Throw DuplicateUser, ls))
        /\ (toLowerCase (StoredUser.email u) = toLowerCase (staff_email f) ->
            registerStaff o f ls = (Throw DuplicateUser, ls))
        /\ (toLowerCase (StoredUser.email u) = toLowerCase (issuer_email i) ->
            registerIssuer o i ls = (Throw DuplicateUser, ls))).
Proof.
  split.
  - intros Huniq. repeat split; now apply registerProfile_keeps_unique.
  - intros u Hin. split; [|split]; intros Hu;
      eapply registerProfile_taken; [exact Hin | exact Hu | exact Hin | exact Hu
                                    | exact Hin | exact Hu].
Qed.

(** C6.  No registration opens a session: the session slot, and so what
    [getCurrentUser] returns, is the same after the call; the new profile
    is returned and appended to the registry (or the email is taken and
    nothing is written). *)
Theorem registration_does_not_log_in (o : Oracle)
    (s : StudentRegistration) (f : StaffRegistration)
    (i : IssuerRegistration) ls :
  registers_without_login (registerStudent o s) (student_profile o s) ls
  /\ registers_without_login (registerStaff o f) (staff_profile o f) ls
  /\ registers_without_login (registerIssuer o i) (issuer_profile o i) ls.
Proof.
  repeat split; apply registerProfile_without_login.
Qed.

(** C5, as the code has it.  With a well-formed email and a well-formed
    wallet address, [signInStudent] returns [null] and writes nothing when
    no stored user has both that email and that wallet address; with a
    malformed email or wallet address it throws.  [signInStaff] and
    [signInIssuer] take no wallet address: they take the first stored user
    of that email and look at nothing but its role. *)
Theorem signIn_mismatch_is_null ls :
  (forall email walletAddress,
      isValidEmail email = true ->
      isValidWallet walletAddress = true ->
      (forall u, u ∈ users_of ls ->
                 toLowerCase (StoredUser.email u) = toLowerCase email ->
                 StoredUser.walletAddress u <> walletAddress) ->
      signInStudent {| signin_email := email;
                       signin_walletAddress := walletAddress |} ls
      = (Normal None, ls))
  /\ (forall email l1 u l2,
        isValidEmail email = true ->
        users_of ls = l1 ++ u :: l2 ->
        (forall v, v ∈ l1 ->
                   toLowerCase (StoredUser.email v) <> toLowerCase email) ->
        toLowerCase (StoredUser.email u) = toLowerCase email ->
        (StoredUser.role u = staff ->
         signInStaff {| staff_signin_email := email |} ls
         = (Normal (Some (profile_of u)),
            set_user_profile (Json (profile_of u)) ls))
        /\ (StoredUser.role u <> staff ->
            signInStaff {| staff_signin_email := email |} ls
            = (Normal None, ls))
        /\ (StoredUser.role u = issuer ->
            signInIssuer {| issuer_signin_email := email |} ls
            = (Normal (Some (profile_of u)),
               set_user_profile (Json (profile_of u)) ls))
        /\ (StoredUser.role u <> issuer ->
            signInIssuer {| issuer_signin_email := email |} ls
            = (Normal None, ls)))
  /\ (forall data,
        (isValidEmail (signin_email data) = false ->
         signInStudent data ls = (Throw InvalidEmail, ls))
        /\ (isValidEmail (signin_email data) = true ->
            isValidWallet (signin_walletAddress data) = false ->
            signInStudent data ls = (Throw InvalidWalletAddress, ls))).
Proof.
  split; [|split].
  - intros email walletAddress. apply signInStudent_no_match.
  - intros email l1 u l2 He Husers Hno Hu.
    rewrite (signInStaff_first_match _ _ _ _ _ He Husers Hno Hu).
    rewrite (signInIssuer_first_match _ _ _ _ _ He Husers Hno Hu).
    destruct (openSession_role staff u ls), (openSession_role issuer u ls).
    auto.
  - intros data. apply signInStudent_malformed.
Qed.

End Registry.

(* ===================================================================== *)
(** * The properties on sample data *)
(* ===================================================================== *)

(** C1 as the specification words it fails in two ways.  A padded address
    passes the validator and the link carries it trimmed; and an unpaired
    surrogate, which [URLSearchParams] (a container of scalar value strings)
    replaces by U+FFFD, does not come back either. *)
Lemma round_trip_is_not_exact :
  (isValidWalletAddress (str " 0xAB12") = true
   /\ isValidCredentialId (str "cred_1") = true
   /\ generateVerificationUrl sample_window (str " 0xAB12") (str "cred_1") None
      = Normal (str "https://credvault.app/verify?address=0xAB12&credentialId=cred_1")
   /\ CredentialParams.address
        (parseUrlParams
           (Some (window_at
                    (str "https://credvault.app/verify?address=0xAB12&credentialId=cred_1"))))
      = Some (str "0xAB12")
   /\ Some (str "0xAB12") <> Some (str " 0xAB12"))
  /\ (isValidWalletAddress (str "abcde" ++ [0xD800]) = true
      /\ isValidCredentialId (str "cred_1") = true
      /\ trim (str "abcde" ++ [0xD800]) = str "abcde" ++ [0xD800]
      /\ generateVerificationUrl sample_window (str "abcde" ++ [0xD800])
           (str "cred_1") None
         = Normal (str "https://credvault.app/verify?address=abcde%EF%BF%BD&credentialId=cred_1")
      /\ CredentialParams.address
           (parseUrlParams
              (Some (window_at
                       (str "https://credvault.app/verify?address=abcde%EF%BF%BD&credentialId=cred_1"))))
         = Some (str "abcde" ++ [0xFFFD])
      /\ Some (str "abcde" ++ [0xFFFD]) <> Some (str "abcde" ++ [0xD800])).
Proof. vm_compute. repeat split; discriminate. Qed.

Lemma verification_url_round_trip_sample :
  exists url,
    generateVerificationUrl sample_window (str " 0xAB12 ") (str "cred 1 ") None
    = Normal url
    /\ forall w, location_search w = search_of_href url ->
         parseUrlParams (Some w)
         = {| CredentialParams.address := Some (trim (str " 0xAB12 "));
              CredentialParams.credentialId := Some (trim (str "cred 1 "));
              CredentialParams.type := None;
              CredentialParams.issuer := None |}.
Proof.
  apply (verification_url_round_trip sample_window (str " 0xAB12 ")
           (str "cred 1 ") None); vm_compute; reflexivity.
Defined.

Lemma request_lifecycle_terminal_sample :
  exists request ls1 approved_request credential ls2,
    submitCredentialRequest sample_oracle sample_request empty_store
    = (Normal request, ls1)
    /\ CredentialRequest.id request = str "req_1700000000000_k3j9x0q2a"
    /\ CredentialRequest.status request = pending
    /\ requests_of ls1 = requests_of empty_store ++ [request]
    /\ credentials_of ls1 = credentials_of empty_store
    /\ approveCredentialRequest later_oracle
         (str "req_1700000000000_k3j9x0q2a") no_metadata ls1
       = (Normal (approved_request, credential), ls2)
    /\ CredentialRequest.status approved_request = approved
    /\ IssuedCredential.status credential = issued
    /\ credentials_of ls2 = credentials_of empty_store ++ [credential]
    /\ (forall o3 metadata',
          approveCredentialRequest o3 (str "req_1700000000000_k3j9x0q2a")
            metadata' ls2
          = (Throw RequestNotPending, ls2))
    /\ (forall note,
          rejectCredentialRequest (str "req_1700000000000_k3j9x0q2a") note ls2
          = (Throw RequestNotPending, ls2)).
Proof.
  apply (request_lifecycle_terminal sample_oracle later_oracle sample_request
           no_metadata empty_store).
  intros r Hr. inversion Hr.
Defined.

Lemma lifecycle_errors_write_nothing_sample :
  (approveCredentialRequest sample_oracle (str "req_0") no_metadata empty_store
   = (Throw RequestNotFound, empty_store)
   /\ rejectCredentialRequest (str "req_0") None empty_store
      = (Throw RequestNotFound, empty_store))
  /\ (approveCredentialRequest sample_oracle (str "req_1") no_metadata
        store_with_rejected
      = (Throw RequestNotPending, store_with_rejected)
      /\ rejectCredentialRequest (str "req_1") None store_with_rejected
         = (Throw RequestNotPending, store_with_rejected)).
Proof.
  split.
  - apply (lifecycle_errors_write_nothing sample_oracle (str "req_0")
             no_metadata None empty_store).
    intros r Hr. inversion Hr.
  - apply (proj2 (proj2 (proj2
             (lifecycle_errors_write_nothing sample_oracle (str "req_1")
                no_metadata None store_with_rejected)))
             0%nat rejected_request).
    + reflexivity.
    + discriminate.
Defined.

Lemma registration_keeps_emails_unique_sample :
  unique_emails (H := ascii_platform)
    (registerStudent (H := ascii_platform) sample_oracle
       sample_student_registration empty_store).2
  /\ registerStudent (H := ascii_platform) sample_oracle
       sample_student_registration seeded_store
     = (Throw DuplicateUser, seeded_store)
  /\ registerStaff (H := ascii_platform) sample_oracle
       sample_staff_registration seeded_store
     = (Throw DuplicateUser, seeded_store).
Proof.
  split; [|split].
  - apply (proj1 (registration_keeps_emails_unique (H := ascii_platform)
                    sample_oracle sample_student_registration
                    sample_staff_registration sample_issuer_registration
                    empty_store)).
    apply NoDup_nil_2.
  - refine (proj1 (proj2 (registration_keeps_emails_unique
                            (H := ascii_platform)
                            sample_oracle sample_student_registration
                            sample_staff_registration
                            sample_issuer_registration
                            seeded_store) sample_student _) _);
      [left | reflexivity].
  - refine (proj1 (proj2 (proj2 (registration_keeps_emails_unique
                                   (H := ascii_platform)
                                   sample_oracle sample_student_registration
                                   sample_staff_registration
                                   sample_issuer_registration
                                   seeded_store) sample_staff _)) _);
      [right; left | reflexivity].
Defined.

Lemma generateVerificationUrl_failures_sample :
  generateVerificationUrl sample_window (str "0xAB12") [] None
  = Throw MissingField
  /\ generateVerificationUrl sample_window (str " 0xZZ ") (str "cred_1") None
     = Throw InvalidWalletAddress
  /\ generateVerificationUrl sample_window (str "0xAB12") (str "#1/a b") None
     = Normal (or_else None (location_origin sample_window) ++ str "/verify?"
                 ++ URLSearchParams_toString
                      (verification_params (str "0xAB12") (str "#1/a b"))).
Proof.
  split; [|split].
  - apply (proj1 (generateVerificationUrl_failures sample_window
                    (str "0xAB12") [] None)).
    right. reflexivity.
  - apply (proj1 (proj2 (generateVerificationUrl_failures sample_window
                           (str " 0xZZ ") (str "cred_1") None)));
      [discriminate | discriminate | vm_compute; reflexivity].
  - apply (proj2 (proj2 (generateVerificationUrl_failures sample_window
                           (str "0xAB12") (str "#1/a b") None)));
      [vm_compute; reflexivity | discriminate].
Defined.

(** The link of the last case, and a credential id of 101 characters, which
    [isValidCredentialId] rejects and the generator accepts. *)
Example generateVerificationUrl_any_credentialId :
  generateVerificationUrl sample_window (str "0xAB12") (str "#1/a b") None
  = Normal (str "https://credvault.app/verify?address=0xAB12&credentialId=%231%2Fa+b")
  /\ isValidCredentialId (repeat (chr "a") 101) = false
  /\ exists url,
       generateVerificationUrl sample_window (str "0xAB12")
         (repeat (chr "a") 101) None = Normal url.
Proof. vm_compute. repeat split. eexists. reflexivity. Qed.

(** C5 as the specification words it fails on malformed input.  The email
    is the one of a registered student and the wallet address is not the
    stored one, but it is no wallet address: [signInStudent] throws.  It
    throws as well when the registered email itself is no email address. *)
Lemma signInStudent_throws_on_malformed_input :
  (sample_student ∈ users_of seeded_store
   /\ StoredUser.role sample_student = student
   /\ toLowerCase (StringPrototype := ascii_platform)
        (StoredUser.email sample_student)
      = toLowerCase (StringPrototype := ascii_platform)
          (str "student@test.com")
   /\ StoredUser.walletAddress sample_student <> str "0xZZ"
   /\ signInStudent (H := ascii_platform)
        {| signin_email := str "student@test.com";
           signin_walletAddress := str "0xZZ" |} seeded_store
      = (Throw InvalidWalletAddress, seeded_store)
   /\ signInStudent (H := ascii_platform)
        {| signin_email := str "student@test.com";
           signin_walletAddress := [] |} seeded_store
      = (Throw InvalidWalletAddress, seeded_store))
  /\ (exists u,
        users_of careless_store = [u]
        /\ StoredUser.role u = student
        /\ StoredUser.email u = str "alex"
        /\ StoredUser.walletAddress u <> str "0xAB13"
        /\ signInStudent (H := ascii_platform)
             {| signin_email := str "alex";
                signin_walletAddress := str "0xAB13" |} careless_store
           = (Throw InvalidEmail, careless_store)).
Proof.
  split.
  - split; [left|]. split; [reflexivity|]. split; [reflexivity|].
    split; [discriminate|]. split; reflexivity.
  - eexists. split; [reflexivity|]. split; [reflexivity|].
    split; [reflexivity|]. split; [discriminate | reflexivity].
Qed.

Lemma signIn_mismatch_is_null_sample :
  signInStudent (H := ascii_platform)
    {| signin_email := str "student@test.com";
       signin_walletAddress := str "0xAB12" |} seeded_store
  = (Normal None, seeded_store)
  /\ signInStaff (H := ascii_platform)
       {| staff_signin_email := str "Staff@University.edu" |} seeded_store
     = (Normal (Some (profile_of sample_staff)),
        set_user_profile (Json (profile_of sample_staff)) seeded_store)
  /\ signInIssuer (H := ascii_platform)
       {| issuer_signin_email := str "Staff@University.edu" |} seeded_store
     = (Normal None, seeded_store).
Proof.
  split; [|split].
  - apply (proj1 (signIn_mismatch_is_null (H := ascii_platform) seeded_store));
      [vm_compute; reflexivity | vm_compute; reflexivity |].
    intros u Hu Hemail.
    apply elem_of_cons in Hu as [-> | Hu]; [discriminate|].
    apply list_elem_of_singleton in Hu as ->. discriminate.
  - refine (proj1 (proj1 (proj2 (signIn_mismatch_is_null
                                   (H := ascii_platform) seeded_store))
                     (str "Staff@University.edu") [sample_student]
                     sample_staff [] _ _ _ _) _);
      [vm_compute; reflexivity | reflexivity | | reflexivity | reflexivity].
    intros v Hv. apply list_elem_of_singleton in Hv as ->. discriminate.
  - refine (proj2 (proj2 (proj2 (proj1 (proj2 (signIn_mismatch_is_null
                                          (H := ascii_platform) seeded_store))
                     (str "Staff@University.edu") [sample_student]
                     sample_staff [] _ _ _ _))) _);
      [vm_compute; reflexivity | reflexivity | | reflexivity | discriminate].
    intros v Hv. apply list_elem_of_singleton in Hv as ->. discriminate.
Defined.

Lemma sanitizeUrlForDisplay_bounds_sample :
  (Z.of_nat (length (str "abcdefghij")) <= 5 ->
   sanitizeUrlForDisplay (str "abcdefghij") 5 = str "abcdefghij")
  /\ (5 < Z.of_nat (length (str "abcdefghij")) ->
      sanitizeUrlForDisplay (str "abcdefghij") 5
      = take (Z.to_nat (5 / 2)) (str "abcdefghij") ++ str "..."
          ++ drop (length (str "abcdefghij") - Z.to_nat (5 - 5 / 2))
               (str "abcdefghij")
      /\ Z.of_nat (length (sanitizeUrlForDisplay (str "abcdefghij") 5))
         <= 5 + 3)
  /\ (Z.of_nat (length (str "abcdefghij")) <= 5 ->
      sanitizeUrlForDisplay (sanitizeUrlForDisplay (str "abcdefghij") 5) 5
      = sanitizeUrlForDisplay (str "abcdefghij") 5).
Proof. apply (sanitizeUrlForDisplay_bounds (str "abcdefghij") 5). lia. Defined.

Lemma whitespace_credentialId_passes_sample :
  generateVerificationUrl sample_window (str "0xAB12") (str "   ") None
  = Normal (or_else None (location_origin sample_window)
              ++ str "/verify?address="
              ++ urlencoded_string (toUSVString (trim (str "0xAB12")))
              ++ str "&credentialId=")
  /\ (isCodeUnits (str "0xAB12") = true ->
      hasNoQueryNorFragment (or_else None (location_origin sample_window))
      = true ->
      forall url,
        generateVerificationUrl sample_window (str "0xAB12") (str "   ") None
        = Normal url ->
        URLSearchParams_get (URLSearchParams_of_string (search_of_href url))
          (str "credentialId")
        = Some []).
Proof.
  apply (proj2 (whitespace_credentialId_passes sample_window (str "0xAB12")
                  (str "   ") None));
    [vm_compute; reflexivity | discriminate | vm_compute; reflexivity].
Defined.

(** The link of that call. *)
Example whitespace_credentialId_link :
  generateVerificationUrl sample_window (str "0xAB12") (str "   ") None
  = Normal (str "https://credvault.app/verify?address=0xAB12&credentialId=")
  /\ isValidCredentialId (str "   ") = false.
Proof. vm_compute. split; reflexivity. Qed.

(* ===================================================================== *)
(** * Further properties of the code *)
(* ===================================================================== *)

(** ** Validators and padding *)

Lemma trimStart_whitespace_app p s :
  forallb isWhiteSpace p = true -> trimStart (p ++ s) = trimStart s.
Proof.
  induction p as [|u p IH]; [reflexivity|].
  cbn [forallb app trimStart]. intros [Hu Hp]%andb_true_iff.
  rewrite Hu. now apply IH.
Qed.

Lemma trimEnd_whitespace q : forallb isWhiteSpace q = true -> trimEnd q = [].
Proof.
  induction q as [|u q IH]; [reflexivity|].
  cbn [forallb]. intros [Hu Hq]%andb_true_iff.
  rewrite trimEnd_cons, (IH Hq). now rewrite Hu.
Qed.

Lemma trimEnd_app_whitespace s q :
  forallb isWhiteSpace q = true -> trimEnd (s ++ q) = trimEnd s.
Proof.
  intros Hq. induction s as [|u s IH].
  - now apply trimEnd_whitespace.
  - cbn [app]. rewrite !trimEnd_cons. now rewrite IH.
Qed.

Lemma trimStart_app_whitespace s q :
  forallb isWhiteSpace q = true ->
  exists q', forallb isWhiteSpace q' = true
             /\ trimStart (s ++ q) = trimStart s ++ q'.
Proof.
  intros Hq. induction s as [|u s IH].
  - exists []. split; [reflexivity|]. cbn [app trimStart].
    clear -Hq. induction q as [|v q IH]; [reflexivity|].
    cbn [forallb trimStart] in *. apply andb_true_iff in Hq as [Hv Hq].
    rewrite Hv. now apply IH.
  - cbn [app trimStart]. destruct (isWhiteSpace u); [exact IH|].
    now exists q.
Qed.

(** Whitespace around a string does not survive [trim]. *)
Lemma trim_padding p s q :
  forallb isWhiteSpace p = true -> forallb isWhiteSpace q = true ->
  trim (p ++ s ++ q) = trim s.
Proof.
  intros Hp Hq. unfold trim. rewrite trimStart_whitespace_app by exact Hp.
  destruct (trimStart_app_whitespace s q Hq) as (q' & Hq' & ->).
  now apply trimEnd_app_whitespace.
Qed.

(** The three trimming validators as functions of the trimmed string. *)
Lemma isValidWalletAddress_of_trim s :
  isValidWalletAddress s
  = let t := trim s in
    if startsWith t (str "0x") then regex_test hexAddressRegex t
    else if includes t (str ".apt") then regex_test namedAddressRegex t
    else (6 <=? Z.of_nat (length t)) && (Z.of_nat (length t) <=? 100).
Proof. now destruct s. Qed.

Lemma isValidWallet_of_trim s :
  isValidWallet s
  = let t := trim s in
    if startsWith t (str "0x") then regex_test hexAddressRegex t
    else if includes t (str ".apt") then regex_test namedAddressRegex t
    else (6 <=? Z.of_nat (length t)) && (Z.of_nat (length t) <=? 100).
Proof. now destruct s. Qed.

Lemma isValidCredentialId_of_trim s :
  isValidCredentialId s
  = let t := trim s in
    (0 <? Z.of_nat (length t)) && (Z.of_nat (length t) <=? 100).
Proof. now destruct s. Qed.

(** X1.  Whitespace before and after the input makes no difference to the
    three validators that trim: [isValidWallet], [isValidWalletAddress] and
    [isValidCredentialId] give the same answer for [p ++ s ++ q] as for
    [s] when [p] and [q] are whitespace. *)
Theorem validators_ignore_padding (p s q : jsstring) :
  forallb isWhiteSpace p = true ->
  forallb isWhiteSpace q = true ->
  isValidWallet (p ++ s ++ q) = isValidWallet s
  /\ isValidWalletAddress (p ++ s ++ q) = isValidWalletAddress s
  /\ isValidCredentialId (p ++ s ++ q) = isValidCredentialId s.
Proof.
  intros Hp Hq. pose proof (trim_padding p s q Hp Hq) as Ht.
  split; [|split].
  - rewrite (isValidWallet_of_trim (p ++ s ++ q)), (isValidWallet_of_trim s).
    now rewrite Ht.
  - rewrite (isValidWalletAddress_of_trim (p ++ s ++ q)),
      (isValidWalletAddress_of_trim s).
    now rewrite Ht.
  - rewrite (isValidCredentialId_of_trim (p ++ s ++ q)),
      (isValidCredentialId_of_trim s).
    now rewrite Ht.
Qed.

(** ** The form of an email *)

Lemma notSpaceNorAt_filter_at l :
  Forall (fun u => notSpaceNorAt u = true) l ->
  filter (fun u => u = chr "@") l = []
  /\ Forall (fun u => isWhiteSpace u = false) l.
Proof.
  induction 1 as [|u l Hu Hl [IH1 IH2]]; [split; constructor|].
  unfold notSpaceNorAt in Hu. apply negb_true_iff, orb_false_iff in Hu.
  destruct Hu as [Hws Hat]. split.
  - rewrite filter_cons_False by lia. exact IH1.
  - now constructor.
Qed.

(** X2.  [isValidEmail] accepts exactly the strings [a@b.c] with [a], [b]
    and [c] non-empty and free of whitespace and [@].  An accepted email
    therefore holds no whitespace anywhere (the function does not trim)
    and exactly one [@]. *)
Theorem isValidEmail_contract (e : jsstring) :
  (isValidEmail e = true <-> email_form e)
  /\ (isValidEmail e = true ->
      Forall (fun u => isWhiteSpace u = false) e
      /\ length (filter (fun u => u = chr "@") e) = 1%nat).
Proof.
  split; [apply emailRegex_language|].
  intros (a & b & c & -> & _ & _ & _ & Hall)%emailRegex_language.
  apply Forall_app in Hall as [Ha Hall]. apply Forall_app in Hall as [Hb Hc].
  destruct (notSpaceNorAt_filter_at a Ha) as [Fa Wa].
  destruct (notSpaceNorAt_filter_at b Hb) as [Fb Wb].
  destruct (notSpaceNorAt_filter_at c Hc) as [Fc Wc].
  split.
  - apply Forall_app. split; [exact Wa|].
    change (str "@" ++ b ++ str "." ++ c) with (chr "@" :: b ++ chr "." :: c).
    constructor; [reflexivity|]. apply Forall_app. split; [exact Wb|].
    constructor; [reflexivity | exact Wc].
  - change (str "@" ++ b ++ str "." ++ c) with (chr "@" :: b ++ chr "." :: c).
    rewrite filter_app, Fa. cbn [app].
    rewrite filter_cons_True by reflexivity.
    rewrite filter_app, Fb. cbn [app].
    rewrite filter_cons_False by discriminate. now rewrite Fc.
Qed.

(** ** The two link generators *)

(** With non-empty arguments the generator sees them only trimmed. *)
Lemma generateVerificationUrl_nonempty window a c baseUrl :
  a <> [] -> c <> [] ->
  generateVerificationUrl window a c baseUrl
  = if isValidWalletAddress a then
      Normal (or_else baseUrl (location_origin window) ++ str "/verify?"
                ++ URLSearchParams_toString (verification_params a c))
    else Throw InvalidWalletAddress.
Proof.
  intros Ha Hc. destruct a as [|ua ta]; [congruence|].
  destruct c as [|uc tc]; [congruence|]. unfold generateVerificationUrl.
  rewrite isValidWalletAddress_trim.
  now destruct (isValidWalletAddress (ua :: ta)).
Qed.

Lemma generateProfileUrl_nonempty window a baseUrl :
  a <> [] ->
  generateProfileUrl window a baseUrl
  = if isValidWalletAddress a then
      Normal (or_else baseUrl (location_origin window) ++ str "/verify?"
                ++ URLSearchParams_toString (profile_params a))
    else Throw InvalidWalletAddress.
Proof.
  intros Ha. destruct a as [|ua ta]; [congruence|]. unfold generateProfileUrl.
  rewrite isValidWalletAddress_trim.
  now destruct (isValidWalletAddress (ua :: ta)).
Qed.

(** A link was returned: the address is valid and the id is not empty. *)
Lemma generateVerificationUrl_normal window a c baseUrl url :
  generateVerificationUrl window a c baseUrl = Normal url ->
  isValidWalletAddress a = true /\ c <> []
  /\ url = or_else baseUrl (location_origin window) ++ str "/verify?"
             ++ URLSearchParams_toString (verification_params a c).
Proof.
  intros Hg. destruct a as [|ua ta]; [discriminate|].
  destruct c as [|uc tc]; [now destruct ta|].
  rewrite generateVerificationUrl_nonempty in Hg by discriminate.
  destruct (isValidWalletAddress (ua :: ta)); [|discriminate].
  apply Normal_inj in Hg. now subst url.
Qed.

Lemma padded_nonempty (p s q : jsstring) : s <> [] -> p ++ s ++ q <> [].
Proof. intros Hs Hnil. apply app_eq_nil in Hnil as [_ Hnil].
  apply app_eq_nil in Hnil as [Hnil _]. contradiction. Qed.

(** X3.  Links are canonical: whitespace around a non-empty wallet address
    or credential id changes neither the link nor the error of
    [generateVerificationUrl] and [generateProfileUrl]. *)
Theorem generated_links_ignore_padding (window : Window)
    (p a q p' c q' : jsstring) (baseUrl : option jsstring) :
  forallb isWhiteSpace p = true -> forallb isWhiteSpace q = true ->
  forallb isWhiteSpace p' = true -> forallb isWhiteSpace q' = true ->
  a <> [] -> c <> [] ->
  generateVerificationUrl window (p ++ a ++ q) (p' ++ c ++ q') baseUrl
  = generateVerificationUrl window a c baseUrl
  /\ generateProfileUrl window (p ++ a ++ q) baseUrl
     = generateProfileUrl window a baseUrl.
Proof.
  intros Hp Hq Hp' Hq' Ha Hc.
  pose proof (trim_padding p a q Hp Hq) as Hta.
  pose proof (trim_padding p' c q' Hp' Hq') as Htc.
  assert (Hv : isValidWalletAddress (p ++ a ++ q) = isValidWalletAddress a).
  { rewrite (isValidWalletAddress_of_trim (p ++ a ++ q)),
      (isValidWalletAddress_of_trim a). now rewrite Hta. }
  split.
  - rewrite !generateVerificationUrl_nonempty
      by (try apply padded_nonempty; assumption).
    unfold verification_params. now rewrite Hv, Hta, Htc.
  - rewrite !generateProfileUrl_nonempty
      by (try apply padded_nonempty; assumption).
    unfold profile_params. now rewrite Hv, Hta.
Qed.

(** X4.  Different credentials get different links: if
    [generateVerificationUrl] returns the same link for two pairs of
    strings without unpaired surrogates (same origin), the trimmed wallet
    addresses are equal and the trimmed credential ids are equal. *)
Theorem generateVerificationUrl_injective (window : Window)
    (a c a' c' : jsstring) (baseUrl : option jsstring) (url : jsstring) :
  isWellFormed a = true -> isWellFormed c = true ->
  isWellFormed a' = true -> isWellFormed c' = true ->
  generateVerificationUrl window a c baseUrl = Normal url ->
  generateVerificationUrl window a' c' baseUrl = Normal url ->
  trim a = trim a' /\ trim c = trim c'.
Proof.
  intros Wa Wc Wa' Wc' Hg Hg'.
  apply generateVerificationUrl_normal in Hg as (_ & _ & Hurl).
  apply generateVerificationUrl_normal in Hg' as (_ & _ & Hurl').
  rewrite Hurl in Hurl'. apply app_inv_head in Hurl'.
  apply app_inv_head in Hurl'. unfold URLSearchParams_toString in Hurl'.
  apply (f_equal urlencoded_parse) in Hurl'.
  rewrite !urlencoded_parse_serialize in Hurl'
    by (apply verification_params_scalars; now apply isWellFormed_isCodeUnits).
  rewrite !verification_params_pairs in Hurl'.
  assert (Ha : toUSVString (trim a) = toUSVString (trim a')) by congruence.
  assert (Hc : toUSVString (trim c) = toUSVString (trim c')) by congruence.
  apply (f_equal fromUSVString) in Ha, Hc.
  rewrite !fromUSVString_toUSVString in Ha, Hc by now apply trim_wellFormed.
  now split.
Qed.

Lemma urlencoded_serialize_nonempty l : l <> [] -> urlencoded_serialize l <> [].
Proof.
  destruct l as [|[name value] rest]; [congruence|]. intros _.
  cbn [urlencoded_serialize]. destruct rest; intros Hnil.
  - apply app_eq_nil in Hnil as [_ Hnil]. discriminate.
  - apply app_eq_nil in Hnil as [Hnil _].
    apply app_eq_nil in Hnil as [_ Hnil]. discriminate.
Qed.

(** The [search] of a link that ends in a serialized query. *)
Lemma search_of_generated_link origin (params : URLSearchParams) :
  hasNoQueryNorFragment origin = true ->
  isScalarPairs params = true -> params <> [] ->
  search_of_href (origin ++ str "/verify?" ++ URLSearchParams_toString params)
  = chr "?" :: URLSearchParams_toString params.
Proof.
  intros Ho Hp Hne. destruct (hasNoQueryNorFragment_forall _ Ho) as [Hh Hq].
  destruct (urlencoded_serialize_text _ Hp) as (_ & Sh & _).
  change (str "/verify?" ++ URLSearchParams_toString params)
    with (str "/verify" ++ chr "?" :: URLSearchParams_toString params).
  apply search_of_href_query.
  - apply Forall_app. split; [exact Hh|]. repeat constructor; discriminate.
  - apply Forall_app. split; [exact Hq|]. repeat constructor; discriminate.
  - exact Sh.
  - now apply urlencoded_serialize_nonempty.
Qed.

Lemma profile_params_pair a :
  profile_params a = [(str "address", toUSVString (trim a))].
Proof. reflexivity. Qed.

Lemma profile_params_scalars a :
  isCodeUnits a = true -> isScalarPairs (profile_params a) = true.
Proof.
  intros Ha. rewrite profile_params_pair. cbn [isScalarPairs forallb fst snd].
  rewrite toUSVString_scalars by now apply trim_codeUnits. reflexivity.
Qed.

Lemma URLSearchParams_get_profile_params a :
  URLSearchParams_get (profile_params a) (str "address")
  = Some (fromUSVString (toUSVString (trim a)))
  /\ URLSearchParams_get (profile_params a) (str "credentialId") = None
  /\ URLSearchParams_get (profile_params a) (str "type") = None
  /\ URLSearchParams_get (profile_params a) (str "issuer") = None.
Proof.
  rewrite profile_params_pair. unfold URLSearchParams_get.
  split; [|split; [|split]]; reflexivity.
Qed.

(** X5.  Profile links round-trip: for a valid wallet address without
    unpaired surrogates [generateProfileUrl] returns a link, and
    [parseUrlParams] at that link reads [address] as the trimmed address
    and no [credentialId], [type] or [issuer]. *)
Theorem profile_url_round_trip (window : Window) (a : jsstring)
    (baseUrl : option jsstring) :
  hasNoQueryNorFragment (or_else baseUrl (location_origin window)) = true ->
  isValidWalletAddress a = true ->
  isWellFormed a = true ->
  exists url,
    generateProfileUrl window a baseUrl = Normal url
    /\ forall w, location_search w = search_of_href url ->
         parseUrlParams (Some w)
         = {| CredentialParams.address := Some (trim a);
              CredentialParams.credentialId := None;
              CredentialParams.type := None;
              CredentialParams.issuer := None |}.
Proof.
  intros Ho Ha Wa.
  destruct (isValidWalletAddress_nonempty a Ha) as [Hane Hta].
  eexists. split.
  { rewrite generateProfileUrl_nonempty by exact Hane. now rewrite Ha. }
  intros w Hw. unfold parseUrlParams. rewrite Hw.
  pose proof (profile_params_scalars a (isWellFormed_isCodeUnits a Wa)) as Hs.
  rewrite search_of_generated_link by (try assumption; discriminate).
  rewrite URLSearchParams_of_string_toString by exact Hs.
  destruct (URLSearchParams_get_profile_params a) as (-> & -> & -> & ->).
  rewrite fromUSVString_toUSVString by now apply trim_wellFormed.
  rewrite or_undefined_nonempty by exact Hta. reflexivity.
Qed.

(** X6.  [generateProfileUrl] has three outcomes, decided in this order:
    "Wallet address is required" exactly for the empty address, "Invalid
    wallet address format" exactly for a non-empty address that
    [isValidWalletAddress] rejects (one made of whitespace among them), and
    a link exactly for an address it accepts. *)
Theorem generateProfileUrl_outcomes (window : Window) (a : jsstring)
    (baseUrl : option jsstring) :
  (generateProfileUrl window a baseUrl = Throw MissingAddress <-> a = [])
  /\ (generateProfileUrl window a baseUrl = Throw InvalidWalletAddress
      <-> a <> [] /\ isValidWalletAddress a = false)
  /\ ((exists url, generateProfileUrl window a baseUrl = Normal url)
      <-> isValidWalletAddress a = true).
Proof.
  destruct a as [|ua ta].
  - change (generateProfileUrl window [] baseUrl) with (@Throw jsstring MissingAddress).
    change (isValidWalletAddress []) with false.
    split; [tauto|]. split.
    + split; [discriminate | now intros [? _]].
    + split; [now intros [url ?] | discriminate].
  - rewrite generateProfileUrl_nonempty by discriminate.
    destruct (isValidWalletAddress (ua :: ta)).
    + split; [split; discriminate|]. split.
      * split; [discriminate | now intros [_ ?]].
      * split; [reflexivity | intros _; now eexists].
    + split; [split; discriminate|]. split.
      * split; [intros _; now split | reflexivity].
      * split; [now intros [url ?] | discriminate].
Qed.

Lemma credentialId_name :
  urlencoded_string (str "credentialId") = str "credentialId".
Proof. reflexivity. Qed.

(** X7.  A verification link is the profile link of the same address with
    one more parameter: whenever [generateVerificationUrl] returns a link,
    [generateProfileUrl] returns one for that address, and the first is the
    second followed by [&credentialId=] and the encoded trimmed id. *)
Theorem verification_link_extends_profile_link (window : Window)
    (a c : jsstring) (baseUrl : option jsstring) (url : jsstring) :
  generateVerificationUrl window a c baseUrl = Normal url ->
  exists profileUrl,
    generateProfileUrl window a baseUrl = Normal profileUrl
    /\ url = profileUrl ++ str "&credentialId="
               ++ urlencoded_string (toUSVString (trim c)).
Proof.
  intros (Ha & _ & ->)%generateVerificationUrl_normal.
  destruct (isValidWalletAddress_nonempty a Ha) as [Hane _].
  eexists. split.
  { rewrite generateProfileUrl_nonempty by exact Hane. now rewrite Ha. }
  rewrite verification_params_pairs, profile_params_pair.
  unfold URLSearchParams_toString. cbn [urlencoded_serialize].
  rewrite credentialId_name. rewrite <- !app_assoc. reflexivity.
Qed.

(** X8.  Every error of the two generators is turned into one of two fixed
    messages by [handleUrlError]: the one for missing information when an
    argument was empty, the one for the address format otherwise; the text
    of the error itself is never shown. *)
Theorem handleUrlError_of_generator_errors (window : Window)
    (a c : jsstring) (baseUrl : option jsstring) (e : JsError) :
  (generateVerificationUrl window a c baseUrl = Throw e ->
   handleUrlError (Some e)
   = match a, c with
     | [], _ | _, [] =>
         str "Missing required information for verification URL."
     | _, _ =>
         str "Invalid wallet address format. Please check the address and try again."
     end)
  /\ (generateProfileUrl window a baseUrl = Throw e ->
      handleUrlError (Some e)
      = match a with
        | [] => str "Missing required information for verification URL."
        | _ =>
            str "Invalid wallet address format. Please check the address and try again."
        end).
Proof.
  split; intros Hg.
  - destruct a as [|ua ta].
    + assert (e = MissingField) as -> by (cbn in Hg; congruence). reflexivity.
    + destruct c as [|uc tc].
      * assert (e = MissingField) as -> by (cbn in Hg; congruence).
        reflexivity.
      * rewrite generateVerificationUrl_nonempty in Hg by discriminate.
        destruct (isValidWalletAddress (ua :: ta)); [discriminate|].
        assert (e = InvalidWalletAddress) as -> by congruence. reflexivity.
  - destruct a as [|ua ta].
    + assert (e = MissingAddress) as -> by (cbn in Hg; congruence).
      reflexivity.
    + rewrite generateProfileUrl_nonempty in Hg by discriminate.
      destruct (isValidWalletAddress (ua :: ta)); [discriminate|].
      assert (e = InvalidWalletAddress) as -> by congruence. reflexivity.
Qed.

(** What [parseUrlParams] reads at a verification link of valid,
    well-formed arguments. *)
Lemma parseUrlParams_of_valid_link origin a c w :
  hasNoQueryNorFragment origin = true ->
  isValidWalletAddress a = true -> isValidCredentialId c = true ->
  isWellFormed a = true -> isWellFormed c = true ->
  location_search w
  = search_of_href (origin ++ str "/verify?"
                      ++ URLSearchParams_toString (verification_params a c)) ->
  parseUrlParams (Some w)
  = {| CredentialParams.address := Some (trim a);
       CredentialParams.credentialId := Some (trim c);
       CredentialParams.type := None;
       CredentialParams.issuer := None |}.
Proof.
  intros Ho Ha Hc Wa Wc Hw.
  destruct (isValidWalletAddress_nonempty a Ha) as [_ Hta].
  destruct (isValidCredentialId_nonempty c Hc) as [_ Htc].
  rewrite (parseUrlParams_of_verification_url _ a c w Ho) by
    (try apply isWellFormed_isCodeUnits; assumption).
  rewrite !fromUSVString_toUSVString by now apply trim_wellFormed.
  now rewrite !or_undefined_nonempty by assumption.
Qed.

(** X9.  The link of a QR code leads to the credential of its data, up to
    trimming: for a valid wallet address and credential id without unpaired
    surrogates [generateQRVerificationData] returns the link of
    [generateVerificationUrl]; its data hold the wallet address and the id
    as given, and [parseUrlParams] at the link reads them trimmed. *)
Theorem qr_link_round_trip (window : Window) (o : Oracle)
    (credential : QRCredential.t) (walletAddress : jsstring)
    (baseUrl : option jsstring) :
  hasNoQueryNorFragment (or_else baseUrl (location_origin window)) = true ->
  isValidWalletAddress walletAddress = true ->
  isValidCredentialId (QRCredential.id credential) = true ->
  isWellFormed walletAddress = true ->
  isWellFormed (QRCredential.id credential) = true ->
  exists r,
    generateQRVerificationData window o credential walletAddress baseUrl
    = Normal r
    /\ generateVerificationUrl window walletAddress
         (QRCredential.id credential) baseUrl = Normal (qr_url r)
    /\ VerificationData.walletAddress (qr_data r) = walletAddress
    /\ VerificationData.credentialId (qr_data r) = QRCredential.id credential
    /\ forall w, location_search w = search_of_href (qr_url r) ->
         parseUrlParams (Some w)
         = {| CredentialParams.address :=
                Some (trim (VerificationData.walletAddress (qr_data r)));
              CredentialParams.credentialId :=
                Some (trim (VerificationData.credentialId (qr_data r)));
              CredentialParams.type := None;
              CredentialParams.issuer := None |}.
Proof.
  intros Ho Ha Hc Wa Wc.
  destruct (isValidCredentialId_nonempty _ Hc) as [Hcne _].
  unfold generateQRVerificationData.
  rewrite (generateVerificationUrl_valid window _ _ baseUrl Ha Hcne).
  eexists. split; [reflexivity|]. cbn [qr_url qr_data
    VerificationData.walletAddress VerificationData.credentialId].
  split; [reflexivity|]. split; [reflexivity|]. split; [reflexivity|].
  intros w Hw. now apply (parseUrlParams_of_valid_link _ _ _ w Ho).
Qed.

(** X10.  [createShareableUrl] always builds its link on the origin of the
    window; for a valid wallet address and credential id without unpaired
    surrogates it returns the link of [generateVerificationUrl], whatever
    the title, type and issuer are, and [parseUrlParams] at the link reads
    the trimmed address and id. *)
Theorem share_link_round_trip {platform : StringPrototype} (window : Window)
    (credential : ShareCredential.t) (walletAddress : jsstring) :
  hasNoQueryNorFragment (location_origin window) = true ->
  isValidWalletAddress walletAddress = true ->
  isValidCredentialId (ShareCredential.id credential) = true ->
  isWellFormed walletAddress = true ->
  isWellFormed (ShareCredential.id credential) = true ->
  exists s,
    createShareableUrl window credential walletAddress = Normal s
    /\ generateVerificationUrl window walletAddress
         (ShareCredential.id credential) None = Normal (share_url s)
    /\ forall w, location_search w = search_of_href (share_url s) ->
         parseUrlParams (Some w)
         = {| CredentialParams.address := Some (trim walletAddress);
              CredentialParams.credentialId :=
                Some (trim (ShareCredential.id credential));
              CredentialParams.type := None;
              CredentialParams.issuer := None |}.
Proof.
  intros Ho Ha Hc Wa Wc.
  destruct (isValidCredentialId_nonempty _ Hc) as [Hcne _].
  unfold createShareableUrl.
  rewrite (generateVerificationUrl_valid window _ _ None Ha Hcne).
  eexists. split; [reflexivity|]. cbn [share_url].
  split; [reflexivity|].
  intros w Hw. now apply (parseUrlParams_of_valid_link _ _ _ w Ho).
Qed.

Lemma urlencoded_safe_query_char bs :
  forallb urlencoded_safe bs = true -> forallb query_char bs = true.
Proof.
  rewrite !forallb_forall. intros Hs b Hb. apply Hs in Hb.
  unfold urlencoded_safe, urlencoded_keeps in Hb. unfold query_char.
  destruct (asciiAlphanumeric b); [reflexivity|]. cbn [orb] in *. lia.
Qed.

Lemma urlencoded_serialize_query_chars l :
  isScalarPairs l = true -> forallb query_char (urlencoded_serialize l) = true.
Proof.
  induction l as [|[name value] rest IH]; [reflexivity|].
  cbn [isScalarPairs forallb fst snd].
  intros [[Hn Hv]%andb_true_iff Hrest]%andb_true_iff.
  specialize (IH Hrest).
  pose proof (urlencoded_safe_query_char _ (urlencoded_string_safe _ Hn)) as Sn.
  pose proof (urlencoded_safe_query_char _ (urlencoded_string_safe _ Hv)) as Sv.
  assert (Hpair : forallb query_char
                    (urlencoded_string name ++ chr "="
                       :: urlencoded_string value) = true).
  { rewrite forallb_app. cbn [forallb]. now rewrite Sn, Sv. }
  destruct rest as [|next rest]; [exact Hpair|].
  change (urlencoded_serialize ((name, value) :: next :: rest))
    with ((urlencoded_string name ++ chr "=" :: urlencoded_string value)
          ++ chr "&" :: urlencoded_serialize (next :: rest)).
  rewrite forallb_app. cbn [forallb]. now rewrite Hpair, IH.
Qed.

(** X11.  A generated link is its origin, [/verify?] and a query of ASCII
    letters, digits and [* - . _ + % = &] only, whatever the characters of
    the wallet address and the credential id are: every other character
    is percent-encoded, a space becomes [+]. *)
Theorem generated_query_is_url_safe (window : Window) (a c : jsstring)
    (baseUrl : option jsstring) (url : jsstring) :
  isCodeUnits a = true -> isCodeUnits c = true ->
  generateVerificationUrl window a c baseUrl = Normal url ->
  exists query,
    url = or_else baseUrl (location_origin window) ++ str "/verify?" ++ query
    /\ forallb query_char query = true.
Proof.
  intros Ha Hc (_ & _ & ->)%generateVerificationUrl_normal.
  eexists. split; [reflexivity|].
  apply urlencoded_serialize_query_chars.
  now apply verification_params_scalars.
Qed.

(** X12.  A link for a credential id of whitespace only reads as a profile
    link: the generator accepts such an id (it is not empty), the link
    carries an empty [credentialId], and [parseUrlParams] at the link
    returns the trimmed address and no [credentialId] at all, an empty
    value being read as a missing one. *)
Theorem whitespace_id_link_reads_as_profile_link (window : Window)
    (a c : jsstring) (baseUrl : option jsstring) :
  hasNoQueryNorFragment (or_else baseUrl (location_origin window)) = true ->
  isValidWalletAddress a = true ->
  isWellFormed a = true ->
  c <> [] ->
  forallb isWhiteSpace c = true ->
  exists url,
    generateVerificationUrl window a c baseUrl = Normal url
    /\ forall w, location_search w = search_of_href url ->
         parseUrlParams (Some w)
         = {| CredentialParams.address := Some (trim a);
              CredentialParams.credentialId := None;
              CredentialParams.type := None;
              CredentialParams.issuer := None |}.
Proof.
  intros Ho Ha Wa Hc Hws.
  destruct (isValidWalletAddress_nonempty a Ha) as [_ Hta].
  eexists. split; [now apply generateVerificationUrl_valid|].
  intros w Hw.
  rewrite (parseUrlParams_of_verification_url _ a c w Ho)
    by (first [now apply isWellFormed_isCodeUnits
              | now apply whitespace_isCodeUnits | exact Hw]).
  rewrite (trim_whitespace c Hws).
  rewrite fromUSVString_toUSVString by now apply trim_wellFormed.
  now rewrite or_undefined_nonempty by exact Hta.
Qed.

(** ** Display of long URLs, continued *)

Lemma sanitizeUrlForDisplay_long (u : jsstring) (n : Z) :
  0 < n -> n < Z.of_nat (length u) ->
  sanitizeUrlForDisplay u n
  = take (Z.to_nat (n / 2)) u ++ str "..."
      ++ drop (length u - Z.to_nat (n - n / 2)) u.
Proof.
  intros Hn Hlong. unfold sanitizeUrlForDisplay.
  rewrite (proj2 (Z.leb_gt _ _) Hlong).
  rewrite !Z.quot_div_nonneg by lia.
  assert (Hhalf : 0 <= n / 2 <= n) by zdec.
  assert (Hend : (2 * Z.of_nat (length u) - n) / 2
                 = Z.of_nat (length u) - (n - n / 2)) by zdec.
  rewrite substring_prefix by lia. rewrite substring_suffix by lia.
  rewrite Hend. do 3 f_equal. lia.
Qed.

Lemma substring_empty (s : jsstring) (from to : Z) :
  (from <= 0 /\ to <= 0)
  \/ (Z.of_nat (length s) <= from /\ Z.of_nat (length s) <= to) ->
  substring s from to = [].
Proof.
  intros Hft. unfold substring, clamp_index.
  replace (Z.to_nat _) with 0%nat by lia. reflexivity.
Qed.

Lemma sanitizeUrlForDisplay_nonpositive (u : jsstring) (n : Z) :
  n <= 0 -> n < Z.of_nat (length u) -> sanitizeUrlForDisplay u n = str "...".
Proof.
  intros Hn Hlong. unfold sanitizeUrlForDisplay.
  rewrite (proj2 (Z.leb_gt _ _) Hlong).
  rewrite !substring_empty; [reflexivity| |].
  - right. split; [|lia]. Z.quot_rem_to_equations. lia.
  - left. split; [lia|]. Z.quot_rem_to_equations. lia.
Qed.

(** X13.  For every integer bound: the displayed text of a string longer
    than the bound has exactly [max(n, 0) + 3] code units, so it is longer
    than the string itself when the string exceeds the bound by one or two;
    and shortening a second time changes nothing. *)
Theorem sanitizeUrlForDisplay_idempotent (u : jsstring) (n : Z) :
  Z.of_nat (length (sanitizeUrlForDisplay u n))
  = (if Z.of_nat (length u) <=? n then Z.of_nat (length u)
     else Z.max n 0 + 3)
  /\ sanitizeUrlForDisplay (sanitizeUrlForDisplay u n) n
     = sanitizeUrlForDisplay u n.
Proof.
  destruct (Z.leb_spec (Z.of_nat (length u)) n) as [Hshort | Hlong].
  - assert (Hu : sanitizeUrlForDisplay u n = u).
    { unfold sanitizeUrlForDisplay. now rewrite (proj2 (Z.leb_le _ _) Hshort). }
    now rewrite !Hu.
  - destruct (Z.le_gt_cases n 0) as [Hn | Hn].
    + rewrite (sanitizeUrlForDisplay_nonpositive u n Hn Hlong).
      split; [cbn; lia|].
      apply sanitizeUrlForDisplay_nonpositive; [exact Hn | cbn; lia].
    + rewrite (sanitizeUrlForDisplay_long u n Hn Hlong).
      assert (Hhalf : 0 <= n / 2 <= n) by zdec.
      set (head := take (Z.to_nat (n / 2)) u).
      set (tail := drop (length u - Z.to_nat (n - n / 2)) u).
      assert (Hhead : length head = Z.to_nat (n / 2))
        by (unfold head; rewrite length_take; lia).
      assert (Htail : length tail = Z.to_nat (n - n / 2))
        by (unfold tail; rewrite length_drop; lia).
      assert (Hlen : Z.of_nat (length (head ++ str "..." ++ tail)) = n + 3).
      { rewrite !length_app, Hhead, Htail.
        change (length (str "...")) with 3%nat. lia. }
      split; [lia|].
      rewrite sanitizeUrlForDisplay_long by lia.
      rewrite take_app_length' by (symmetry; exact Hhead).
      do 2 f_equal. rewrite app_assoc. apply drop_app_length'.
      rewrite length_app, Htail. lia.
Qed.

(** ** Requests and credentials as the dashboards read them *)

Section Ledger.

Implicit Types (ls : localStorage) (requests : list CredentialRequest.t)
  (request : CredentialRequest.t).

Lemma getPendingRequestsForIssuer_run w ls :
  getPendingRequestsForIssuer w ls
  = (Normal (filter (pending_for w) (requests_of ls)), ls).
Proof. reflexivity. Qed.

Lemma getCredentialsForStudent_run w ls :
  getCredentialsForStudent w ls
  = (Normal (filter (fun cred => IssuedCredential.studentWalletAddress cred = w)
               (credentials_of ls)), ls).
Proof. reflexivity. Qed.

Lemma getCredentialsByIssuer_run w ls :
  getCredentialsByIssuer w ls
  = (Normal (filter (fun cred => IssuedCredential.issuerWalletAddress cred = w)
               (credentials_of ls)), ls).
Proof. reflexivity. Qed.

Lemma submit_run o new ls :
  exists request,
    submitCredentialRequest o new ls
    = (Normal request,
       set_credential_requests (Json (requests_of ls ++ [request])) ls)
    /\ CredentialRequest.status request = pending
    /\ CredentialRequest.issuerWalletAddress request
       = NewRequest.issuerWalletAddress new.
Proof. eexists. split; [reflexivity|]. split; reflexivity. Qed.

(** X14.  A submitted request shows up, last, among the pending requests
    of the issuer it names and of no other issuer; submitting writes
    nothing but the list of requests. *)
Theorem submitted_request_reaches_its_issuer (o : Oracle)
    (new : NewRequest.t) (ls : localStorage) (issuerWalletAddress : jsstring) :
  exists request ls' before,
    submitCredentialRequest o new ls = (Normal request, ls')
    /\ CredentialRequest.status request = pending
    /\ (getPendingRequestsForIssuer issuerWalletAddress ls).1 = Normal before
    /\ (getPendingRequestsForIssuer issuerWalletAddress ls').1
       = Normal (before
                   ++ if bool_decide (NewRequest.issuerWalletAddress new
                                      = issuerWalletAddress)
                      then [request] else [])
    /\ credvault_issued_credentials ls' = credvault_issued_credentials ls
    /\ credvault_registered_users ls' = credvault_registered_users ls
    /\ credvault_user_profile ls' = credvault_user_profile ls.
Proof.
  destruct (submit_run o new ls) as (request & Hrun & Hst & Hiss).
  eexists request, _, _. split; [exact Hrun|]. split; [exact Hst|].
  rewrite !getPendingRequestsForIssuer_run. cbn [fst].
  split; [reflexivity|]. split; [|now split].
  f_equal. change (requests_of (set_credential_requests _ ls))
    with (requests_of ls ++ [request]).
  rewrite filter_app. f_equal. rewrite <- Hiss. case_bool_decide as Hw.
  - rewrite filter_cons_True by (split; assumption). reflexivity.
  - rewrite filter_cons_False by (intros [? _]; contradiction). reflexivity.
Qed.

(** X15.  A credential issued directly is stored with status [issued] and
    reaches the two dashboards: [saveIssuedCredential] appends it to what
    [getCredentialsForStudent] returns for its student and to what
    [getCredentialsByIssuer] returns for its issuer, and to the list of no
    other wallet address; it writes nothing but the list of credentials. *)
Theorem issued_credential_reaches_student_and_issuer (o : Oracle)
    (new : NewCredential.t) (ls : localStorage) :
  exists credential ls',
    saveIssuedCredential o new ls = (Normal credential, ls')
    /\ IssuedCredential.status credential = issued
    /\ (forall w, exists before,
          (getCredentialsForStudent w ls).1 = Normal before
          /\ (getCredentialsForStudent w ls').1
             = Normal (before
                         ++ if bool_decide
                                 (NewCredential.studentWalletAddress new = w)
                            then [credential] else []))
    /\ (forall w, exists before,
          (getCredentialsByIssuer w ls).1 = Normal before
          /\ (getCredentialsByIssuer w ls').1
             = Normal (before
                         ++ if bool_decide
                                 (NewCredential.issuerWalletAddress new = w)
                            then [credential] else []))
    /\ credvault_credential_requests ls' = credvault_credential_requests ls
    /\ credvault_registered_users ls' = credvault_registered_users ls
    /\ credvault_user_profile ls' = credvault_user_profile ls.
Proof.
  eexists _, _. split; [reflexivity|]. split; [reflexivity|].
  split; [|split; [|now repeat split]].
  - intros w. eexists. rewrite !getCredentialsForStudent_run. cbn [fst].
    split; [reflexivity|].
    match goal with |- context [credentials_of (set_issued_credentials
                                                  (Json (?l ++ [?c])) ls)] =>
      change (credentials_of (set_issued_credentials (Json (l ++ [c])) ls))
        with (credentials_of ls ++ [c]) end.
    rewrite filter_app. do 2 f_equal. case_bool_decide as Hw.
    + now rewrite filter_cons_True by exact Hw.
    + now rewrite filter_cons_False by exact Hw.
  - intros w. eexists. rewrite !getCredentialsByIssuer_run. cbn [fst].
    split; [reflexivity|].
    match goal with |- context [credentials_of (set_issued_credentials
                                                  (Json (?l ++ [?c])) ls)] =>
      change (credentials_of (set_issued_credentials (Json (l ++ [c])) ls))
        with (credentials_of ls ++ [c]) end.
    rewrite filter_app. do 2 f_equal. case_bool_decide as Hw.
    + now rewrite filter_cons_True by exact Hw.
    + now rewrite filter_cons_False by exact Hw.
Qed.

Lemma findRequest_split requestId requests i request :
  findRequest requestId requests = Some (i, request) ->
  CredentialRequest.id request = requestId
  /\ requests = take i requests ++ request :: drop (S i) requests
  /\ forall updated,
       <[i := updated]> requests
       = take i requests ++ updated :: drop (S i) requests.
Proof.
  unfold findRequest. intros (Hi & Hid & _)%list_find_Some.
  split; [exact Hid|]. split.
  - symmetry. now apply take_drop_middle.
  - intros updated. apply insert_take_drop. eapply lookup_lt_Some; eassumption.
Qed.

(** The pending requests of an issuer around the request at index [i],
    before and after that request leaves the pending state. *)
Lemma pending_around w requests i request updated :
  requests !! i = Some request ->
  CredentialRequest.status request = pending ->
  CredentialRequest.status updated <> pending ->
  filter (pending_for w) requests
  = filter (pending_for w) (take i requests)
      ++ (if bool_decide (CredentialRequest.issuerWalletAddress request = w)
          then [request] else [])
      ++ filter (pending_for w) (drop (S i) requests)
  /\ filter (pending_for w) (<[i := updated]> requests)
     = filter (pending_for w) (take i requests)
         ++ filter (pending_for w) (drop (S i) requests).
Proof.
  intros Hi Hst Hup. split.
  - rewrite <- (take_drop_middle requests i request Hi) at 1.
    rewrite filter_app. f_equal. case_bool_decide as Hw.
    + now rewrite filter_cons_True by (split; assumption).
    + now rewrite filter_cons_False by (intros [? _]; contradiction).
  - rewrite insert_take_drop by (eapply lookup_lt_Some; eassumption).
    rewrite filter_app. f_equal.
    now rewrite filter_cons_False by (intros [_ ?]; contradiction).
Qed.

(** Replacing the found request by one of the same id keeps it the one
    found. *)
Lemma findRequest_insert requestId requests i request updated :
  findRequest requestId requests = Some (i, request) ->
  CredentialRequest.id updated = CredentialRequest.id request ->
  findRequest requestId (<[i := updated]> requests) = Some (i, updated).
Proof.
  unfold findRequest. intros (Hi & Hid & Hfirst)%list_find_Some Hsame.
  apply list_find_Some. split; [|split].
  - apply list_lookup_insert_eq. eapply lookup_lt_Some; eassumption.
  - congruence.
  - intros j y Hy Hj. rewrite list_lookup_insert_ne in Hy by lia.
    now apply (Hfirst j y).
Qed.

(** X16.  Approving a pending request moves it from the issuer's pending
    list to the credential lists: the new credential is appended to what
    [getCredentialsForStudent] returns for the student of the request and
    to what [getCredentialsByIssuer] returns for its issuer, and to no
    other list; the pending requests of the issuer lose this one entry and
    keep their order; those of other issuers do not change. *)
Theorem approval_moves_request_to_credentials (o : Oracle)
    (requestId : jsstring) (metadata : ApprovalMetadata) (ls : localStorage)
    (i : nat) (request : CredentialRequest.t) :
  findRequest requestId (requests_of ls) = Some (i, request) ->
  CredentialRequest.status request = pending ->
  exists updated credential ls',
    approveCredentialRequest o requestId metadata ls
    = (Normal (updated, credential), ls')
    /\ CredentialRequest.status updated = approved
    /\ (forall w, exists before,
          (getCredentialsForStudent w ls).1 = Normal before
          /\ (getCredentialsForStudent w ls').1
             = Normal (before
                         ++ if bool_decide
                                 (CredentialRequest.studentWalletAddress request
                                  = w)
                            then [credential] else []))
    /\ (forall w, exists before,
          (getCredentialsByIssuer w ls).1 = Normal before
          /\ (getCredentialsByIssuer w ls').1
             = Normal (before
                         ++ if bool_decide
                                 (CredentialRequest.issuerWalletAddress request
                                  = w)
                            then [credential] else []))
    /\ (forall w, exists before1 before2,
          (getPendingRequestsForIssuer w ls).1
          = Normal (before1
                      ++ (if bool_decide
                               (CredentialRequest.issuerWalletAddress request
                                = w)
                          then [request] else [])
                      ++ before2)
          /\ (getPendingRequestsForIssuer w ls').1
             = Normal (before1 ++ before2)).
Proof.
  intros Hfind Hst. eexists _, _, _.
  split; [exact (approve_pending o requestId metadata ls i request Hfind Hst)|].
  split; [reflexivity|].
  assert (Hcreds : credentials_of (approved_store o i request ls)
                   = credentials_of ls ++ [credential_for o request])
    by reflexivity.
  split; [|split].
  - intros w. eexists. rewrite !getCredentialsForStudent_run. cbn [fst].
    split; [reflexivity|]. rewrite Hcreds, filter_app. do 2 f_equal.
    case_bool_decide as Hw.
    + now rewrite filter_cons_True by exact Hw.
    + now rewrite filter_cons_False by exact Hw.
  - intros w. eexists. rewrite !getCredentialsByIssuer_run. cbn [fst].
    split; [reflexivity|]. rewrite Hcreds, filter_app. do 2 f_equal.
    case_bool_decide as Hw.
    + now rewrite filter_cons_True by exact Hw.
    + now rewrite filter_cons_False by exact Hw.
  - intros w. eexists _, _. rewrite !getPendingRequestsForIssuer_run.
    cbn [fst].
    pose proof Hfind as (Hi & _ & _)%list_find_Some.
    edestruct (pending_around w (requests_of ls) i request
                 (CredentialRequest.with_status request approved
                    (CredentialRequest.rejectionNote request)) Hi Hst)
      as [Hbefore Hafter]; [discriminate|].
    split; [now rewrite Hbefore|].
    change (requests_of (approved_store o i request ls))
      with (<[i := CredentialRequest.with_status request approved
                      (CredentialRequest.rejectionNote request)]>
              (requests_of ls)).
    now rewrite Hafter.
Qed.

(** X17.  Rejection is terminal and issues nothing: rejecting a pending
    request stores it with status [rejected] and the given note (the note
    "Request was rejected" when none or an empty one is given), leaves the
    credentials as they are, and takes the request off the pending list of
    its issuer; approving or rejecting the same id afterwards fails with
    "Request is not pending" and writes nothing. *)
Theorem rejection_is_terminal (o : Oracle) (requestId : jsstring)
    (note note' : option jsstring) (metadata : ApprovalMetadata)
    (ls : localStorage) (i : nat) (request : CredentialRequest.t) :
  findRequest requestId (requests_of ls) = Some (i, request) ->
  CredentialRequest.status request = pending ->
  exists updated ls',
    rejectCredentialRequest requestId note ls = (Normal updated, ls')
    /\ updated
       = CredentialRequest.with_status request rejected
           (Some (or_else note (str "Request was rejected")))
    /\ requests_of ls' !! i = Some updated
    /\ credvault_issued_credentials ls' = credvault_issued_credentials ls
    /\ approveCredentialRequest o requestId metadata ls'
       = (Throw RequestNotPending, ls')
    /\ rejectCredentialRequest requestId note' ls'
       = (Throw RequestNotPending, ls')
    /\ (forall w, exists before1 before2,
          (getPendingRequestsForIssuer w ls).1
          = Normal (before1
                      ++ (if bool_decide
                               (CredentialRequest.issuerWalletAddress request
                                = w)
                          then [request] else [])
                      ++ before2)
          /\ (getPendingRequestsForIssuer w ls').1
             = Normal (before1 ++ before2)).
Proof.
  intros Hfind Hst.
  set (updated := CredentialRequest.with_status request rejected
                    (Some (or_else note (str "Request was rejected")))).
  set (ls' := set_credential_requests
                (Json (<[i := updated]> (requests_of ls))) ls).
  exists updated, ls'.
  pose proof Hfind as (Hi & _ & _)%list_find_Some.
  assert (Hreqs : requests_of ls' = <[i := updated]> (requests_of ls))
    by reflexivity.
  assert (Hfind' : findRequest requestId (requests_of ls') = Some (i, updated)).
  { rewrite Hreqs. now apply (findRequest_insert _ _ _ request). }
  split; [exact (reject_pending requestId note ls i request Hfind Hst)|].
  split; [reflexivity|]. split.
  { rewrite Hreqs. apply list_lookup_insert_eq.
    eapply lookup_lt_Some; eassumption. }
  split; [reflexivity|]. split.
  { now apply (approve_not_pending o requestId metadata ls' i updated). }
  split.
  { now apply (reject_not_pending requestId note' ls' i updated). }
  intros w. eexists _, _. rewrite !getPendingRequestsForIssuer_run. cbn [fst].
  edestruct (pending_around w (requests_of ls) i request updated Hi Hst)
    as [Hbefore Hafter]; [discriminate|].
  split; [now rewrite Hbefore|]. now rewrite Hreqs, Hafter.
Qed.

(** *** Invariants of the ledger *)

(** What one call does to the two lists of the ledger. *)
Lemma call_effect (c : LedgerCall) ls :
  (requests_of (call c ls) = requests_of ls
   /\ exists issued, credentials_of (call c ls) = credentials_of ls ++ issued)
  \/ (exists new,
        requests_of (call c ls) = requests_of ls ++ [new]
        /\ CredentialRequest.status new = pending
        /\ credentials_of (call c ls) = credentials_of ls)
  \/ (exists j request updated issued,
        requests_of ls !! j = Some request
        /\ CredentialRequest.status request = pending
        /\ requests_of (call c ls) = <[j := updated]> (requests_of ls)
        /\ credentials_of (call c ls) = credentials_of ls ++ issued
        /\ ((updated = CredentialRequest.with_status request approved
                         (CredentialRequest.rejectionNote request)
             /\ length issued = 1%nat)
            \/ (exists n, updated
                          = CredentialRequest.with_status request rejected n)
               /\ issued = [])).
Proof.
  destruct c as [o new | o requestId metadata | requestId note | o credential].
  - right. left. destruct (submit_run o new ls) as (request & Hrun & Hst & _).
    exists request. cbn [call]. rewrite Hrun. now split.
  - cbn [call].
    destruct (findRequest requestId (requests_of ls)) as [[j request]|] eqn:Hfind.
    + destruct (decide (CredentialRequest.status request = pending)) as [Hst|Hst].
      * right. right. rewrite (approve_pending o _ metadata ls j request Hfind Hst).
        apply list_find_Some in Hfind as (Hj & _ & _).
        eexists j, request, _, [credential_for o request].
        split; [exact Hj|]. split; [exact Hst|]. split; [reflexivity|].
        split; [reflexivity|]. left. now split.
      * left. rewrite (approve_not_pending o _ metadata ls j request Hfind Hst).
        split; [reflexivity|]. exists []. now rewrite app_nil_r.
    + left. rewrite (approve_not_found o _ metadata ls Hfind).
      split; [reflexivity|]. exists []. now rewrite app_nil_r.
  - cbn [call].
    destruct (findRequest requestId (requests_of ls)) as [[j request]|] eqn:Hfind.
    + destruct (decide (CredentialRequest.status request = pending)) as [Hst|Hst].
      * right. right. rewrite (reject_pending _ note ls j request Hfind Hst).
        apply list_find_Some in Hfind as (Hj & _ & _).
        eexists j, request, _, [].
        split; [exact Hj|]. split; [exact Hst|]. split; [reflexivity|].
        split; [cbn; now rewrite app_nil_r|]. right. split; [|reflexivity].
        now eexists.
      * left. rewrite (reject_not_pending _ note ls j request Hfind Hst).
        split; [reflexivity|]. exists []. now rewrite app_nil_r.
    + left. rewrite (reject_not_found _ note ls Hfind).
      split; [reflexivity|]. exists []. now rewrite app_nil_r.
  - left. cbn [call]. split; [reflexivity|]. now eexists [_].
Qed.

Lemma evolves_trans r1 r2 r3 : evolves r1 r2 -> evolves r2 r3 -> evolves r1 r3.
Proof.
  intros [-> | (Hp & Hn & Heq)] H23; [exact H23|].
  destruct H23 as [-> | (Hp' & _)]; [|contradiction].
  right. now split.
Qed.

Lemma call_evolves (c : LedgerCall) ls i r :
  requests_of ls !! i = Some r ->
  exists r', requests_of (call c ls) !! i = Some r' /\ evolves r r'.
Proof.
  intros Hi.
  destruct (call_effect c ls)
    as [[-> _] | [(new & -> & _) | (j & request & updated & issued & Hj & Hst
                                     & -> & _ & Hup)]].
  - exists r. split; [exact Hi | now left].
  - exists r. split; [now apply lookup_app_l_Some | now left].
  - destruct (decide (i = j)) as [-> | Hij].
    + exists updated. split.
      { apply list_lookup_insert_eq. eapply lookup_lt_Some; eassumption. }
      assert (r = request) as -> by congruence. right.
      destruct Hup as [[-> _] | [[n ->] _]]; now repeat split.
    + exists r. split; [now rewrite list_lookup_insert_ne by congruence|].
      now left.
Qed.

(** X18.  Whatever is submitted, approved, rejected or issued later, a
    stored request keeps its place in the list and all its fields but the
    status and the rejection note; these change only while the request is
    pending, and to a status other than pending.  A request that was
    approved or rejected is never written again. *)
Theorem stored_requests_only_leave_pending (cs : list LedgerCall)
    (ls : localStorage) (i : nat) (r : CredentialRequest.t) :
  requests_of ls !! i = Some r ->
  exists r',
    requests_of (calls cs ls) !! i = Some r'
    /\ evolves r r'
    /\ (CredentialRequest.status r <> pending -> r' = r).
Proof.
  intros Hi.
  assert (Hev : exists r', requests_of (calls cs ls) !! i = Some r'
                           /\ evolves r r').
  { revert ls r Hi. induction cs as [|c cs IH]; intros ls r Hi.
    - exists r. split; [exact Hi | now left].
    - destruct (call_evolves c ls i r Hi) as (r1 & H1 & E1).
      destruct (IH (call c ls) r1 H1) as (r2 & H2 & E2).
      exists r2. split; [exact H2|]. now apply (evolves_trans _ r1). }
  destruct Hev as (r' & Hr' & E). exists r'. split; [exact Hr'|].
  split; [exact E|]. intros Hnp. destruct E as [-> | (Hp & _)]; [reflexivity|].
  contradiction.
Qed.

Lemma approved_insert requests j request updated :
  requests !! j = Some request ->
  CredentialRequest.status request = pending ->
  length (filter (fun r => CredentialRequest.status r = approved)
            (<[j := updated]> requests))
  = (length (filter (fun r => CredentialRequest.status r = approved) requests)
     + if bool_decide (CredentialRequest.status updated = approved)
       then 1 else 0)%nat.
Proof.
  intros Hj Hst.
  rewrite insert_take_drop by (eapply lookup_lt_Some; eassumption).
  rewrite <- (take_drop_middle requests j request Hj) at 3.
  rewrite !filter_app, !length_app.
  rewrite (filter_cons_False _ request) by (rewrite Hst; discriminate).
  case_bool_decide as Hup.
  - rewrite filter_cons_True by exact Hup. cbn [length]. lia.
  - rewrite filter_cons_False by exact Hup. lia.
Qed.

Lemma call_backed (c : LedgerCall) ls :
  (exists issued, credentials_of (call c ls) = credentials_of ls ++ issued)
  /\ (approved_count (call c ls) + length (credentials_of ls)
      <= approved_count ls + length (credentials_of (call c ls)))%nat.
Proof.
  unfold approved_count.
  destruct (call_effect c ls)
    as [[-> [issued Hc]] | [(new & -> & Hnew & Hc)
                           | (j & request & updated & issued & Hj & Hst
                              & -> & Hc & Hup)]].
  - split; [now exists issued|]. rewrite Hc, length_app. lia.
  - split; [exists []; now rewrite app_nil_r|]. rewrite Hc, filter_app.
    rewrite filter_cons_False by (rewrite Hnew; discriminate).
    rewrite app_nil_r. lia.
  - split; [now exists issued|].
    rewrite (approved_insert _ _ _ _ Hj Hst), Hc, length_app.
    destruct Hup as [[-> Hone] | [[n ->] ->]].
    + rewrite bool_decide_eq_true_2 by reflexivity. lia.
    + rewrite bool_decide_eq_false_2 by discriminate. cbn [length]. lia.
Qed.

(** X19.  Credentials are only ever appended, and every approval is backed
    by one: over any sequence of submissions, approvals, rejections and
    direct issues, the credentials at the start remain a prefix of the
    list, and the number of approved requests grows by no more than the
    number of credentials. *)
Theorem approvals_are_backed_by_credentials (cs : list LedgerCall)
    (ls : localStorage) :
  (exists issued, credentials_of (calls cs ls) = credentials_of ls ++ issued)
  /\ (approved_count (calls cs ls) + length (credentials_of ls)
      <= approved_count ls + length (credentials_of (calls cs ls)))%nat.
Proof.
  revert ls. induction cs as [|c cs IH]; intros ls.
  - split; [exists []; now rewrite app_nil_r | cbn; lia].
  - cbn [calls fold_left]. fold (calls cs (call c ls)).
    destruct (call_backed c ls) as [[issued1 H1] L1].
    destruct (IH (call c ls)) as [[issued2 H2] L2].
    split; [|lia]. exists (issued1 ++ issued2).
    now rewrite H2, H1, app_assoc.
Qed.

(** One call never writes a request that stands behind an earlier request
    of the same id. *)
Lemma call_shadowed (c : LedgerCall) ls i j r1 r2 :
  (i < j)%nat ->
  requests_of ls !! i = Some r1 ->
  requests_of ls !! j = Some r2 ->
  CredentialRequest.id r1 = CredentialRequest.id r2 ->
  requests_of (call c ls) !! j = Some r2.
Proof.
  intros Hij Hi Hj Hid.
  assert (Hfirst : forall requestId k request updated,
             findRequest requestId (requests_of ls) = Some (k, request) ->
             <[k := updated]> (requests_of ls) !! j = Some r2).
  { intros requestId k request updated (Hk & Hrid & Hmin)%list_find_Some.
    destruct (decide (k = j)) as [-> | Hkj].
    - exfalso. apply (Hmin i r1 Hi Hij). congruence.
    - now rewrite list_lookup_insert_ne by exact Hkj. }
  destruct c as [o new | o requestId metadata | requestId note | o credential];
    cbn [call].
  - destruct (submit_run o new ls) as (request & -> & _).
    now apply lookup_app_l_Some.
  - destruct (findRequest requestId (requests_of ls)) as [[k request]|] eqn:Hfind.
    + destruct (decide (CredentialRequest.status request = pending)) as [Hst|Hst].
      * rewrite (approve_pending o _ metadata ls k request Hfind Hst).
        now apply (Hfirst requestId k request).
      * now rewrite (approve_not_pending o _ metadata ls k request Hfind Hst).
    + now rewrite (approve_not_found o _ metadata ls Hfind).
  - destruct (findRequest requestId (requests_of ls)) as [[k request]|] eqn:Hfind.
    + destruct (decide (CredentialRequest.status request = pending)) as [Hst|Hst].
      * rewrite (reject_pending _ note ls k request Hfind Hst).
        now apply (Hfirst requestId k request).
      * now rewrite (reject_not_pending _ note ls k request Hfind Hst).
    + now rewrite (reject_not_found _ note ls Hfind).
  - exact Hj.
Qed.

Lemma evolves_id r r' :
  evolves r r' -> CredentialRequest.id r' = CredentialRequest.id r.
Proof. intros [-> | (_ & _ & ->)]; reflexivity. Qed.

(** X20.  Requests are looked up by the first match of their id.  If two
    stored requests have the same id, the later one can never be approved
    or rejected: whatever calls follow, it stays in the store exactly as
    it is. *)
Theorem shadowed_request_is_stuck (cs : list LedgerCall) (ls : localStorage)
    (i j : nat) (r1 r2 : CredentialRequest.t) :
  (i < j)%nat ->
  requests_of ls !! i = Some r1 ->
  requests_of ls !! j = Some r2 ->
  CredentialRequest.id r1 = CredentialRequest.id r2 ->
  requests_of (calls cs ls) !! j = Some r2.
Proof.
  intros Hij. revert ls r1. induction cs as [|c cs IH]; intros ls r1 Hi Hj Hid;
    [exact Hj|].
  cbn [calls fold_left]. fold (calls cs (call c ls)).
  destruct (call_evolves c ls i r1 Hi) as (r1' & Hi' & Hev).
  apply (IH (call c ls) r1' Hi').
  - now apply (call_shadowed c ls i j r1 r2).
  - rewrite (evolves_id _ _ Hev). exact Hid.
Qed.

End Ledger.

(** ** Sessions *)

Section Sessions.

Context `{StringPrototype}.

Implicit Types (ls : localStorage) (users : list StoredUser.t)
  (u user : StoredUser.t) (profile : UserProfile.t).

Lemma openSession_sound wanted email walletAddress found ls :
  (forall u, found = Some u ->
             u ∈ users_of ls
             /\ toLowerCase (StoredUser.email u) = toLowerCase email
             /\ forall w, walletAddress = Some w ->
                          StoredUser.walletAddress u = w) ->
  isValidEmail email = true ->
  signs_in (openSession wanted found) wanted email walletAddress ls.
Proof.
  intros Hfound He. unfold signs_in. destruct found as [u|].
  - destruct (Hfound u eq_refl) as (Hin & Hu & Hw).
    destruct (decide (StoredUser.role u = wanted)) as [Hrole | Hrole].
    + rewrite (proj1 (openSession_role wanted u ls) Hrole).
      repeat split; try reflexivity; try assumption.
      exists u. now repeat split.
    + rewrite (proj2 (openSession_role wanted u ls) Hrole). now repeat split.
  - now repeat split.
Qed.

(** X21.  Sign-in is sound and touches nothing but the session.  Each of
    the three functions returns only the profile of a registered user of
    its own role whose email equals the given one up to letter case (for a
    student also with exactly the given wallet address), and stores that
    profile as the session; when it returns [null] or throws, the whole
    store, an earlier session included, is as before; the registry, the
    credentials and the requests are never written. *)
Theorem signIn_is_sound (student_data : StudentSignIn)
    (staff_data : StaffSignIn) (issuer_data : IssuerSignIn) ls :
  signs_in (signInStudent student_data) student (signin_email student_data)
    (Some (signin_walletAddress student_data)) ls
  /\ signs_in (signInStaff staff_data) staff (staff_signin_email staff_data)
       None ls
  /\ signs_in (signInIssuer issuer_data) issuer
       (issuer_signin_email issuer_data) None ls.
Proof.
  split; [|split].
  - unfold signInStudent.
    destruct (isValidEmail (signin_email student_data)) eqn:He;
      [|unfold signs_in; cbn; now auto 10].
    destruct (isValidWallet (signin_walletAddress student_data)) eqn:Hw;
      [|unfold signs_in; cbn; now auto 10].
    cbn [negb]. unfold findUserByEmailAndWallet, getRegisteredUsers.
    js_unfold. fold (users_of ls).
    apply openSession_sound; [|exact He].
    intros u [Hin Hu]%find_some. apply andb_true_iff in Hu as [Hu1 Hu2].
    apply bool_decide_eq_true in Hu1, Hu2.
    split; [now apply list_elem_of_In|]. split; [exact Hu1|].
    intros w [= <-]. exact Hu2.
  - unfold signInStaff.
    destruct (isValidEmail (staff_signin_email staff_data)) eqn:He;
      [|unfold signs_in; cbn; now auto 10].
    cbn [negb]. unfold findUserByEmail, getRegisteredUsers.
    js_unfold. fold (users_of ls).
    apply openSession_sound; [|exact He].
    intros u [Hin Hu]%find_some. apply bool_decide_eq_true in Hu.
    split; [now apply list_elem_of_In|]. split; [exact Hu|]. discriminate.
  - unfold signInIssuer.
    destruct (isValidEmail (issuer_signin_email issuer_data)) eqn:He;
      [|unfold signs_in; cbn; now auto 10].
    cbn [negb]. unfold findUserByEmail, getRegisteredUsers.
    js_unfold. fold (users_of ls).
    apply openSession_sound; [|exact He].
    intros u [Hin Hu]%find_some. apply bool_decide_eq_true in Hu.
    split; [now apply list_elem_of_In|]. split; [exact Hu|]. discriminate.
Qed.

Lemma find_email_and_wallet_last email walletAddress l1 u :
  (forall v, v ∈ l1 ->
             toLowerCase (StoredUser.email v) <> toLowerCase email) ->
  toLowerCase (StoredUser.email u) = toLowerCase email ->
  StoredUser.walletAddress u = walletAddress ->
  find (fun user =>
          bool_decide (toLowerCase (StoredUser.email user) = toLowerCase email)
          && bool_decide (StoredUser.walletAddress user = walletAddress))
       (l1 ++ [u]) = Some u.
Proof.
  intros Hno Hu Hw. induction l1 as [|v l1 IH]; cbn.
  - now rewrite !bool_decide_eq_true_2.
  - rewrite bool_decide_eq_false_2 by (apply Hno; left). cbn.
    apply IH. intros w Hin. apply Hno. now right.
Qed.

(** A registration that returned: the profile is stored last, and no
    earlier user has its email in any letter case. *)
Lemma registerProfile_returned profile profile' ls ls' :
  registerProfile profile ls = (Normal profile', ls') ->
  profile' = profile
  /\ ls' = set_registered_users (Json (users_of ls ++ [stored_of profile])) ls
  /\ forall u, u ∈ users_of ls ->
               toLowerCase (StoredUser.email u)
               <> toLowerCase (UserProfile.email profile).
Proof.
  intros Hrun.
  destruct (find_same_email_cases (UserProfile.email profile) (users_of ls))
    as [[_ Hno] | (u & Hsome & _)].
  - rewrite (registerProfile_new _ _ Hno) in Hrun.
    split; [congruence|]. split; [congruence | exact Hno].
  - rewrite (registerProfile_duplicate _ _ _ Hsome) in Hrun. discriminate.
Qed.

Lemma profile_of_stored_of profile : profile_of (stored_of profile) = profile.
Proof. now destruct profile. Qed.

(** Signing in after a registration that returned [profile], with an email
    equal to the registered one up to letter case. *)
Lemma signIn_after_registerProfile profile profile' ls ls' email :
  registerProfile profile ls = (Normal profile', ls') ->
  isValidEmail email = true ->
  toLowerCase email = toLowerCase (UserProfile.email profile) ->
  (isValidWallet (UserProfile.walletAddress profile) = true ->
   signInStudent {| signin_email := email;
                    signin_walletAddress := UserProfile.walletAddress profile |}
                 ls'
   = openSession student (Some (stored_of profile)) ls')
  /\ signInStaff {| staff_signin_email := email |} ls'
     = openSession staff (Some (stored_of profile)) ls'
  /\ signInIssuer {| issuer_signin_email := email |} ls'
     = openSession issuer (Some (stored_of profile)) ls'.
Proof.
  intros (_ & -> & Hno)%registerProfile_returned He Hemail.
  assert (Hno' : forall v, v ∈ users_of ls ->
                   toLowerCase (StoredUser.email v) <> toLowerCase email)
    by (intros v Hv; rewrite Hemail; now apply Hno).
  assert (Husers : users_of (set_registered_users
                               (Json (users_of ls ++ [stored_of profile])) ls)
                   = users_of ls ++ [stored_of profile]) by reflexivity.
  split; [|split].
  - intros Hw. unfold signInStudent. cbn [signin_email signin_walletAddress].
    rewrite He, Hw. cbn [negb].
    unfold findUserByEmailAndWallet, getRegisteredUsers. js_unfold.
    match goal with |- context [parsed_or [] ?x] =>
      change (parsed_or [] x) with (users_of ls ++ [stored_of profile]) end.
    now rewrite find_email_and_wallet_last.
  - now apply (signInStaff_first_match email (users_of ls) _ []).
  - now apply (signInIssuer_first_match email (users_of ls) _ []).
Qed.

(** X22.  Who registered can sign in.  After a registration that returned
    a profile, the sign-in function of the same role, given the registered
    email in any letter case (and, for a student, the registered wallet
    address), returns that very profile and makes it the session:
    [getCurrentUser] returns it and [isAuthenticated] is true.  Sign-in,
    unlike registration, checks the form of the email, and for a student of
    the wallet address. *)
Theorem registered_user_can_sign_in (o : Oracle) (ls : localStorage)
    (email : jsstring) (s : StudentRegistration) (f : StaffRegistration)
    (g : IssuerRegistration) :
  isValidEmail email = true ->
  (forall profile ls',
      registerStudent o s ls = (Normal profile, ls') ->
      toLowerCase email = toLowerCase (student_email s) ->
      isValidWallet (student_walletAddress s) = true ->
      exists ls'',
        signInStudent {| signin_email := email;
                         signin_walletAddress := student_walletAddress s |} ls'
        = (Normal (Some profile), ls'')
        /\ (getCurrentUser ls'').1 = Normal (Some profile)
        /\ (isAuthenticated ls'').1 = Normal true)
  /\ (forall profile ls',
        registerStaff o f ls = (Normal profile, ls') ->
        toLowerCase email = toLowerCase (staff_email f) ->
        exists ls'',
          signInStaff {| staff_signin_email := email |} ls'
          = (Normal (Some profile), ls'')
          /\ (getCurrentUser ls'').1 = Normal (Some profile)
          /\ (isAuthenticated ls'').1 = Normal true)
  /\ (forall profile ls',
        registerIssuer o g ls = (Normal profile, ls') ->
        toLowerCase email = toLowerCase (issuer_email g) ->
        exists ls'',
          signInIssuer {| issuer_signin_email := email |} ls'
          = (Normal (Some profile), ls'')
          /\ (getCurrentUser ls'').1 = Normal (Some profile)
          /\ (isAuthenticated ls'').1 = Normal true).
Proof.
  intros He. split; [|split].
  - intros profile ls' Hrun Hemail Hw.
    pose proof Hrun as (-> & _)%registerProfile_returned.
    destruct (signIn_after_registerProfile _ _ _ _ email Hrun He Hemail)
      as (Hs & _ & _).
    specialize (Hs Hw). cbn [UserProfile.walletAddress] in Hs.
    eexists. rewrite Hs.
    match goal with |- context [openSession ?r (Some ?u) ?l] =>
      rewrite (proj1 (openSession_role r u l) eq_refl) end.
    rewrite profile_of_stored_of. now repeat split.
  - intros profile ls' Hrun Hemail.
    pose proof Hrun as (-> & _)%registerProfile_returned.
    destruct (signIn_after_registerProfile _ _ _ _ email Hrun He Hemail)
      as (_ & Hs & _).
    eexists. rewrite Hs.
    match goal with |- context [openSession ?r (Some ?u) ?l] =>
      rewrite (proj1 (openSession_role r u l) eq_refl) end.
    rewrite profile_of_stored_of. now repeat split.
  - intros profile ls' Hrun Hemail.
    pose proof Hrun as (-> & _)%registerProfile_returned.
    destruct (signIn_after_registerProfile _ _ _ _ email Hrun He Hemail)
      as (_ & _ & Hs).
    eexists. rewrite Hs.
    match goal with |- context [openSession ?r (Some ?u) ?l] =>
      rewrite (proj1 (openSession_role r u l) eq_refl) end.
    rewrite profile_of_stored_of. now repeat split.
Qed.

(** X23.  The session is one slot of the store: what [saveUserProfile]
    stores is what [getCurrentUser] returns; after [logout] there is no
    current user, whatever was stored; [isAuthenticated] is true exactly
    when a profile is stored and can be parsed; and neither [logout] nor
    [saveUserProfile] touches the registry, the credentials or the
    requests. *)
Theorem session_round_trip profile ls :
  (getCurrentUser (saveUserProfile profile ls).2).1 = Normal (Some profile)
  /\ (getCurrentUser (logout ls).2).1 = Normal None
  /\ (isAuthenticated (logout (saveUserProfile profile ls).2).2).1
     = Normal false
  /\ ((isAuthenticated ls).1 = Normal true
      <-> exists stored, credvault_user_profile ls = Json stored)
  /\ users_of (logout ls).2 = users_of ls
  /\ credentials_of (logout ls).2 = credentials_of ls
  /\ requests_of (logout ls).2 = requests_of ls
  /\ users_of (saveUserProfile profile ls).2 = users_of ls
  /\ credentials_of (saveUserProfile profile ls).2 = credentials_of ls
  /\ requests_of (saveUserProfile profile ls).2 = requests_of ls.
Proof.
  split; [reflexivity|]. split; [reflexivity|]. split; [reflexivity|].
  split; [|now repeat split].
  unfold isAuthenticated, getCurrentUser. js_unfold. cbn.
  destruct (credvault_user_profile ls) as [|stored|]; cbn; split.
  - discriminate.
  - now intros [? ?].
  - intros _. now exists stored.
  - reflexivity.
  - discriminate.
  - now intros [? ?].
Qed.

End Sessions.

(** ** Seed data *)

Section Seeding.

Implicit Types (ls : localStorage) (users existing : list StoredUser.t)
  (t u : StoredUser.t).

Lemma hasEmail_app email users users' :
  hasEmail email (users ++ users')
  = hasEmail email users || hasEmail email users'.
Proof. apply existsb_app. Qed.

Lemma hasEmail_elem email users :
  hasEmail email users = true
  <-> exists u, u ∈ users /\ StoredUser.email u = email.
Proof.
  unfold hasEmail. rewrite existsb_exists. split.
  - intros (u & Hin & Hu). exists u. split; [now apply list_elem_of_In|].
    now apply bool_decide_eq_true in Hu.
  - intros (u & Hin & Hu). exists u. split; [now apply list_elem_of_In|].
    now apply bool_decide_eq_true.
Qed.

(** One turn of the loop, by the test of [some]. *)
Lemma seedOne_hasEmail existing t :
  seedOne existing t
  = if hasEmail (StoredUser.email t) existing then existing
    else existing ++ [t].
Proof.
  unfold seedOne, hasEmail.
  induction existing as [|u existing IH]; [reflexivity|]. cbn [find existsb].
  destruct (bool_decide (StoredUser.email u = StoredUser.email t));
    [reflexivity|]. cbn [orb].
  destruct (find _ existing), (existsb _ existing); try reflexivity;
    try discriminate.
  - exfalso. apply (f_equal (@length _)) in IH.
    rewrite length_app in IH. cbn in IH. lia.
  - exfalso. apply (f_equal (@length _)) in IH.
    rewrite length_app in IH. cbn in IH. lia.
Qed.

(** The loop keeps the users it finds, in place, and appends some of the
    test users, in their order; afterwards every test email is there. *)
Lemma seed_loop ts existing :
  exists added,
    fold_left seedOne ts existing = existing ++ added
    /\ sublist added ts
    /\ (forall u, u ∈ added -> hasEmail (StoredUser.email u) existing = false)
    /\ NoDup (map StoredUser.email added)
    /\ forall t, t ∈ ts ->
         hasEmail (StoredUser.email t) (existing ++ added) = true.
Proof.
  revert existing. induction ts as [|t ts IH]; intros existing.
  - exists []. rewrite app_nil_r. split; [reflexivity|].
    split; [constructor|]. split; [intros u Hu; inversion Hu|].
    split; [constructor|]. intros t Ht. inversion Ht.
  - cbn [fold_left]. rewrite seedOne_hasEmail.
    destruct (hasEmail (StoredUser.email t) existing) eqn:Ht.
    + destruct (IH existing) as (added & Hrun & Hsub & Hnew & Hnd & Hall).
      exists added. split; [exact Hrun|]. split; [now constructor|].
      split; [exact Hnew|]. split; [exact Hnd|].
      intros t' [-> | Ht']%elem_of_cons; [|now apply Hall].
      now rewrite hasEmail_app, Ht.
    + destruct (IH (existing ++ [t])) as (added & Hrun & Hsub & Hnew & Hnd & Hall).
      exists (t :: added). rewrite Hrun, <- app_assoc.
      split; [reflexivity|]. split; [now constructor|]. split; [|split].
      * intros u [-> | Hu]%elem_of_cons; [exact Ht|].
        specialize (Hnew u Hu). rewrite hasEmail_app in Hnew.
        now apply orb_false_iff in Hnew as [Hnew _].
      * cbn [map]. constructor; [|exact Hnd].
        intros (u & Hu & Hin)%list_elem_of_fmap.
        specialize (Hnew u Hin). rewrite hasEmail_app in Hnew.
        apply orb_false_iff in Hnew as [_ Hnew]. cbn in Hnew.
        rewrite bool_decide_eq_true_2 in Hnew by congruence. discriminate.
      * intros t' [-> | Ht']%elem_of_cons.
        -- rewrite hasEmail_app. apply orb_true_iff. right. cbn.
           now rewrite bool_decide_eq_true_2.
        -- specialize (Hall t' Ht'). now rewrite <- app_assoc in Hall.
Qed.

(** With every test email there already, the loop changes nothing. *)
Lemma seed_loop_present ts existing :
  (forall t, t ∈ ts -> hasEmail (StoredUser.email t) existing = true) ->
  fold_left seedOne ts existing = existing.
Proof.
  induction ts as [|t ts IH]; intros Hall; [reflexivity|].
  cbn [fold_left]. rewrite seedOne_hasEmail, (Hall t) by left.
  apply IH. intros t' Ht'. apply Hall. now right.
Qed.

Lemma testUsers_emails o1 o2 o3 :
  map StoredUser.email (testUsers o1 o2 o3)
  = [str "student@test.com"; str "staff@university.edu";
     str "issuer@techacademy.edu"].
Proof. reflexivity. Qed.

Lemma seedTestUsers_run o1 o2 o3 ls :
  seedTestUsers o1 o2 o3 ls
  = (Normal tt,
     set_registered_users
       (Json (fold_left seedOne (testUsers o1 o2 o3) (users_of ls))) ls).
Proof. reflexivity. Qed.

(** X24.  After [seedTestUsers], [testUsersExist] is true.  Seeding keeps
    every stored user, in place, and appends those test users whose exact
    email is not stored yet, in the order student, staff, issuer; it keeps
    the stored emails pairwise different if they were; it writes nothing
    but the registry; and seeding again, at any later time, changes
    nothing. *)
Theorem seedTestUsers_establishes (o1 o2 o3 : Oracle) (ls : localStorage) :
  exists ls' added,
    seedTestUsers o1 o2 o3 ls = (Normal tt, ls')
    /\ (testUsersExist ls').1 = Normal true
    /\ users_of ls' = users_of ls ++ added
    /\ sublist added (testUsers o1 o2 o3)
    /\ (NoDup (map StoredUser.email (users_of ls)) ->
        NoDup (map StoredUser.email (users_of ls')))
    /\ (forall o1' o2' o3', (seedTestUsers o1' o2' o3' ls').2 = ls')
    /\ credvault_user_profile ls' = credvault_user_profile ls
    /\ credvault_issued_credentials ls' = credvault_issued_credentials ls
    /\ credvault_credential_requests ls' = credvault_credential_requests ls.
Proof.
  destruct (seed_loop (testUsers o1 o2 o3) (users_of ls))
    as (added & Hrun & Hsub & Hnew & Hnd & Hall).
  exists (set_registered_users (Json (users_of ls ++ added)) ls), added.
  split; [now rewrite seedTestUsers_run, Hrun|].
  assert (Hemails : forall e,
             e ∈ [str "student@test.com"; str "staff@university.edu";
                  str "issuer@techacademy.edu"] ->
             hasEmail e (users_of ls ++ added) = true).
  { intros e He. rewrite <- (testUsers_emails o1 o2 o3) in He.
    apply list_elem_of_fmap in He as (t & -> & Ht). now apply Hall. }
  split; [|split; [reflexivity|split; [exact Hsub|split; [|split]]]].
  - unfold testUsersExist, getRegisteredUsers. js_unfold. cbn [fst].
    change (parsed_or [] (credvault_registered_users
                            (set_registered_users
                               (Json (users_of ls ++ added)) ls)))
      with (users_of ls ++ added).
    rewrite !Hemails by (repeat constructor). reflexivity.
  - intros Hls.
    change (users_of (set_registered_users (Json (users_of ls ++ added)) ls))
      with (users_of ls ++ added).
    rewrite map_app. apply NoDup_app.
    split; [exact Hls|]. split; [|exact Hnd].
    intros e (u & -> & Hu)%list_elem_of_fmap (v & Hv & Hin)%list_elem_of_fmap.
    specialize (Hnew v Hin). rewrite <- Hv in Hnew.
    assert (Htrue : hasEmail (StoredUser.email u) (users_of ls) = true)
      by (apply hasEmail_elem; now exists u).
    congruence.
  - intros o1' o2' o3'. rewrite seedTestUsers_run. cbn [snd].
    change (users_of (set_registered_users (Json (users_of ls ++ added)) ls))
      with (users_of ls ++ added).
    rewrite seed_loop_present; [reflexivity|].
    intros t Ht. apply Hemails.
    rewrite <- (testUsers_emails o1' o2' o3').
    apply list_elem_of_fmap. now exists t.
  - now repeat split.
Qed.

Context `{StringPrototype}.

(** X25.  Seeding compares emails exactly, registration up to letter
    case: when a stored user has a test email in another letter case, and
    nobody has it exactly, [seedTestUsers] stores a second user of that
    email, and the registry no longer has one user per lower-cased email
    at most. *)
Theorem seedTestUsers_duplicates_email (o1 o2 o3 : Oracle)
    (ls : localStorage) (email : jsstring) (u : StoredUser.t) :
  email ∈ map StoredUser.email (testUsers o1 o2 o3) ->
  u ∈ users_of ls ->
  toLowerCase (StoredUser.email u) = toLowerCase email ->
  hasEmail email (users_of ls) = false ->
  exists v,
    v ∈ users_of (seedTestUsers o1 o2 o3 ls).2
    /\ ~ (v ∈ users_of ls)
    /\ StoredUser.email v = email
    /\ toLowerCase (StoredUser.email v) = toLowerCase (StoredUser.email u)
    /\ ~ unique_emails (seedTestUsers o1 o2 o3 ls).2.
Proof.
  intros He Hu Hlower Habsent.
  destruct (seed_loop (testUsers o1 o2 o3) (users_of ls))
    as (added & Hrun & _ & _ & _ & Hall).
  apply list_elem_of_fmap in He as (t & -> & Ht).
  specialize (Hall t Ht). rewrite hasEmail_app, Habsent in Hall.
  apply hasEmail_elem in Hall as (v & Hv & Hemail).
  rewrite seedTestUsers_run. unfold unique_emails. cbn [snd].
  change (users_of (set_registered_users
                      (Json (fold_left seedOne (testUsers o1 o2 o3)
                               (users_of ls))) ls))
    with (fold_left seedOne (testUsers o1 o2 o3) (users_of ls)).
  rewrite Hrun. exists v.
  split; [apply elem_of_app; now right|]. split.
  { intros Hin. assert (hasEmail (StoredUser.email t) (users_of ls) = true)
      by (apply hasEmail_elem; now exists v).
    congruence. }
  split; [exact Hemail|]. split; [now rewrite Hemail, Hlower|].
  rewrite map_app. intros (_ & Hdisjoint & _)%NoDup_app.
  apply (Hdisjoint (toLowerCase (StoredUser.email u))).
  - apply list_elem_of_fmap. now exists u.
  - apply list_elem_of_fmap. exists v. split; [|exact Hv].
    now rewrite Hemail.
Qed.

Lemma clearTestData_run ls :
  clearTestData ls
  = (Normal tt,
     {| credvault_user_profile := Missing;
        credvault_issued_credentials := Missing;
        credvault_registered_users := Missing;
        credvault_credential_requests := credvault_credential_requests ls |}).
Proof. reflexivity. Qed.

(** X26.  A reset of the test data.  [clearTestData] removes the registry,
    the session and the credentials, but not the credential requests:
    they are read as before, approved ones included, while no credential
    is left.  Seeding after it stores exactly the three test users, and on
    a platform whose [toLowerCase] leaves the three test emails as they
    are, each sign-in of [TEST_CREDENTIALS] returns the test user of its
    role. *)
Theorem reset_test_data (o1 o2 o3 : Oracle) (ls : localStorage) :
  Forall (fun email => toLowerCase email = email)
         (map StoredUser.email (testUsers o1 o2 o3)) ->
  exists cleared seeded student_user staff_user issuer_user,
    clearTestData ls = (Normal tt, cleared)
    /\ requests_of cleared = requests_of ls
    /\ credentials_of cleared = []
    /\ users_of cleared = []
    /\ (isAuthenticated cleared).1 = Normal false
    /\ (testUsersExist cleared).1 = Normal false
    /\ seedTestUsers o1 o2 o3 cleared = (Normal tt, seeded)
    /\ users_of seeded = testUsers o1 o2 o3
    /\ testUsers o1 o2 o3 = [student_user; staff_user; issuer_user]
    /\ (signInStudent TEST_CREDENTIALS_student seeded).1
       = Normal (Some (profile_of student_user))
    /\ (signInStaff TEST_CREDENTIALS_staff seeded).1
       = Normal (Some (profile_of staff_user))
    /\ (signInIssuer TEST_CREDENTIALS_issuer seeded).1
       = Normal (Some (profile_of issuer_user)).
Proof.
  rewrite testUsers_emails. intros Hfix.
  apply Forall_cons in Hfix as [Hs Hfix].
  apply Forall_cons in Hfix as [Hf Hfix].
  apply Forall_cons in Hfix as [Hi _].
  set (cleared := {| credvault_user_profile := Missing;
                     credvault_issued_credentials := Missing;
                     credvault_registered_users := Missing;
                     credvault_credential_requests :=
                       credvault_credential_requests ls |}).
  set (seeded := set_registered_users (Json (testUsers o1 o2 o3)) cleared).
  exists cleared, seeded. eexists _, _, _.
  split; [apply clearTestData_run|].
  split; [reflexivity|]. split; [reflexivity|]. split; [reflexivity|].
  split; [reflexivity|]. split; [reflexivity|].
  split; [reflexivity|]. split; [reflexivity|]. split; [reflexivity|].
  assert (Husers : users_of seeded = testUsers o1 o2 o3) by reflexivity.
  split; [|split].
  - unfold signInStudent, TEST_CREDENTIALS_student.
    cbn [signin_email signin_walletAddress].
    change (isValidEmail (str "student@test.com")) with true.
    change (isValidWallet (str "0x1234567890abcdef1234567890abcdef12345678"))
      with true.
    cbn [negb]. unfold findUserByEmailAndWallet, getRegisteredUsers.
    js_unfold. fold (users_of seeded). rewrite Husers.
    unfold testUsers. cbn [find StoredUser.email StoredUser.walletAddress].
    rewrite !bool_decide_eq_true_2 by reflexivity. reflexivity.
  - unfold signInStaff, TEST_CREDENTIALS_staff. cbn [staff_signin_email].
    change (isValidEmail (str "staff@university.edu")) with true.
    cbn [negb]. unfold findUserByEmail, getRegisteredUsers.
    js_unfold. fold (users_of seeded). rewrite Husers.
    unfold testUsers. cbn [find StoredUser.email].
    rewrite Hs, Hf.
    rewrite bool_decide_eq_false_2 by discriminate.
    rewrite bool_decide_eq_true_2 by reflexivity. reflexivity.
  - unfold signInIssuer, TEST_CREDENTIALS_issuer. cbn [issuer_signin_email].
    change (isValidEmail (str "issuer@techacademy.edu")) with true.
    cbn [negb]. unfold findUserByEmail, getRegisteredUsers.
    js_unfold. fold (users_of seeded). rewrite Husers.
    unfold testUsers. cbn [find StoredUser.email].
    rewrite Hs, Hf, Hi.
    rewrite !bool_decide_eq_false_2 by discriminate.
    rewrite bool_decide_eq_true_2 by reflexivity. reflexivity.
Qed.

End Seeding.

(* ===================================================================== *)
(** * The further properties on sample data *)
(* ===================================================================== *)

Lemma validators_ignore_padding_sample :
  isValidWallet (str "  " ++ str "0xAB12" ++ [9; 10])
  = isValidWallet (str "0xAB12")
  /\ isValidWalletAddress (str "  " ++ str "0xAB12" ++ [9; 10])
     = isValidWalletAddress (str "0xAB12")
  /\ isValidCredentialId (str "  " ++ str "0xAB12" ++ [9; 10])
     = isValidCredentialId (str "0xAB12").
Proof.
  apply (validators_ignore_padding (str "  ") (str "0xAB12") [9; 10]);
    reflexivity.
Defined.

Example isValidEmail_vectors :
  isValidEmail (str "student@test.com") = true
  /\ isValidEmail (str " student@test.com") = false
  /\ isValidEmail (str "a@b@c.d") = false
  /\ isValidEmail (str "a@b.") = false
  /\ isValidEmail (str "a@.b") = false
  /\ isValidEmail (str "a@b..c") = true.
Proof. vm_compute. auto 10. Qed.

Lemma generated_links_ignore_padding_sample :
  generateVerificationUrl sample_window (str " " ++ str "0xAB12" ++ str "  ")
    ([9] ++ str "cred 1" ++ [10]) None
  = generateVerificationUrl sample_window (str "0xAB12") (str "cred 1") None
  /\ generateProfileUrl sample_window (str " " ++ str "0xAB12" ++ str "  ")
       None
     = generateProfileUrl sample_window (str "0xAB12") None.
Proof.
  apply (generated_links_ignore_padding sample_window (str " ") (str "0xAB12")
           (str "  ") [9] (str "cred 1") [10] None);
    first [reflexivity | discriminate].
Defined.

Lemma generateVerificationUrl_injective_sample :
  trim (str " 0xAB12") = trim (str "0xAB12 ")
  /\ trim (str "cred 1") = trim (str "cred 1  ").
Proof.
  apply (generateVerificationUrl_injective sample_window (str " 0xAB12")
           (str "cred 1") (str "0xAB12 ") (str "cred 1  ") None
           (str "https://credvault.app/verify?address=0xAB12&credentialId=cred+1"));
    reflexivity.
Defined.

Lemma profile_url_round_trip_sample :
  exists url,
    generateProfileUrl sample_window (str " alice.apt ") None = Normal url
    /\ forall w, location_search w = search_of_href url ->
         parseUrlParams (Some w)
         = {| CredentialParams.address := Some (trim (str " alice.apt "));
              CredentialParams.credentialId := None;
              CredentialParams.type := None;
              CredentialParams.issuer := None |}.
Proof.
  apply (profile_url_round_trip sample_window (str " alice.apt ") None);
    reflexivity.
Defined.

Example generateProfileUrl_vectors :
  generateProfileUrl sample_window (str " alice.apt ") None
  = Normal (str "https://credvault.app/verify?address=alice.apt")
  /\ generateProfileUrl sample_window (str "0xAB12")
       (Some (str "https://example.org"))
     = Normal (str "https://example.org/verify?address=0xAB12")
  /\ generateProfileUrl sample_window [] None = Throw MissingAddress
  /\ generateProfileUrl sample_window (str "   ") None
     = Throw InvalidWalletAddress
  /\ generateProfileUrl sample_window (str "0xZZ") None
     = Throw InvalidWalletAddress.
Proof. vm_compute. auto 10. Qed.

Lemma verification_link_extends_profile_link_sample :
  exists profileUrl,
    generateProfileUrl sample_window (str "0xAB12") None = Normal profileUrl
    /\ str "https://credvault.app/verify?address=0xAB12&credentialId=cred+1"
       = profileUrl ++ str "&credentialId="
           ++ urlencoded_string (toUSVString (trim (str "cred 1 "))).
Proof.
  apply (verification_link_extends_profile_link sample_window (str "0xAB12")
           (str "cred 1 ") None). reflexivity.
Defined.

Example handleUrlError_vectors :
  handleUrlError (Some MissingField)
  = str "Missing required information for verification URL."
  /\ handleUrlError (Some MissingAddress)
     = str "Missing required information for verification URL."
  /\ handleUrlError (Some InvalidWalletAddress)
     = str "Invalid wallet address format. Please check the address and try again."
  /\ handleUrlError (Some RequestNotFound) = str "Request not found"
  /\ handleUrlError None
     = str "Unable to generate verification URL. Please try again.".
Proof. vm_compute. auto 10. Qed.

Lemma handleUrlError_of_generator_errors_sample :
  handleUrlError (Some MissingField)
  = str "Missing required information for verification URL."
  /\ handleUrlError (Some InvalidWalletAddress)
     = str "Invalid wallet address format. Please check the address and try again.".
Proof.
  split.
  - apply (proj1 (handleUrlError_of_generator_errors sample_window
                    (str "0xAB12") [] None MissingField)). reflexivity.
  - apply (proj2 (handleUrlError_of_generator_errors sample_window
                    (str "0xZZ") (str "cred_1") None InvalidWalletAddress)).
    reflexivity.
Defined.

Lemma qr_link_round_trip_sample :
  exists r,
    generateQRVerificationData sample_window sample_oracle
      sample_qr_credential (str "0xAB12 ") None
    = Normal r
    /\ generateVerificationUrl sample_window (str "0xAB12 ")
         (QRCredential.id sample_qr_credential) None = Normal (qr_url r)
    /\ VerificationData.walletAddress (qr_data r) = str "0xAB12 "
    /\ VerificationData.credentialId (qr_data r)
       = QRCredential.id sample_qr_credential
    /\ forall w, location_search w = search_of_href (qr_url r) ->
         parseUrlParams (Some w)
         = {| CredentialParams.address :=
                Some (trim (VerificationData.walletAddress (qr_data r)));
              CredentialParams.credentialId :=
                Some (trim (VerificationData.credentialId (qr_data r)));
              CredentialParams.type := None;
              CredentialParams.issuer := None |}.
Proof.
  apply (qr_link_round_trip sample_window sample_oracle sample_qr_credential
           (str "0xAB12 ") None); reflexivity.
Defined.

Example generateQRVerificationData_vector :
  generateQRVerificationData sample_window sample_oracle sample_qr_credential
    (str "0xAB12 ") None
  = Normal
      {| qr_url :=
           str "https://credvault.app/verify?address=0xAB12&credentialId=cred+1";
         qr_data :=
           {| VerificationData.credentialId := str " cred 1";
              VerificationData.walletAddress := str "0xAB12 ";
              VerificationData.issuer := str "TechAcademy Institute";
              VerificationData.title := str "Rocq Certificate";
              VerificationData.type := str "Certificate";
              VerificationData.issuedDate := str "2023-11-14";
              VerificationData.timestamp := str "1700000000000" |} |}.
Proof. reflexivity. Qed.

Lemma share_link_round_trip_sample :
  exists s,
    createShareableUrl (H := ascii_platform) sample_window
      sample_share_credential (str "0xAB12")
    = Normal s
    /\ generateVerificationUrl sample_window (str "0xAB12")
         (ShareCredential.id sample_share_credential) None
       = Normal (share_url s)
    /\ forall w, location_search w = search_of_href (share_url s) ->
         parseUrlParams (Some w)
         = {| CredentialParams.address := Some (trim (str "0xAB12"));
              CredentialParams.credentialId :=
                Some (trim (ShareCredential.id sample_share_credential));
              CredentialParams.type := None;
              CredentialParams.issuer := None |}.
Proof.
  apply (share_link_round_trip (platform := ascii_platform) sample_window
           sample_share_credential (str "0xAB12")); reflexivity.
Defined.

Example createShareableUrl_vector :
  createShareableUrl (H := ascii_platform) sample_window
    sample_share_credential (str "0xAB12")
  = Normal
      {| share_url :=
           str "https://credvault.app/verify?address=0xAB12&credentialId=cred_1";
         share_title := str "Rocq Certificate - CredVault";
         share_text :=
           str "Verify this certificate: " ++ [quote]
             ++ str "Rocq Certificate" ++ [quote]
             ++ str " issued by TechAcademy Institute" |}.
Proof. reflexivity. Qed.

Lemma generated_query_is_url_safe_sample :
  exists query,
    str "https://credvault.app/verify?address=a%26b%3Dc%23d&credentialId=%C3%A9+%EF%BF%BD"
    = or_else None (location_origin sample_window) ++ str "/verify?" ++ query
    /\ forallb query_char query = true.
Proof.
  apply (generated_query_is_url_safe sample_window (str "a&b=c#d")
           ([0xE9] ++ str " " ++ [0xD800]) None); reflexivity.
Defined.

Example sanitizeUrlForDisplay_edge_vectors :
  sanitizeUrlForDisplay (str "abcdefg") 5 = str "ab...efg"
  /\ sanitizeUrlForDisplay (str "ab...efg") 5 = str "ab...efg"
  /\ sanitizeUrlForDisplay (str "abcdefg") 0 = str "..."
  /\ sanitizeUrlForDisplay (str "abcdefg") (-3) = str "..."
  /\ sanitizeUrlForDisplay [] 0 = []
  /\ sanitizeUrlForDisplay [] (-1) = str "...".
Proof. vm_compute. auto 10. Qed.

Lemma approval_moves_request_to_credentials_sample :
  exists updated credential ls',
    approveCredentialRequest later_oracle (str "req_1700000000000_k3j9x0q2a")
      no_metadata pending_store
    = (Normal (updated, credential), ls')
    /\ CredentialRequest.status updated = approved
    /\ (forall w, exists before,
          (getCredentialsForStudent w pending_store).1 = Normal before
          /\ (getCredentialsForStudent w ls').1
             = Normal (before
                         ++ if bool_decide
                                 (CredentialRequest.studentWalletAddress
                                    pending_request = w)
                            then [credential] else []))
    /\ (forall w, exists before,
          (getCredentialsByIssuer w pending_store).1 = Normal before
          /\ (getCredentialsByIssuer w ls').1
             = Normal (before
                         ++ if bool_decide
                                 (CredentialRequest.issuerWalletAddress
                                    pending_request = w)
                            then [credential] else []))
    /\ (forall w, exists before1 before2,
          (getPendingRequestsForIssuer w pending_store).1
          = Normal (before1
                      ++ (if bool_decide
                               (CredentialRequest.issuerWalletAddress
                                  pending_request = w)
                          then [pending_request] else [])
                      ++ before2)
          /\ (getPendingRequestsForIssuer w ls').1
             = Normal (before1 ++ before2)).
Proof.
  apply (approval_moves_request_to_credentials later_oracle
           (str "req_1700000000000_k3j9x0q2a") no_metadata pending_store
           0%nat pending_request); reflexivity.
Defined.

Lemma rejection_is_terminal_sample :
  exists updated ls',
    rejectCredentialRequest (str "req_1700000000000_k3j9x0q2a") (Some [])
      pending_store
    = (Normal updated, ls')
    /\ updated
       = CredentialRequest.with_status pending_request rejected
           (Some (or_else (Some []) (str "Request was rejected")))
    /\ requests_of ls' !! 0%nat = Some updated
    /\ credvault_issued_credentials ls'
       = credvault_issued_credentials pending_store
    /\ approveCredentialRequest later_oracle
         (str "req_1700000000000_k3j9x0q2a") no_metadata ls'
       = (Throw RequestNotPending, ls')
    /\ rejectCredentialRequest (str "req_1700000000000_k3j9x0q2a") None ls'
       = (Throw RequestNotPending, ls')
    /\ (forall w, exists before1 before2,
          (getPendingRequestsForIssuer w pending_store).1
          = Normal (before1
                      ++ (if bool_decide
                               (CredentialRequest.issuerWalletAddress
                                  pending_request = w)
                          then [pending_request] else [])
                      ++ before2)
          /\ (getPendingRequestsForIssuer w ls').1
             = Normal (before1 ++ before2)).
Proof.
  apply (rejection_is_terminal later_oracle
           (str "req_1700000000000_k3j9x0q2a") (Some []) None no_metadata
           pending_store 0%nat pending_request); reflexivity.
Defined.

Lemma stored_requests_only_leave_pending_sample :
  exists r',
    requests_of (calls sample_calls store_with_rejected) !! 0%nat = Some r'
    /\ evolves rejected_request r'
    /\ (CredentialRequest.status rejected_request <> pending ->
        r' = rejected_request).
Proof.
  apply (stored_requests_only_leave_pending sample_calls store_with_rejected
           0%nat rejected_request). reflexivity.
Defined.

Example calls_vector :
  map CredentialRequest.status
    (requests_of (calls sample_calls store_with_rejected))
  = [rejected; approved]
  /\ length (credentials_of (calls sample_calls store_with_rejected)) = 1%nat
  /\ approved_count (calls sample_calls store_with_rejected) = 1%nat.
Proof. vm_compute. auto. Qed.

Lemma registered_user_can_sign_in_sample :
  (exists ls'',
     signInStudent (H := ascii_platform)
       {| signin_email := str "Student@TEST.com";
          signin_walletAddress := str "0xAB12" |}
       (registerStudent (H := ascii_platform) sample_oracle
          sample_student_registration empty_store).2
     = (Normal (Some (student_profile sample_oracle
                        sample_student_registration)), ls'')
     /\ (getCurrentUser ls'').1
        = Normal (Some (student_profile sample_oracle
                          sample_student_registration))
     /\ (isAuthenticated ls'').1 = Normal true)
  /\ (exists ls'',
        signInStaff (H := ascii_platform)
          {| staff_signin_email := str "staff@University.edu" |}
          (registerStaff (H := ascii_platform) sample_oracle
             sample_staff_registration empty_store).2
        = (Normal (Some (staff_profile sample_oracle
                           sample_staff_registration)), ls'')
        /\ (getCurrentUser ls'').1
           = Normal (Some (staff_profile sample_oracle
                             sample_staff_registration))
        /\ (isAuthenticated ls'').1 = Normal true)
  /\ (exists ls'',
        signInIssuer (H := ascii_platform)
          {| issuer_signin_email := str "Issuer@TechAcademy.edu" |}
          (registerIssuer (H := ascii_platform) sample_oracle
             sample_issuer_registration empty_store).2
        = (Normal (Some (issuer_profile sample_oracle
                           sample_issuer_registration)), ls'')
        /\ (getCurrentUser ls'').1
           = Normal (Some (issuer_profile sample_oracle
                             sample_issuer_registration))
        /\ (isAuthenticated ls'').1 = Normal true).
Proof.
  split; [|split].
  - apply (proj1 (registered_user_can_sign_in (H := ascii_platform)
                    sample_oracle empty_store (str "Student@TEST.com")
                    sample_student_registration sample_staff_registration
                    sample_issuer_registration eq_refl)); reflexivity.
  - apply (proj1 (proj2 (registered_user_can_sign_in (H := ascii_platform)
                           sample_oracle empty_store
                           (str "staff@University.edu")
                           sample_student_registration
                           sample_staff_registration
                           sample_issuer_registration eq_refl)));
      reflexivity.
  - apply (proj2 (proj2 (registered_user_can_sign_in (H := ascii_platform)
                           sample_oracle empty_store
                           (str "Issuer@TechAcademy.edu")
                           sample_student_registration
                           sample_staff_registration
                           sample_issuer_registration eq_refl)));
      reflexivity.
Defined.

Example signIn_is_sound_vectors :
  (signInStudent (H := ascii_platform) TEST_CREDENTIALS_student seeded_store).1
  = Normal (Some (profile_of sample_student))
  /\ (signInStaff (H := ascii_platform)
        {| staff_signin_email := str "student@test.com" |} seeded_store)
     = (Normal None, seeded_store)
  /\ (signInIssuer (H := ascii_platform)
        {| issuer_signin_email := str "nobody@test.com" |} seeded_store)
     = (Normal None, seeded_store)
  /\ (signInStaff (H := ascii_platform)
        {| staff_signin_email := str "staff" |} seeded_store)
     = (Throw InvalidEmail, seeded_store).
Proof. vm_compute. auto. Qed.

Lemma seedTestUsers_duplicates_email_sample :
  exists v,
    v ∈ users_of (seedTestUsers sample_oracle sample_oracle sample_oracle
                    seeded_store).2
    /\ ~ (v ∈ users_of seeded_store)
    /\ StoredUser.email v = str "student@test.com"
    /\ toLowerCase (StringPrototype := ascii_platform) (StoredUser.email v)
       = toLowerCase (StringPrototype := ascii_platform)
           (StoredUser.email sample_student)
    /\ ~ unique_emails (H := ascii_platform)
           (seedTestUsers sample_oracle sample_oracle sample_oracle
              seeded_store).2.
Proof.
  apply (seedTestUsers_duplicates_email (H := ascii_platform) sample_oracle
           sample_oracle sample_oracle seeded_store (str "student@test.com")
           sample_student).
  - left.
  - left.
  - reflexivity.
  - reflexivity.
Defined.

Example seedTestUsers_vectors :
  users_of (seedTestUsers sample_oracle later_oracle later_oracle
              empty_store).2
  = testUsers sample_oracle later_oracle later_oracle
  /\ map StoredUser.email
       (users_of (seedTestUsers sample_oracle later_oracle later_oracle
                    seeded_store).2)
     = [str "Student@Test.com"; str "staff@university.edu";
        str "student@test.com"; str "issuer@techacademy.edu"]
  /\ (testUsersExist seeded_store).1 = Normal false
  /\ (testUsersExist empty_store).1 = Normal false.
Proof. vm_compute. auto. Qed.

Lemma reset_test_data_sample :
  exists cleared seeded student_user staff_user issuer_user,
    clearTestData pending_store = (Normal tt, cleared)
    /\ requests_of cleared = requests_of pending_store
    /\ credentials_of cleared = []
    /\ users_of cleared = []
    /\ (isAuthenticated cleared).1 = Normal false
    /\ (testUsersExist cleared).1 = Normal false
    /\ seedTestUsers sample_oracle sample_oracle later_oracle cleared
       = (Normal tt, seeded)
    /\ users_of seeded = testUsers sample_oracle sample_oracle later_oracle
    /\ testUsers sample_oracle sample_oracle later_oracle
       = [student_user; staff_user; issuer_user]
    /\ (signInStudent (H := ascii_platform) TEST_CREDENTIALS_student seeded).1
       = Normal (Some (profile_of student_user))
    /\ (signInStaff (H := ascii_platform) TEST_CREDENTIALS_staff seeded).1
       = Normal (Some (profile_of staff_user))
    /\ (signInIssuer (H := ascii_platform) TEST_CREDENTIALS_issuer seeded).1
       = Normal (Some (profile_of issuer_user)).
Proof.
  apply (reset_test_data (H := ascii_platform) sample_oracle sample_oracle
           later_oracle pending_store).
  repeat constructor.
Defined.

Lemma whitespace_id_link_reads_as_profile_link_sample :
  exists url,
    generateVerificationUrl sample_window (str "0xAB12") (str "  ") None
    = Normal url
    /\ forall w, location_search w = search_of_href url ->
         parseUrlParams (Some w)
         = {| CredentialParams.address := Some (trim (str "0xAB12"));
              CredentialParams.credentialId := None;
              CredentialParams.type := None;
              CredentialParams.issuer := None |}.
Proof.
  apply (whitespace_id_link_reads_as_profile_link sample_window
           (str "0xAB12") (str "  ") None);
    first [reflexivity | discriminate].
Defined.

Lemma shadowed_request_is_stuck_sample :
  requests_of (calls shadow_calls shadowed_store) !! 1%nat
  = Some pending_request.
Proof.
  apply (shadowed_request_is_stuck shadow_calls shadowed_store 0%nat 1%nat
           pending_request pending_request); [lia | reflexivity..].
Defined.

Example shadowed_request_vector :
  map CredentialRequest.status
    (requests_of (calls shadow_calls shadowed_store))
  = [approved; pending].
Proof. reflexivity. Qed.
